(** * A shallow embedding of the LLM Pokemon trainer's decision core

    The development follows [src/main.py] (class [LocalLLMPlayer]):
    the damage estimation model [calculate_move_damages], the turn-order
    resolver [get_effective_speed] / [determine_who_moves_first], the
    action filter pipeline [filter_suboptimal_moves] with its overrides
    [mortal_peril_alert] and [step_on_throat], the viable switch filter
    [filter_suboptimal_switches], the fallback selector
    [select_best_damage_move] and the retry loop of [choose_move].

    Modelling conventions.
    - Python [str] is [string] (8-bit characters); [list] is [list];
      a [dict] whose iteration order is observable is an association list
      that keeps first-insertion order.
    - Python [float] arithmetic is idealised to exact rationals [Q].
    - Enumerations of the battle library are inductive types; the members
      the source never names are collected under a single extra member.
    - The type chart of the battle library is a section variable. *)

From Stdlib Require Import List String Ascii Bool Arith ZArith QArith Lia Lqa.
Import ListNotations.

Local Open Scope string_scope.

(** ** Strings, as Python's [str] methods used by the source *)

Module Str.

(** [c.lower()] on one character. *)
Definition lower_ascii (c : ascii) : ascii :=
  let n := nat_of_ascii c in
  if (65 <=? n)%nat && (n <=? 90)%nat then ascii_of_nat (n + 32) else c.

(** [s.lower()]. *)
Fixpoint lower (s : string) : string :=
  match s with
  | EmptyString => EmptyString
  | String c s' => String (lower_ascii c) (lower s')
  end.

(** [c.isspace()] on the characters below 128. *)
Definition is_space (c : ascii) : bool :=
  let n := nat_of_ascii c in
  ((9 <=? n)%nat && (n <=? 13)%nat) || ((28 <=? n)%nat && (n <=? 32)%nat).

Fixpoint lstrip (s : string) : string :=
  match s with
  | EmptyString => EmptyString
  | String c s' => if is_space c then lstrip s' else s
  end.

Fixpoint rstrip (s : string) : string :=
  match s with
  | EmptyString => EmptyString
  | String c s' =>
      match rstrip s' with
      | EmptyString => if is_space c then EmptyString else String c EmptyString
      | r => String c r
      end
  end.

(** [s.strip()]. *)
Definition strip (s : string) : string := rstrip (lstrip s).

(** The character class [[a-z-]]. *)
Definition lower_or_hyphen (c : ascii) : bool :=
  let n := nat_of_ascii c in
  ((97 <=? n)%nat && (n <=? 122)%nat) || (n =? 45)%nat.

(** [re.sub(r"[^a-z-]", "", s)]. *)
Fixpoint keep_lower_hyphen (s : string) : string :=
  match s with
  | EmptyString => EmptyString
  | String c s' =>
      if lower_or_hyphen c then String c (keep_lower_hyphen s')
      else keep_lower_hyphen s'
  end.

(** [s.startswith(p)]. *)
Definition startswith (p s : string) : bool := String.prefix p s.

(** [sub in s] for strings. *)
Fixpoint contains (sub s : string) : bool :=
  String.prefix sub s ||
  match s with
  | EmptyString => false
  | String _ s' => contains sub s'
  end.

(** [s.replace(old, new)] for a non-empty [old]: occurrences are replaced
    from left to right and do not overlap.  [skip] counts the characters
    of a matched occurrence that are still to be dropped. *)
Fixpoint replace_from (old new s : string) (skip : nat) : string :=
  match s with
  | EmptyString => EmptyString
  | String c s' =>
      match skip with
      | S k => replace_from old new s' k
      | O =>
          if String.prefix old s
          then new ++ replace_from old new s' (String.length old - 1)
          else String c (replace_from old new s' 0)
      end
  end.

Definition replace (old new s : string) : string := replace_from old new s 0.

(** [x in l] for a list of strings. *)
Definition mem (x : string) (l : list string) : bool :=
  existsb (String.eqb x) l.

(** Every character of [s] satisfies [p]. *)
Fixpoint all_chars (p : ascii -> bool) (s : string) : bool :=
  match s with
  | EmptyString => true
  | String c s' => p c && all_chars p s'
  end.

End Str.

(** [sanitize_model_response]: [re.sub(r"[^a-z-]", "", text.strip().lower())]. *)
Definition sanitize_model_response (text : string) : string :=
  Str.keep_lower_hyphen (Str.lower (Str.strip text)).

(** [list.remove(x)] guarded by [if x in l]: the first occurrence goes,
    an absent [x] leaves the list as it is. *)
Fixpoint remove_first (x : string) (l : list string) : list string :=
  match l with
  | [] => []
  | y :: l' => if String.eqb x y then l' else y :: remove_first x l'
  end.

(** [for m in names: if m in l: l.remove(m)]. *)
Definition remove_each (names l : list string) : list string :=
  fold_left (fun acc m => remove_first m acc) names l.

(** ** Enumerations of the battle library *)

Inductive PokemonType :=
  | BUG | DARK | DRAGON | ELECTRIC | FAIRY | FIGHTING | FIRE | FLYING
  | GHOST | GRASS | GROUND | ICE | NORMAL | POISON | PSYCHIC | ROCK
  | STEEL | WATER | THREE_QUESTION_MARKS | STELLAR.

Inductive Weather :=
  | DESOLATELAND | DELTASTREAM | HAIL | PRIMORDIALSEA | RAINDANCE
  | SANDSTORM | SNOW | SNOWSCAPE | SUNNYDAY | UNKNOWN_WEATHER.

Inductive Status := BRN | FNT | FRZ | PAR | PSN | SLP | TOX.

Inductive Field :=
  | ELECTRIC_TERRAIN | GRASSY_TERRAIN | PSYCHIC_TERRAIN | TRICK_ROOM
  | OTHER_FIELD.

Inductive SideCondition :=
  | STEALTH_ROCK | SPIKES | TOXIC_SPIKES | STICKY_WEB | REFLECT
  | LIGHT_SCREEN | AURORA_VEIL | TAILWIND | OTHER_SIDE_CONDITION.

Inductive Effect :=
  | TAUNT | ENCORE | LEECH_SEED | BIND | CLAMP | FIRE_SPIN | INFESTATION
  | SAND_TOMB | SNAP_TRAP | THUNDER_CAGE | WHIRLPOOL | WRAP | SUBSTITUTE
  | OTHER_EFFECT.

Inductive MoveCategory := PHYSICAL | SPECIAL | STATUS.

Ltac enum_eq_dec := decide equality.

Definition PokemonType_eq_dec (a b : PokemonType) : {a = b} + {a <> b}.
Proof. enum_eq_dec. Defined.
Definition Weather_eq_dec (a b : Weather) : {a = b} + {a <> b}.
Proof. enum_eq_dec. Defined.
Definition Status_eq_dec (a b : Status) : {a = b} + {a <> b}.
Proof. enum_eq_dec. Defined.
Definition Field_eq_dec (a b : Field) : {a = b} + {a <> b}.
Proof. enum_eq_dec. Defined.
Definition SideCondition_eq_dec (a b : SideCondition) : {a = b} + {a <> b}.
Proof. enum_eq_dec. Defined.
Definition Effect_eq_dec (a b : Effect) : {a = b} + {a <> b}.
Proof. enum_eq_dec. Defined.
Definition MoveCategory_eq_dec (a b : MoveCategory) : {a = b} + {a <> b}.
Proof. enum_eq_dec. Defined.

(** [x in l] through a decidable equality. *)
Definition mem_dec {A : Type} (dec : forall a b : A, {a = b} + {a <> b})
  (x : A) (l : list A) : bool :=
  existsb (fun y => if dec x y then true else false) l.

Definition type_eqb (a b : PokemonType) : bool :=
  if PokemonType_eq_dec a b then true else false.
Definition type_in (t : PokemonType) (l : list PokemonType) : bool :=
  mem_dec PokemonType_eq_dec t l.
Definition category_eqb (a b : MoveCategory) : bool :=
  if MoveCategory_eq_dec a b then true else false.
Definition field_in (f : Field) (l : list Field) : bool :=
  mem_dec Field_eq_dec f l.
Definition effect_in (e : Effect) (l : list Effect) : bool :=
  mem_dec Effect_eq_dec e l.

(** [weather in [...]] and [weather == w], for an optional weather. *)
Definition weather_in (w : option Weather) (l : list Weather) : bool :=
  match w with
  | Some x => mem_dec Weather_eq_dec x l
  | None => false
  end.
Definition weather_is (w : option Weather) (x : Weather) : bool :=
  weather_in w [x].

(** [status == s] and [status in [...]], for an optional status. *)
Definition status_in (s : option Status) (l : list Status) : bool :=
  match s with
  | Some x => mem_dec Status_eq_dec x l
  | None => false
  end.
Definition status_is (s : option Status) (x : Status) : bool :=
  status_in s [x].

(** [ability == name], [ability in [...]] and the truth value of an
    optional string (absent and empty are both false). *)
Definition opt_is (a : option string) (name : string) : bool :=
  match a with
  | Some x => String.eqb x name
  | None => false
  end.
Definition opt_in (a : option string) (names : list string) : bool :=
  match a with
  | Some x => Str.mem x names
  | None => false
  end.
Definition truthy (a : option string) : bool :=
  match a with
  | Some EmptyString => false
  | Some _ => true
  | None => false
  end.
(** [a and sub in a]. *)
Definition opt_contains (sub : string) (a : option string) : bool :=
  match a with
  | Some x => truthy a && Str.contains sub x
  | None => false
  end.

(** ** Rational comparisons *)

Definition Qlt_bool (x y : Q) : bool := negb (Qle_bool y x).
Definition Qgt_bool (x y : Q) : bool := Qlt_bool y x.
Definition Qge_bool (x y : Q) : bool := Qle_bool y x.

(** ** Dictionaries *)

Section Dict.
Context {K V : Type} (keq : K -> K -> bool).

(** [d.get(k)]. *)
Fixpoint dict_get (k : K) (d : list (K * V)) : option V :=
  match d with
  | [] => None
  | (k', v) :: d' => if keq k k' then Some v else dict_get k d'
  end.

(** [k in d]. *)
Definition dict_has (k : K) (d : list (K * V)) : bool :=
  match dict_get k d with Some _ => true | None => false end.

(** [d[k] = v]: an existing key keeps its place, a new one goes last. *)
Fixpoint dict_set (k : K) (v : V) (d : list (K * V)) : list (K * V) :=
  match d with
  | [] => [(k, v)]
  | (k', v') :: d' =>
      if keq k k' then (k', v) :: d' else (k', v') :: dict_set k v d'
  end.

Definition dict_keys (d : list (K * V)) : list K := map fst d.
Definition dict_values (d : list (K * V)) : list V := map snd d.
End Dict.

Definition side_eqb (a b : SideCondition) : bool :=
  if SideCondition_eq_dec a b then true else false.

(** [conditions.get(c, 0)] and [c in conditions]. *)
Definition side_count (c : SideCondition) (d : list (SideCondition * Z)) : Z :=
  match dict_get side_eqb c d with Some n => n | None => 0%Z end.
Definition side_has (c : SideCondition) (d : list (SideCondition * Z)) : bool :=
  dict_has side_eqb c d.

(** [boosts.get(stat, 0)]. *)
Definition boost_of (stat : string) (d : list (string * Z)) : Z :=
  match dict_get String.eqb stat d with Some n => n | None => 0%Z end.

(** The map a loop of assignments [d[key x] = val x] builds from [d]. *)
Definition assign_all {A V : Type} (key : A -> string) (val : A -> V)
  (xs : list A) (d : list (string * V)) : list (string * V) :=
  fold_left (fun d x => dict_set String.eqb (key x) (val x) d) xs d.

(** ** The read model of a turn *)

Module Move.
Record t := mk {
  id : string;
  base_power : Z;
  type : PokemonType;
  category : MoveCategory;
  accuracy : Q;
  priority : Z;
  crit_ratio : Z;
  flags : list string;
  boosts : option (list (string * Z));
  recoil : Q
}.
End Move.

Module Pokemon.
Record t := mk {
  species : string;
  current_hp_fraction : Q;
  status : option Status;
  status_counter : Z;
  ability : option string;
  possible_abilities : list string;
  item : option string;
  type_1 : PokemonType;
  type_2 : option PokemonType;
  effects : list Effect;
  must_recharge : bool;
  fainted : bool;
  boosts : list (string * Z);
  stats_spe : Z;
  weight : Q;
  moves : list (string * Move.t);
  turn_count : Z
}.

(** [pokemon.types]: the pair of types, the second possibly absent. *)
Definition types (p : t) : list (option PokemonType) :=
  [Some (type_1 p); type_2 p].

(** [ty in pokemon.types]. *)
Definition has_type (ty : PokemonType) (p : t) : bool :=
  existsb (fun o => match o with
                    | Some x => type_eqb ty x
                    | None => false
                    end) (types p).
End Pokemon.

Module Battle.
Record t := mk {
  gen : Z;
  turn : Z;
  active_pokemon : Pokemon.t;
  opponent_active_pokemon : Pokemon.t;
  available_moves : list Move.t;
  available_switches : list Pokemon.t;
  weather : option Weather;
  fields : list Field;
  side_conditions : list (SideCondition * Z);
  opponent_side_conditions : list (SideCondition * Z);
  team : list (string * Pokemon.t);
  opponent_team : list (string * Pokemon.t)
}.
End Battle.

(** One entry of the damage map. *)
Record DamageInfo := mkInfo {
  expected_damage : Q;
  stab : bool;
  multiplier : Q;
  priority : Z
}.

Definition DamageMap := list (string * DamageInfo).

(** The state of the player object that the decision logic reads or
    writes.  The chat history holds rendered prompts; their text is
    presentation only, so a message records what it was built from. *)
Inductive Message :=
  | SystemPrompt
  | TurnPrompt (legal_actions : list string) (damage_info : DamageMap)
  | AssistantReply (content : string).

Record Player := mkPlayer {
  last_move : option string;
  just_switched : bool;
  initial_prompt_sent : bool;
  message_history : list Message
}.

(** What [create_order] is given: a move, a switch target, or nothing
    (the pass of the turn). *)
Inductive Order :=
  | MoveOrder (move : Move.t)
  | SwitchOrder (pokemon : Pokemon.t)
  | PassOrder.

Local Open Scope Q_scope.

(** [x *= k] under a condition. *)
Definition scale (c : bool) (k x : Q) : Q := if c then x * k else x.

Section Engine.

(** The type chart of the battle library: the multiplier of an attack of
    the first type on a defender of the second. *)
Variable type_chart : PokemonType -> PokemonType -> Q.

(** [PokemonType.damage_multiplier(type_1, type_2)] of the battle library. *)
Definition type_damage_multiplier (atk t1 : PokemonType)
  (t2 : option PokemonType) : Q :=
  type_chart atk t1 * match t2 with Some t => type_chart atk t | None => 1 end.

(** [Pokemon.damage_multiplier(type_or_move)] of the battle library; a move
    stands for its nominal type. *)
Definition damage_multiplier (p : Pokemon.t) (atk : PokemonType) : Q :=
  type_damage_multiplier atk (Pokemon.type_1 p) (Pokemon.type_2 p).

(** ** Damage estimation model: [calculate_move_damages] *)

(** [get_crit_damage_multiplier]. *)
Definition get_crit_damage_multiplier (battle : Battle.t) (pokemon : Pokemon.t) : Q :=
  if opt_is (Pokemon.ability pokemon) "sniper" then
    if (6 <=? Battle.gen battle)%Z then 225 # 100 else 3
  else
    if (6 <=? Battle.gen battle)%Z then 15 # 10 else 2.

(** [get_crit_chance]. *)
Definition get_crit_chance (battle : Battle.t) (move : Move.t)
  (pokemon : Pokemon.t) : Q :=
  let crit_stage := Move.crit_ratio move in
  let crit_stage :=
    if opt_contains "superluck" (Pokemon.ability pokemon)
    then (crit_stage + 1)%Z else crit_stage in
  let crit_stage :=
    if opt_contains "scopelens" (Pokemon.item pokemon)
    then (crit_stage + 1)%Z else crit_stage in
  if (7 <=? Battle.gen battle)%Z then
    match crit_stage with
    | 0%Z => 1 # 24 | 1%Z => 1 # 8 | 2%Z => 1 # 2 | _ => 1
    end
  else if (Battle.gen battle =? 6)%Z then
    match crit_stage with
    | 0%Z => 1 # 16 | 1%Z => 1 # 8 | 2%Z => 1 # 2 | _ => 1
    end
  else
    match crit_stage with
    | 0%Z => 1 # 16 | 1%Z => 1 # 8 | 2%Z => 1 # 4 | 3%Z => 1 # 3
    | 4%Z => 1 # 2 | _ => 1 # 2
    end.

Definition sun : list Weather := [SUNNYDAY; DESOLATELAND].
Definition rain : list Weather := [RAINDANCE; PRIMORDIALSEA].

(** Step 1 of the loop body: the power and type resolved for moves with
    variable power or type. *)
Definition resolve_power_type (battle : Battle.t) (move : Move.t)
  : Q * PokemonType :=
  let active_pokemon := Battle.active_pokemon battle in
  let opponent := Battle.opponent_active_pokemon battle in
  let power := inject_Z (Move.base_power move) in
  let move_type := Move.type move in
  if String.eqb (Move.id move) "weatherball" then
    if weather_in (Battle.weather battle) sun then (100, FIRE)
    else if weather_in (Battle.weather battle) rain then (100, WATER)
    else if weather_is (Battle.weather battle) SANDSTORM then (100, ROCK)
    else if weather_is (Battle.weather battle) SNOW then (100, ICE)
    else (power, move_type)
  else if Str.mem (Move.id move) ["return"; "frustration"] then
    (102, move_type)
  else if Str.mem (Move.id move) ["heavyslam"; "heatcrash"] then
    if negb (Qeq_bool (Pokemon.weight opponent) 0)
       && negb (Qeq_bool (Pokemon.weight active_pokemon) 0) then
      let ratio := Pokemon.weight opponent / Pokemon.weight active_pokemon in
      if Qlt_bool ratio (2 # 10) then (120, move_type)
      else if Qlt_bool ratio (25 # 100) then (100, move_type)
      else if Qlt_bool ratio (1 # 3) then (80, move_type)
      else if Qlt_bool ratio (5 # 10) then (60, move_type)
      else (40, move_type)
    else (100, move_type)
  else (power, move_type).

(** [get_defensive_modifier]; [move_type] is the resolved type and
    [effectiveness] the value the enclosing loop holds when it is called,
    the raw chart multiplier. *)
Definition get_defensive_modifier (move : Move.t) (move_type : PokemonType)
  (effectiveness : Q) (opponent : Pokemon.t) (ability : string) : Q :=
  if String.eqb ability "dryskin" && type_eqb move_type WATER then 0
  else if String.eqb ability "flashfire" && type_eqb move_type FIRE then 0
  else if String.eqb ability "levitate" && type_eqb move_type GROUND then 0
  else if Str.mem ability ["lightningrod"; "motordrive"; "voltabsorb"]
          && type_eqb move_type ELECTRIC then 0
  else if String.eqb ability "sapsipper" && type_eqb move_type GRASS then 0
  else if Str.mem ability ["stormdrain"; "waterabsorb"]
          && type_eqb move_type WATER then 0
  else
    let mod_ := 1 in
    let mod_ := scale (Str.mem ability ["filter"; "solidrock"; "prismarmor"]
                      && Qgt_bool effectiveness 1) (75 # 100) mod_ in
    let mod_ := scale (String.eqb ability "fluffy"
                      && Str.mem "contact" (Move.flags move)) (5 # 10) mod_ in
    let mod_ := scale (String.eqb ability "furcoat"
                      && category_eqb (Move.category move) PHYSICAL) (5 # 10) mod_ in
    let mod_ := scale (String.eqb ability "heatproof"
                      && type_eqb move_type FIRE) (5 # 10) mod_ in
    let mod_ := scale (String.eqb ability "icescales"
                      && category_eqb (Move.category move) SPECIAL) (5 # 10) mod_ in
    let mod_ := scale (String.eqb ability "multiscale"
                      && Qeq_bool (Pokemon.current_hp_fraction opponent) 1)
                     (5 # 10) mod_ in
    let mod_ := scale (String.eqb ability "punkrock"
                      && Str.mem "sound" (Move.flags move)) (5 # 10) mod_ in
    let mod_ := scale (String.eqb ability "purifyingsalt"
                      && type_eqb move_type GHOST) (5 # 10) mod_ in
    let mod_ := scale (String.eqb ability "thickfat"
                      && type_in move_type [FIRE; ICE]) (5 # 10) mod_ in
    let mod_ := scale (String.eqb ability "waterbubble"
                      && type_eqb move_type FIRE) (5 # 10) mod_ in
    let mod_ := scale (String.eqb ability "dryskin"
                      && type_eqb move_type FIRE) (125 # 100) mod_ in
    let mod_ := scale (String.eqb ability "fluffy"
                      && type_eqb move_type FIRE) 2 mod_ in
    mod_.

(** The loop over [opponent.possible_abilities]: the running minimum,
    started at [1.0]. *)
Definition worst_case_modifier (modifier_of : string -> Q)
  (possible_abilities : list string) : Q :=
  fold_left (fun worst possible_ability =>
               let modifier := modifier_of possible_ability in
               if Qlt_bool modifier worst then modifier else worst)
            possible_abilities 1.

(** The modifier the defender's ability contributes: that of the known
    ability, or the worst case over the possible ones. *)
Definition defensive_modifier (battle : Battle.t) (move : Move.t) : Q :=
  let opponent := Battle.opponent_active_pokemon battle in
  let move_type := snd (resolve_power_type battle move) in
  let effectiveness := damage_multiplier opponent (Move.type move) in
  let get := get_defensive_modifier move move_type effectiveness opponent in
  match Pokemon.ability opponent with
  | Some a => if truthy (Some a) then get a
              else worst_case_modifier get (Pokemon.possible_abilities opponent)
  | None => worst_case_modifier get (Pokemon.possible_abilities opponent)
  end.

(** [effectiveness] after the defender's ability has been applied. *)
Definition defended_effectiveness (battle : Battle.t) (move : Move.t) : Q :=
  damage_multiplier (Battle.opponent_active_pokemon battle) (Move.type move)
  * defensive_modifier battle move.

(** [effectiveness] after the attacker's Tinted Lens. *)
Definition move_effectiveness (battle : Battle.t) (move : Move.t) : Q :=
  let effectiveness := defended_effectiveness battle move in
  scale (opt_is (Pokemon.ability (Battle.active_pokemon battle)) "tintedlens"
         && Qlt_bool effectiveness 1) 2 effectiveness.

(** The attacker's ability power boosts: the [elif] chain. *)
Definition ability_power_boost (self : Player) (battle : Battle.t)
  (move : Move.t) (move_type : PokemonType) (power : Q) : Q :=
  let active_pokemon := Battle.active_pokemon battle in
  let attacker_ability := Pokemon.ability active_pokemon in
  let ability_is a := opt_is attacker_ability a in
  let low_hp := Qle_bool (Pokemon.current_hp_fraction active_pokemon) (1 # 3) in
  let has_flag f := negb (match Move.flags move with [] => true | _ => false end)
                    && Str.mem f (Move.flags move) in
  let category c := category_eqb (Move.category move) c in
  if ability_is "aerilate" && type_eqb move_type NORMAL then power * (12 # 10)
  else if ability_is "analytic" && ((1 <? Battle.turn battle)%Z
                            && opt_is (last_move self) (Move.id move))
       then power * (13 # 10)
  else if ability_is "blaze" && low_hp && type_eqb move_type FIRE then power * (15 # 10)
  else if ability_is "darkaura" then power * (133 # 100)
  else if ability_is "fairyaura" then power * (133 # 100)
  else if ability_is "flareboost" && status_is (Pokemon.status active_pokemon) BRN
          && category SPECIAL then power * (15 # 10)
  else if ability_is "guts"
          && (match Pokemon.status active_pokemon with Some _ => true | None => false end)
          && category PHYSICAL then power * (15 # 10)
  else if ability_is "ironfist" && has_flag "punch" then power * (12 # 10)
  else if ability_is "megalauncher" && has_flag "pulse" then power * (15 # 10)
  else if ability_is "overgrow" && low_hp && type_eqb move_type GRASS then power * (15 # 10)
  else if ability_is "pixilate" && type_eqb move_type NORMAL then power * (12 # 10)
  else if ability_is "punkrock" && has_flag "sound" then power * (13 # 10)
  else if ability_is "reckless" && Qgt_bool (Move.recoil move) 0 then power * (12 # 10)
  else if ability_is "refrigerate" && type_eqb move_type NORMAL then power * (12 # 10)
  else if ability_is "sandforce" && weather_is (Battle.weather battle) SANDSTORM
          && type_in move_type [ROCK; GROUND; STEEL] then power * (13 # 10)
  else if ability_is "solarpower" && weather_in (Battle.weather battle) sun
          && category SPECIAL then power * (15 # 10)
  else if opt_in attacker_ability ["steelworker"; "steelyspirit"]
          && type_eqb move_type STEEL then power * (15 # 10)
  else if ability_is "strongjaw" && has_flag "bite" then power * (15 # 10)
  else if ability_is "swarm" && low_hp && type_eqb move_type BUG then power * (15 # 10)
  else if ability_is "technician" && (Move.base_power move <=? 60)%Z then power * (15 # 10)
  else if ability_is "torrent" && low_hp && type_eqb move_type WATER then power * (15 # 10)
  else if ability_is "toughclaws" && has_flag "contact" then power * (13 # 10)
  else if ability_is "toxicboost" && status_in (Pokemon.status active_pokemon) [PSN; TOX]
          && category PHYSICAL then power * (15 # 10)
  else if ability_is "transistor" && type_eqb move_type ELECTRIC then power * (13 # 10)
  else if ability_is "waterbubble" && type_eqb move_type WATER then power * 2
  else power.

(** The weather and terrain modifiers on [power]. *)
Definition weather_terrain_power (battle : Battle.t) (move_type : PokemonType)
  (power : Q) : Q :=
  let active_pokemon := Battle.active_pokemon battle in
  let is_grounded := negb (Pokemon.has_type FLYING active_pokemon)
                     && negb (opt_is (Pokemon.ability active_pokemon) "levitate") in
  let w := Battle.weather battle in
  let power := scale (weather_in w sun && type_eqb move_type FIRE) (15 # 10) power in
  let power := scale (weather_in w sun && type_eqb move_type WATER) (5 # 10) power in
  let power := scale (weather_in w rain && type_eqb move_type WATER) (15 # 10) power in
  let power := scale (weather_in w rain && type_eqb move_type FIRE) (5 # 10) power in
  let power := scale (field_in ELECTRIC_TERRAIN (Battle.fields battle)
                      && type_eqb move_type ELECTRIC && is_grounded) (13 # 10) power in
  let power := scale (field_in GRASSY_TERRAIN (Battle.fields battle)
                      && type_eqb move_type GRASS && is_grounded) (13 # 10) power in
  let power := scale (field_in PSYCHIC_TERRAIN (Battle.fields battle)
                      && type_eqb move_type PSYCHIC && is_grounded) (13 # 10) power in
  power.

(** The final damage modifier: burn, screens, weather-driven defences. *)
Definition final_modifier (battle : Battle.t) (move : Move.t) : Q :=
  let active_pokemon := Battle.active_pokemon battle in
  let opponent := Battle.opponent_active_pokemon battle in
  let category c := category_eqb (Move.category move) c in
  let m := 1 in
  let m := scale (status_is (Pokemon.status active_pokemon) BRN
                  && category PHYSICAL
                  && negb (opt_is (Pokemon.ability active_pokemon) "guts"))
                 (5 # 10) m in
  let m := scale (side_has REFLECT (Battle.opponent_side_conditions battle)
                  && category PHYSICAL) (5 # 10) m in
  let m := scale (side_has LIGHT_SCREEN (Battle.opponent_side_conditions battle)
                  && category SPECIAL) (5 # 10) m in
  let m := scale (weather_is (Battle.weather battle) SANDSTORM
                  && Pokemon.has_type ROCK opponent && category SPECIAL
                  && (4 <=? Battle.gen battle)%Z) (1 / (15 # 10)) m in
  let m := scale (weather_is (Battle.weather battle) SNOW
                  && Pokemon.has_type ICE opponent && category PHYSICAL
                  && (9 <=? Battle.gen battle)%Z) (1 / (15 # 10)) m in
  m.

(** Freeze-Dry recomputes [effectiveness] from the defender's types; the
    chart is consulted as the source writes the call, with the defender's
    type as receiver and Ice as argument. *)
Definition freezedry_effectiveness (opponent : Pokemon.t) : Q :=
  fold_left (fun effectiveness opponent_type =>
               match opponent_type with
               | Some ty =>
                   if type_eqb ty WATER then effectiveness * 2
                   else effectiveness * type_damage_multiplier ty ICE None
               | None => effectiveness
               end)
            (Pokemon.types opponent) 1.

(** The power of the full calculation: it starts again from the move's
    base power. *)
Definition damaging_power (self : Player) (battle : Battle.t) (move : Move.t)
  (move_type : PokemonType) (is_stab : bool) : Q :=
  let power := inject_Z (Move.base_power move) in
  let attacker_ability := Pokemon.ability (Battle.active_pokemon battle) in
  let power :=
    if opt_is attacker_ability "adaptability" && is_stab then power * 2
    else if is_stab then power * (15 # 10)
    else power in
  let power := ability_power_boost self battle move move_type power in
  weather_terrain_power battle move_type power.

(** The body of the loop over [battle.available_moves]: the entry written
    for one move. *)
Definition move_entry (self : Player) (battle : Battle.t) (move : Move.t)
  : DamageInfo :=
  let active_pokemon := Battle.active_pokemon battle in
  let opponent := Battle.opponent_active_pokemon battle in
  let move_type := snd (resolve_power_type battle move) in
  let effectiveness := move_effectiveness battle move in
  let is_stab := Pokemon.has_type move_type active_pokemon in
  if category_eqb (Move.category move) STATUS || Qeq_bool effectiveness 0 then
    mkInfo 0 is_stab effectiveness (Move.priority move)
  else
    let power := damaging_power self battle move move_type is_stab in
    let final := final_modifier battle move in
    let effectiveness :=
      if String.eqb (Move.id move) "freezedry"
      then freezedry_effectiveness opponent else effectiveness in
    let base_damage := power * effectiveness * final in
    let crit_chance := get_crit_chance battle move active_pokemon in
    let crit_multiplier := get_crit_damage_multiplier battle active_pokemon in
    let crit_damage_modifier := 1 + crit_chance * (crit_multiplier - 1) in
    let expected := (Move.accuracy move / 100) * base_damage * crit_damage_modifier in
    mkInfo expected is_stab effectiveness (Move.priority move).

(** [calculate_move_damages]. *)
Definition calculate_move_damages (self : Player) (battle : Battle.t) : DamageMap :=
  match Battle.available_moves battle with
  | [] => []
  | moves =>
      fold_left (fun damage_info move =>
                   dict_set String.eqb (Move.id move)
                            (move_entry self battle move) damage_info)
                moves []
  end.

(** ** Turn-order resolver *)

(** [calculate_speed] inside [get_effective_speed]. *)
Definition calculate_speed (battle : Battle.t) (pokemon : Pokemon.t)
  (side_conditions : list (SideCondition * Z)) : Q :=
  let speed := inject_Z (Pokemon.stats_spe pokemon) in
  let boost := boost_of "spe" (Pokemon.boosts pokemon) in
  let speed :=
    if (0 <? boost)%Z then speed * (inject_Z (2 + boost) / 2)
    else if (boost <? 0)%Z then speed * (2 / inject_Z (2 - boost))
    else speed in
  let ability a := opt_is (Pokemon.ability pokemon) a in
  let w := Battle.weather battle in
  let speed := scale (ability "slushrush" && weather_in w [HAIL; SNOW]) 2 speed in
  let speed := scale (ability "swiftswim" && weather_in w rain) 2 speed in
  let speed := scale (ability "chlorophyll" && weather_in w sun) 2 speed in
  let speed := scale (ability "slowstart"
                      && (Pokemon.turn_count pokemon <? 5)%Z) (5 # 10) speed in
  let speed :=
    if status_is (Pokemon.status pokemon) PAR
    then speed * (if (7 <=? Battle.gen battle)%Z then 5 # 10 else 25 # 100)
    else speed in
  scale (side_has TAILWIND side_conditions) 2 speed.

(** [get_effective_speed]. *)
Definition get_effective_speed (battle : Battle.t) : Q * Q :=
  (calculate_speed battle (Battle.active_pokemon battle)
                   (Battle.side_conditions battle),
   calculate_speed battle (Battle.opponent_active_pokemon battle)
                   (Battle.opponent_side_conditions battle)).

(** [determine_who_moves_first]. *)
Definition determine_who_moves_first (battle : Battle.t) : bool :=
  let '(my_speed, opponent_speed) := get_effective_speed battle in
  if field_in TRICK_ROOM (Battle.fields battle)
  then Qlt_bool my_speed opponent_speed
  else Qgt_bool my_speed opponent_speed.

(** ** Viable switch filter *)

(** [p.species.lower().replace(' ', '-')]. *)
Definition species_key (p : Pokemon.t) : string :=
  Str.replace " " "-" (Str.lower (Pokemon.species p)).

(** [f"switch-{p.species.lower().replace(' ', '-')}"]. *)
Definition switch_name (p : Pokemon.t) : string := "switch-" ++ species_key p.

(** [[f"switch-..." for p in battle.available_switches]]. *)
Definition all_possible_switches (battle : Battle.t) : list string :=
  map switch_name (Battle.available_switches battle).

(** [next((p for p in battle.available_switches if key(p) == name), None)]. *)
Definition find_switch (battle : Battle.t) (name : string) : option Pokemon.t :=
  find (fun p => String.eqb (species_key p) name)
       (Battle.available_switches battle).

(** [next((m for m in battle.available_moves if m.id == move_id), None)]. *)
Definition find_move (battle : Battle.t) (move_id : string) : option Move.t :=
  find (fun m => String.eqb (Move.id m) move_id)
       (Battle.available_moves battle).

(** Whether the loop of [filter_suboptimal_switches] appends the option to
    [switches_to_remove]. *)
Definition switch_is_weak (battle : Battle.t) (switch_option : string) : bool :=
  let opponent := Battle.opponent_active_pokemon battle in
  let pokemon_name_to_check := Str.replace "switch-" "" switch_option in
  match find_switch battle pokemon_name_to_check with
  | None => false
  | Some pokemon_to_check =>
      match Pokemon.moves opponent with
      | _ :: _ =>
          existsb (fun move =>
                     Qgt_bool (damage_multiplier pokemon_to_check (Move.type move)) 1)
                  (filter (fun move => negb (category_eqb (Move.category move) STATUS))
                          (dict_values (Pokemon.moves opponent)))
      | [] =>
          existsb (fun opponent_type =>
                     match opponent_type with
                     | Some ty => Qgt_bool (damage_multiplier pokemon_to_check ty) 1
                     | None => false
                     end)
                  (Pokemon.types opponent)
      end
  end.

(** [filter_suboptimal_switches]. *)
Definition filter_suboptimal_switches (battle : Battle.t)
  (available_switches : list string) : list string :=
  match available_switches with
  | [] => []
  | _ =>
      let filtered_switches := available_switches in
      let switches_to_remove := filter (switch_is_weak battle) filtered_switches in
      if (List.length switches_to_remove =? List.length available_switches)%nat
      then available_switches
      else filter (fun s => negb (Str.mem s switches_to_remove)) filtered_switches
  end.

(** ** The two leading rules of the pipeline *)

(** [info.get('expected_damage', 0) >= threshold] over the map's items,
    in the map's order. *)
Definition moves_reaching (threshold : Q) (damage_info : DamageMap) : list string :=
  dict_keys (filter (fun kv => Qge_bool (expected_damage (snd kv)) threshold)
                    damage_info).

(** [step_on_throat]. *)
Definition step_on_throat (battle : Battle.t) (legal_actions : list string)
  (damage_info : DamageMap) : list string :=
  let am_i_faster := determine_who_moves_first battle in
  if negb am_i_faster then legal_actions
  else
    match moves_reaching (25 # 10) damage_info with
    | [] => legal_actions
    | ko_moves => ko_moves
    end.

(** [has_ko_threat] in [mortal_peril_alert]. *)
Definition has_ko_threat (battle : Battle.t) : bool :=
  let my_pokemon := Battle.active_pokemon battle in
  let opponent := Battle.opponent_active_pokemon battle in
  match Pokemon.moves opponent with
  | _ :: _ =>
      existsb (fun move =>
                 Qeq_bool (damage_multiplier my_pokemon (Move.type move)) 4)
              (dict_values (Pokemon.moves opponent))
  | [] =>
      existsb (fun t =>
                 match t with
                 | Some ty => Qgt_bool (damage_multiplier my_pokemon ty) 1
                 | None => false
                 end)
              (Pokemon.types opponent)
  end.

(** [mortal_peril_alert]. *)
Definition mortal_peril_alert (battle : Battle.t) (legal_actions : list string)
  (damage_info : DamageMap) : list string :=
  let am_i_faster := determine_who_moves_first battle in
  if negb (has_ko_threat battle) then legal_actions
  else
    let viable_switch_names :=
      filter_suboptimal_switches battle (all_possible_switches battle) in
    if negb am_i_faster then viable_switch_names
    else
      match moves_reaching 2 damage_info with
      | [] => viable_switch_names
      | ko_moves => ko_moves
      end.

(** ** Action filter pipeline: [filter_suboptimal_moves] *)

(** The state of the pipeline between two rules: the current
    [filtered_actions], or the list an early [return] delivered. *)
Inductive flow :=
  | Cont (filtered_actions : list string)
  | Ret (result : list string).

Definition and_then (f : flow) (rule : list string -> flow) : flow :=
  match f with
  | Cont l => rule l
  | Ret l => Ret l
  end.

Definition finish (f : flow) : list string :=
  match f with
  | Cont l => l
  | Ret l => l
  end.

Notation "f |> rule" := (and_then f rule) (at level 50, left associativity).

(** A rule that only edits the list. *)
Definition edit (rule : list string -> list string) (l : list string) : flow :=
  Cont (rule l).

(** [if c: ...] around an edit of the list. *)
Definition when (c : bool) (rule : list string -> list string)
  (l : list string) : list string :=
  if c then rule l else l.

Section Rules.

Variable self : Player.
Variable battle : Battle.t.
Variable legal_actions : list string.
Variable damage_map : DamageMap.

Let active_pokemon := Battle.active_pokemon battle.
Let current_opponent := Battle.opponent_active_pokemon battle.
Let opp_side_conditions := Battle.opponent_side_conditions battle.
Let my_side_conditions := Battle.side_conditions battle.
Let boosts := Pokemon.boosts active_pokemon.
Let opp_has_type ty := Pokemon.has_type ty current_opponent.

(** The forced switch shared by the override rules: the viable subset of
    all possible switches. *)
Definition viable_switches : list string :=
  filter_suboptimal_switches battle (all_possible_switches battle).

(** [[a for a in l if a.startswith("switch-")]]. *)
Definition switch_actions (l : list string) : list string :=
  filter (Str.startswith "switch-") l.

(** [damage_map.get(move_id, {}).get('multiplier', 1)]. *)
Definition multiplier_of (move_id : string) : Q :=
  match dict_get String.eqb move_id damage_map with
  | Some info => multiplier info
  | None => 1
  end.

(** Rule 0 and rule 0.5. *)
Definition rule_0 (l : list string) : list string :=
  mortal_peril_alert battle l damage_map.

Definition rule_0_5 (l : list string) : list string :=
  when (Qlt_bool (Pokemon.current_hp_fraction current_opponent) (5 # 10))
       (fun l => step_on_throat battle l damage_map) l.

(** Rule 1: healing moves at high HP. *)
Definition healing_moves : list string :=
  ["healorder"; "milkdrink"; "moonlight"; "morningsun"; "recover"; "rest";
   "roost"; "shoreup"; "slackoff"; "softboiled"; "swallow"; "synthesis"].

Definition rule_1 (l : list string) : list string :=
  when (Qge_bool (Pokemon.current_hp_fraction active_pokemon) (66 # 100))
       (remove_each healing_moves) l.

(** Rule 2: hazards, screens and rooms that are already up. *)
Definition rule_2 (l : list string) : list string :=
  let l := when (side_has STEALTH_ROCK opp_side_conditions)
                (remove_first "stealthrock") l in
  let l := when (3 <=? side_count SPIKES opp_side_conditions)%Z
                (remove_first "spikes") l in
  let l := when (2 <=? side_count TOXIC_SPIKES opp_side_conditions)%Z
                (remove_first "toxicspikes") l in
  let l := when (side_has STICKY_WEB opp_side_conditions)
                (remove_first "stickyweb") l in
  let l := when (side_has REFLECT my_side_conditions)
                (remove_first "reflect") l in
  let l := when (side_has LIGHT_SCREEN my_side_conditions)
                (remove_first "lightscreen") l in
  let l := when (side_has AURORA_VEIL my_side_conditions)
                (remove_first "auroraveil") l in
  let l := when (side_has TAILWIND my_side_conditions)
                (remove_first "tailwind") l in
  when (field_in TRICK_ROOM (Battle.fields battle))
       (remove_first "trickroom") l.

(** Rule 3: hazard clearing without hazards. *)
Definition hazard_removers : list string := ["rapidspin"; "mortalspin"; "defog"].

Definition my_side_hazards : bool :=
  existsb (fun c => mem_dec SideCondition_eq_dec c
                      [STEALTH_ROCK; SPIKES; TOXIC_SPIKES; STICKY_WEB])
          (dict_keys (Battle.side_conditions battle)).

Definition rule_3 (l : list string) : list string :=
  when (negb my_side_hazards)
       (fun l =>
          let l := remove_each
                     (filter (fun move => negb (String.eqb move "defog"))
                             hazard_removers) l in
          when (negb (existsb (fun n => negb (n =? 0)%Z)
                              (dict_values (Battle.opponent_side_conditions battle))))
               (remove_first "defog") l) l.

(** Rule 4: setup moves with the stats already raised. *)
Definition boost_ge (stat : string) (n : Z) : bool := (n <=? boost_of stat boosts)%Z.

Definition rule_4 (l : list string) : list string :=
  let l := when (boost_ge "atk" 2) (remove_first "swordsdance") l in
  let l := when (boost_ge "spa" 2) (remove_first "nastyplot") l in
  let l := when (boost_ge "def" 2)
                (fun l => remove_first "acidarmor" (remove_first "irondefense" l)) l in
  let l := when (boost_ge "spd" 2) (remove_first "amnesia") l in
  let l := when (boost_ge "spe" 2)
                (fun l => remove_first "rockpolish" (remove_first "agility" l)) l in
  let l := when (boost_ge "atk" 1 && boost_ge "def" 1)
                (fun l => remove_first "coil" (remove_first "bulkup" l)) l in
  let l := when (boost_ge "atk" 1 && boost_ge "spe" 1)
                (remove_first "dragondance") l in
  let l := when (boost_ge "spa" 1 && boost_ge "spd" 1)
                (remove_first "calmmind") l in
  let l := when (boost_ge "spa" 1 && boost_ge "spd" 1 && boost_ge "spe" 1)
                (remove_first "quiverdance") l in
  let l := when ((boost_ge "atk" 2 || boost_ge "spa" 2) && boost_ge "spe" 2)
                (remove_first "shellsmash") l in
  when (negb (Pokemon.has_type GHOST active_pokemon)
        && (boost_ge "atk" 1 && boost_ge "def" 1))
       (remove_first "curse") l.

(** Rule 5: locked into a single move the opponent resists. *)
Definition rule_5 (l : list string) : flow :=
  match Battle.available_moves battle with
  | [locked_move] =>
      let effectiveness := damage_multiplier current_opponent (Move.type locked_move) in
      if Qlt_bool effectiveness 1 then
        match viable_switches with
        | [] => Ret l
        | vs => Ret vs
        end
      else Cont l
  | _ => Cont l
  end.

(** Rules 6 and 7: attacks whose expected damage is zero, or at most the
    threshold. *)
Definition is_attack (move_id : string) : bool :=
  match find_move battle move_id with
  | Some move_obj => negb (category_eqb (Move.category move_obj) STATUS)
  | None => false
  end.

Definition drop_attacks_where (low : Q -> bool) (l : list string) : list string :=
  fold_left (fun l kv =>
               when (low (expected_damage (snd kv)) && is_attack (fst kv))
                    (remove_first (fst kv)) l)
            damage_map l.

Definition rule_6 (l : list string) : list string :=
  drop_attacks_where (fun d => Qeq_bool d 0) l.

Definition rule_7 (l : list string) : list string :=
  drop_attacks_where (fun d => Qle_bool d (5 # 10)) l.

(** Rule 8: one sleeping opponent at a time. *)
Definition sleep_moves : list string :=
  ["darkvoid"; "grasswhistle"; "hypnosis"; "lovelykiss"; "sing";
   "sleeppowder"; "spore"; "yawn"].

Definition is_opponent_asleep : bool :=
  existsb (fun p => status_is (Pokemon.status p) SLP)
          (dict_values (Battle.opponent_team battle)).

Definition rule_8 (l : list string) : list string :=
  when is_opponent_asleep (remove_each sleep_moves) l.

(** Rule 9: effects the opponent already carries. *)
Definition trapping_effects : list Effect :=
  [BIND; CLAMP; FIRE_SPIN; INFESTATION; SAND_TOMB; SNAP_TRAP; THUNDER_CAGE;
   WHIRLPOOL; WRAP].

Definition trapping_moves : list string :=
  ["bind"; "clamp"; "firespin"; "infestation"; "sandtomb"; "snaptrap";
   "thundercage"; "whirlpool"; "wrap"].

Definition rule_9 (l : list string) : list string :=
  let effects := Pokemon.effects current_opponent in
  let l := when (effect_in TAUNT effects) (remove_first "taunt") l in
  let l := when (effect_in ENCORE effects) (remove_first "encore") l in
  let l := when (effect_in LEECH_SEED effects) (remove_first "leechseed") l in
  when (existsb (fun effect => effect_in effect effects) trapping_effects)
       (remove_each trapping_moves) l.

(** Rule 10: the sleeping active Pokemon.  The membership test for
    ['sleeptalk'] reads the list the pipeline was called with. *)
Definition rule_10 (l : list string) : flow :=
  if status_is (Pokemon.status active_pokemon) SLP then
    if (Pokemon.status_counter active_pokemon <=? 1)%Z then
      if Str.mem "sleeptalk" legal_actions
      then Cont ("sleeptalk" :: switch_actions l)
      else Ret (switch_actions l)
    else Ret (switch_actions l)
  else Cont (remove_first "sleeptalk" l).

(** Rule 11: item swapping without an item, or into Sticky Hold. *)
Definition rule_11 (l : list string) : list string :=
  when (Str.mem "trick" l || Str.mem "switcheroo" l)
       (when (match Pokemon.item active_pokemon with None => true | Some _ => false end
              || opt_contains "sticky-hold" (Pokemon.ability current_opponent))
             (fun l => remove_first "switcheroo" (remove_first "trick" l))) l.

(** Rule 12: Wish used last turn. *)
Definition rule_12 (l : list string) : list string :=
  when (opt_is (last_move self) "wish") (remove_first "wish") l.

(** Rule 13: status moves against a statused or immune opponent. *)
Definition status_moves : list string :=
  ["glare"; "poisonpowder"; "poisongas"; "stunspore"; "thunderwave"; "toxic";
   "willowisp"; "darkvoid"; "grasswhistle"; "hypnosis"; "lovelykiss"; "sing";
   "sleeppowder"; "spore"; "yawn"].

Definition rule_13 (l : list string) : list string :=
  let l := when (match Pokemon.status current_opponent with
                 | Some _ => true | None => false end)
                (remove_each status_moves) l in
  let l := when (opp_has_type ELECTRIC && (6 <=? Battle.gen battle)%Z)
                (remove_first "thunderwave") l in
  let l := when (opp_has_type FIRE) (remove_first "willowisp") l in
  let l := when ((opp_has_type POISON || opp_has_type STEEL)
                 && negb (opt_is (Pokemon.ability active_pokemon) "corrosion"))
                (fun l => remove_first "poisonpowder" (remove_first "toxic" l)) l in
  when (opp_has_type GRASS) (remove_first "leechseed") l.

(** Rule 13.5: status moves against an immunity ability. *)
Definition possible_abilities : list string :=
  match Pokemon.ability current_opponent with
  | Some a => if truthy (Some a) then [a]
              else Pokemon.possible_abilities current_opponent
  | None => Pokemon.possible_abilities current_opponent
  end.

Definition rule_13_5 (l : list string) : list string :=
  when (match possible_abilities with [] => false | _ => true end)
       (fun l =>
          let l := when (Str.mem "overcoat" possible_abilities
                         || (opp_has_type GRASS && (6 <=? Battle.gen battle)%Z))
                        (remove_each ["poisonpowder"; "sleeppowder"; "spore"; "stunspore"])
                        l in
          let l := when (existsb (fun ability => Str.mem ability ["insomnia"; "vitalsprit"])
                                 possible_abilities)
                        (remove_each sleep_moves) l in
          let l := when (Str.mem "waterveil" possible_abilities)
                        (remove_first "willowisp") l in
          let l := when (Str.mem "limber" possible_abilities
                         || (opp_has_type ELECTRIC && (6 <=? Battle.gen battle)%Z))
                        (remove_each ["thunderwave"; "glare"; "nuzzle"]) l in
          when (Str.mem "oblivious" possible_abilities && (6 <=? Battle.gen battle)%Z)
               (remove_first "taunt") l) l.

(** Rule 14: Pain Split from the higher HP. *)
Definition rule_14 (l : list string) : list string :=
  when (Qge_bool (Pokemon.current_hp_fraction active_pokemon)
                 (Pokemon.current_hp_fraction current_opponent))
       (remove_first "painsplit") l.

(** Rule 15: the main attacking stat lowered to -2. *)
Definition count_category (c : MoveCategory) : nat :=
  List.length (filter (fun m => category_eqb (Move.category m) c)
                      (Battle.available_moves battle)).

Definition attack_too_low : bool :=
  let atk_boost := boost_of "atk" boosts in
  let spa_boost := boost_of "spa" boosts in
  let physical_moves := count_category PHYSICAL in
  let special_moves := count_category SPECIAL in
  if (special_moves <? physical_moves)%nat && (atk_boost <=? -2)%Z then true
  else if (physical_moves <? special_moves)%nat && (spa_boost <=? -2)%Z then true
  else if (physical_moves =? special_moves)%nat
          && ((atk_boost <=? -2)%Z || (spa_boost <=? -2)%Z) then true
  else false.

Definition rule_15 (l : list string) : flow :=
  if attack_too_low then
    match viable_switches with
    | [] => Ret l
    | vs => Ret vs
    end
  else Cont l.

(** Rule 16: pivoting moves with nobody left to pivot to. *)
Definition rule_16 (l : list string) : list string :=
  when (List.length (Battle.team battle) =? 1)%nat
       (remove_each ["batonpass"; "teleport"; "flipturn"; "voltswitch"]) l.

(** Rule 17: no protection move twice in a row. *)
Definition protect_moves : list string :=
  ["protect"; "detect"; "spikyshield"; "kingsshield"; "banefulbunker";
   "obstruct"; "burningbulwark"; "silktrap"].

Definition rule_17 (l : list string) : list string :=
  when (opt_in (last_move self) protect_moves) (remove_each protect_moves) l.

(** Rule 18: weather-dependent moves without their weather.  The block on
    the sun-healing moves only logs and leaves the list as it is. *)
Definition rule_18 (l : list string) : list string :=
  let w := Battle.weather battle in
  let l := when (negb (weather_in w sun)) (remove_each ["solarbeam"; "solarblade"]) l in
  let l := when (negb (weather_in w rain)) (remove_each ["electroshot"]) l in
  let l := when (negb (weather_in w [HAIL; SNOW; SNOWSCAPE]))
                (remove_each ["auroraveil"]) l in
  when (negb (weather_in w [RAINDANCE; PRIMORDIALSEA; DELTASTREAM; DESOLATELAND;
                            HAIL; SANDSTORM; SNOW; SNOWSCAPE; SUNNYDAY]))
       (remove_each ["weatherball"]) l.

(** Rule 20: Knock Off with nothing to knock off. *)
Definition rule_20 (l : list string) : list string :=
  when (negb (truthy (Pokemon.item current_opponent))
        && Qle_bool (multiplier_of "knockoff") 1)
       (remove_first "knockoff") l.

(** The status moves of the list, as rules 21 and 23 collect them. *)
Definition status_moves_in (l : list string) : list string :=
  filter (fun move_id =>
            negb (Str.startswith "switch-" move_id)
            && match find_move battle move_id with
               | Some move_obj => category_eqb (Move.category move_obj) STATUS
               | None => false
               end) l.

Definition drop_status_moves (l : list string) : list string :=
  let to_remove := status_moves_in l in
  match to_remove with
  | [] => l
  | _ => filter (fun a => negb (Str.mem a to_remove)) l
  end.

(** Rule 21: status moves into a Substitute. *)
Definition rule_21 (l : list string) : list string :=
  when (effect_in SUBSTITUTE (Pokemon.effects current_opponent))
       drop_status_moves l.

(** Rule 22: a second Substitute. *)
Definition rule_22 (l : list string) : list string :=
  when (effect_in SUBSTITUTE (Pokemon.effects active_pokemon))
       (remove_first "substitute") l.

(** Rule 23: Prankster against a Dark type. *)
Definition rule_23 (l : list string) : list string :=
  when (opt_is (Pokemon.ability active_pokemon) "prankster"
        && (7 <=? Battle.gen battle)%Z && opp_has_type DARK)
       drop_status_moves l.

(** Rule 24: a loafing Truant. *)
Definition rule_24 (l : list string) : flow :=
  if opt_is (Pokemon.ability active_pokemon) "truant"
     && Pokemon.must_recharge active_pokemon
  then
    match switch_actions l with
    | [] => Ret []
    | sw => Ret sw
    end
  else Cont l.

(** Rule 25: moves with a recharge turn. *)
Definition recharge_moves : list string :=
  ["hyperbeam"; "gigaimpact"; "rockwrecker"; "frenzyplant"; "blastburn";
   "hydrocannon"; "roaroftime"; "eternabeam"].

Definition rule_25 (l : list string) : list string :=
  remove_each recharge_moves l.

(** Rule 26, scenario 1: locked into one move by Encore. *)
Definition encore_should_force_switch (locked_move : Move.t) : bool :=
  if negb (category_eqb (Move.category locked_move) STATUS) then
    Qlt_bool (multiplier_of (Move.id locked_move)) 1
  else
    let useless_setup :=
      match Move.boosts locked_move with
      | Some [] => false
      | Some bs =>
          forallb (fun sv =>
                     negb (boost_of (fst sv) (Pokemon.boosts active_pokemon) <? 6)%Z)
                  bs
      | None => false
      end in
    let id := Move.id locked_move in
    let useless_hazard :=
      if String.eqb id "stealthrock" && side_has STEALTH_ROCK opp_side_conditions
      then true
      else if String.eqb id "spikes" && (3 <=? side_count SPIKES opp_side_conditions)%Z
      then true
      else if String.eqb id "stickyweb" && side_has STICKY_WEB opp_side_conditions
      then true
      else false in
    useless_setup || useless_hazard.

Definition rule_26_encore (l : list string) : flow :=
  match Battle.available_moves battle with
  | [locked_move] =>
      if effect_in ENCORE (Pokemon.effects active_pokemon)
         && encore_should_force_switch locked_move
      then
        match viable_switches with
        | [] => Cont l
        | vs => Ret vs
        end
      else Cont l
  | _ => Cont l
  end.

(** Rule 26, scenario 2: only attacks left under Taunt. *)
Definition rule_26_taunt (l : list string) : flow :=
  if effect_in TAUNT (Pokemon.effects active_pokemon) then
    match Battle.available_moves battle with
    | [] => Ret viable_switches
    | moves =>
        if forallb (fun m => Qlt_bool (multiplier_of (Move.id m)) 1) moves then
          match viable_switches with
          | [] => Cont l
          | vs => Ret vs
          end
        else Cont l
    end
  else Cont l.

(** Rule 27: special walls without a physical attack. *)
Definition special_walls : list string := ["blissey"; "chansey"].

Definition rule_27 (l : list string) : flow :=
  if Str.mem (Str.lower (Pokemon.species current_opponent)) special_walls
     && negb (existsb (fun move => category_eqb (Move.category move) PHYSICAL)
                      (Battle.available_moves battle))
  then
    match viable_switches with
    | [] => Cont l
    | vs => Ret vs
    end
  else Cont l.

(** Rule 29: Yawn twice in a row. *)
Definition rule_29 (l : list string) : list string :=
  when (opt_is (last_move self) "yawn") (remove_first "yawn") l.

(** Rule 30: self-KO moves outside a favourable trade. *)
Definition rule_30 (l : list string) : list string :=
  when (negb (Qlt_bool (Pokemon.current_hp_fraction active_pokemon) (34 # 100)
              && Qgt_bool (Pokemon.current_hp_fraction current_opponent) (66 # 100)))
       (remove_each ["explosion"; "selfdestruct"; "mistyexplosion"]) l.

(** Rule 33: cleric moves with nobody to cure. *)
Definition is_team_statused : bool :=
  existsb (fun pkmn => match Pokemon.status pkmn with
                       | Some _ => true | None => false end)
          (filter (fun pkmn => negb (Pokemon.fainted pkmn))
                  (dict_values (Battle.team battle))).

Definition rule_33 (l : list string) : list string :=
  when (negb is_team_statused) (remove_each ["healbell"; "aromatherapy"]) l.

(** Rule 36: Trick Room twice in a row. *)
Definition rule_36 (l : list string) : list string :=
  when (opt_is (last_move self) "trickroom") (remove_first "trickroom") l.

(** The rules that follow the two leading ones, in source order. *)
Definition rules_1_to_9 (l : list string) : flow :=
  Cont l |> edit rule_1 |> edit rule_2 |> edit rule_3 |> edit rule_4
         |> rule_5
         |> edit rule_6 |> edit rule_7 |> edit rule_8 |> edit rule_9.

Definition rules_11_to_36 (l : list string) : flow :=
  Cont l |> edit rule_11 |> edit rule_12 |> edit rule_13 |> edit rule_13_5
         |> edit rule_14
         |> rule_15
         |> edit rule_16 |> edit rule_17 |> edit rule_18 |> edit rule_20
         |> edit rule_21 |> edit rule_22 |> edit rule_23
         |> rule_24
         |> edit rule_25
         |> rule_26_encore |> rule_26_taunt
         |> rule_27
         |> edit rule_29 |> edit rule_30 |> edit rule_33 |> edit rule_36.

Definition later_rules (l : list string) : flow :=
  rules_1_to_9 l |> rule_10 |> rules_11_to_36.

(** [filter_suboptimal_moves]. *)
Definition filter_suboptimal_moves : list string :=
  let filtered_actions := legal_actions in
  let filtered_actions := rule_0 filtered_actions in
  let filtered_actions := rule_0_5 filtered_actions in
  finish (later_rules filtered_actions).

End Rules.

(** ** Fallback selector *)

(** [choose_random_move] of the battle library: its draw among the
    available orders is a function of the environment. *)
Variable choose_random_move : Battle.t -> Order.


Definition reset_and_initialize_prompt (self : Player) : Player :=
  mkPlayer (last_move self) (just_switched self) true [SystemPrompt].

Definition set_last_move (v : option string) (self : Player) : Player :=
  mkPlayer v (just_switched self) (initial_prompt_sent self) (message_history self).

Definition set_just_switched (v : bool) (self : Player) : Player :=
  mkPlayer (last_move self) v (initial_prompt_sent self) (message_history self).

Definition append_message (m : Message) (self : Player) : Player :=
  mkPlayer (last_move self) (just_switched self) (initial_prompt_sent self)
           (message_history self ++ [m]).

(** The loop of [select_best_damage_move]: the running best id and
    maximum, started at [None] and [-1]. *)
Definition best_of (damage_info : DamageMap) : option string * Q :=
  fold_left (fun acc kv =>
               if Qgt_bool (expected_damage (snd kv)) (snd acc)
               then (Some (fst kv), expected_damage (snd kv))
               else acc)
            damage_info (None, -1).

(** [select_best_damage_move]; [None] stands for the attribute error an
    id without a move would raise. *)
Definition select_best_damage_move (self : Player) (battle : Battle.t)
  : option (Order * Player) :=
  let damage_info := calculate_move_damages self battle in
  let best_move_id := fst (best_of damage_info) in
  if truthy best_move_id then
    match best_move_id with
    | Some id =>
        match find_move battle id with
        | Some best_move =>
            Some (MoveOrder best_move, set_last_move (Some (Move.id best_move)) self)
        | None => None
        end
    | None => None
    end
  else Some (choose_random_move battle, self).

(** [choose_random_switch]; [draw] is the index [random.choice] picks. *)
Definition choose_random_switch (self : Player) (battle : Battle.t) (draw : nat)
  : option (Order * Player) :=
  match Battle.available_switches battle with
  | [] => select_best_damage_move self battle
  | switches =>
      match nth_error switches (draw mod List.length switches) with
      | Some chosen_switch =>
          Some (SwitchOrder chosen_switch,
                reset_and_initialize_prompt (set_last_move None self))
      | None => None
      end
  end.

(** ** The decision of a turn: [choose_move] *)

(** [legal_moves] and [legal_switches]. *)
Definition legal_moves (battle : Battle.t) : list string :=
  map Move.id (Battle.available_moves battle).

Definition legal_switches (battle : Battle.t) : list string :=
  all_possible_switches battle.

(** The candidate list handed to the decision-maker: [legal_actions]. *)
Definition turn_candidates (self : Player) (battle : Battle.t) : list string :=
  let damage_map := calculate_move_damages self battle in
  let filtered_moves :=
    filter_suboptimal_moves self battle (legal_moves battle) damage_map in
  let filtered_switches := filter_suboptimal_switches battle (legal_switches battle) in
  if just_switched self then filtered_moves
  else filtered_moves ++ filtered_switches.

(** One pass through the body of the retry loop: the order committed on
    an accepted response, or nothing when the loop goes on. *)
Definition try_response (self : Player) (battle : Battle.t)
  (legal_actions : list string) (model_response : option string)
  : option (Order * Player) :=
  if truthy model_response then
    match model_response with
    | Some text =>
        let cleaned_response := sanitize_model_response text in
        if Str.mem cleaned_response legal_actions then
          if Str.startswith "switch-" cleaned_response then
            let pokemon_name := Str.replace "switch-" "" cleaned_response in
            match find_switch battle pokemon_name with
            | Some switch_to_use =>
                Some (SwitchOrder switch_to_use,
                      set_just_switched true
                        (set_last_move None (reset_and_initialize_prompt self)))
            | None => None
            end
          else
            match find_move battle cleaned_response with
            | Some move_to_use =>
                Some (MoveOrder move_to_use,
                      set_last_move (Some (Move.id move_to_use))
                        (append_message (AssistantReply cleaned_response) self))
            | None => None
            end
        else None
    | None => None
    end
  else None.

(** [for i in range(max_retries)] followed by the fallback; [query_ollama]
    answers the attempt numbered [i]. *)
Fixpoint retry_loop (self : Player) (battle : Battle.t)
  (legal_actions : list string) (query_ollama : nat -> option string)
  (retries i : nat) : option (Order * Player) :=
  match retries with
  | O => select_best_damage_move self battle
  | S retries' =>
      match try_response self battle legal_actions (query_ollama i) with
      | Some committed => Some committed
      | None => retry_loop self battle legal_actions query_ollama retries' (S i)
      end
  end.

Definition max_retries : nat := 3.


End Engine.

(** ** Concrete data for evaluation *)

Module Samples.

(** The type chart of generation 6 and later; the two special types are
    neutral. *)
Definition chart (atk def : PokemonType) : Q :=
  let row (se nve immune : list PokemonType) :=
    if type_in def immune then 0
    else if type_in def se then 2
    else if type_in def nve then 1 # 2
    else 1 in
  match atk with
  | NORMAL => row [] [ROCK; STEEL] [GHOST]
  | FIRE => row [GRASS; ICE; BUG; STEEL] [FIRE; WATER; ROCK; DRAGON] []
  | WATER => row [FIRE; GROUND; ROCK] [WATER; GRASS; DRAGON] []
  | ELECTRIC => row [WATER; FLYING] [ELECTRIC; GRASS; DRAGON] [GROUND]
  | GRASS => row [WATER; GROUND; ROCK]
                 [FIRE; GRASS; POISON; FLYING; BUG; DRAGON; STEEL] []
  | ICE => row [GRASS; GROUND; FLYING; DRAGON] [FIRE; WATER; ICE; STEEL] []
  | FIGHTING => row [NORMAL; ICE; ROCK; DARK; STEEL]
                    [POISON; FLYING; PSYCHIC; BUG; FAIRY] [GHOST]
  | POISON => row [GRASS; FAIRY] [POISON; GROUND; ROCK; GHOST] [STEEL]
  | GROUND => row [FIRE; ELECTRIC; POISON; ROCK; STEEL] [GRASS; BUG] [FLYING]
  | FLYING => row [GRASS; FIGHTING; BUG] [ELECTRIC; ROCK; STEEL] []
  | PSYCHIC => row [FIGHTING; POISON] [PSYCHIC; STEEL] [DARK]
  | BUG => row [GRASS; PSYCHIC; DARK]
               [FIRE; FIGHTING; POISON; FLYING; GHOST; STEEL; FAIRY] []
  | ROCK => row [FIRE; ICE; FLYING; BUG] [FIGHTING; GROUND; STEEL] []
  | GHOST => row [PSYCHIC; GHOST] [DARK] [NORMAL]
  | DRAGON => row [DRAGON] [STEEL] [FAIRY]
  | DARK => row [PSYCHIC; GHOST] [FIGHTING; DARK; FAIRY] []
  | STEEL => row [ICE; ROCK; FAIRY] [FIRE; WATER; ELECTRIC; STEEL] []
  | FAIRY => row [FIGHTING; DRAGON; DARK] [FIRE; POISON; STEEL] []
  | THREE_QUESTION_MARKS | STELLAR => 1
  end.

(** A damaging or status move with the usual defaults. *)
Definition move (id : string) (power : Z) (ty : PokemonType)
  (cat : MoveCategory) : Move.t :=
  Move.mk id power ty cat 1 0 0 [] None 0.

(** A healthy Pokemon of one or two types, its ability known or not. *)
Definition pokemon (species : string) (t1 : PokemonType)
  (t2 : option PokemonType) (ability : option string)
  (possible : list string) (speed : Z) : Pokemon.t :=
  Pokemon.mk species 1 None 0 ability possible None t1 t2 [] false false []
             speed 50 [] 1.

(** The same Pokemon with a status and its counter. *)
Definition with_status (s : Status) (counter : Z) (p : Pokemon.t) : Pokemon.t :=
  Pokemon.mk (Pokemon.species p) (Pokemon.current_hp_fraction p) (Some s) counter
             (Pokemon.ability p) (Pokemon.possible_abilities p) (Pokemon.item p)
             (Pokemon.type_1 p) (Pokemon.type_2 p) (Pokemon.effects p)
             (Pokemon.must_recharge p) (Pokemon.fainted p) (Pokemon.boosts p)
             (Pokemon.stats_spe p) (Pokemon.weight p) (Pokemon.moves p)
             (Pokemon.turn_count p).

(** A generation 9 battle on turn 3 with a clear field. *)
Definition battle (active opponent : Pokemon.t) (moves : list Move.t)
  (switches : list Pokemon.t) : Battle.t :=
  Battle.mk 9 3 active opponent moves switches None [] [] []
            (("active", active) :: map (fun p => (Pokemon.species p, p)) switches)
            [("opponent", opponent)].

Definition fresh_player : Player := mkPlayer None false false [].

Definition first_order (o : Order) (_ : Battle.t) : Order := o.

Definition blastoise : Pokemon.t :=
  pokemon "Blastoise" WATER None (Some "torrent") ["torrent"; "raindish"] 78.

Definition rhyperior : Pokemon.t :=
  pokemon "Rhyperior" GROUND (Some ROCK) (Some "solidrock")
          ["lightningrod"; "solidrock"; "reckless"] 40.

Definition surf : Move.t := move "surf" 90 WATER SPECIAL.

(** Blastoise facing a Rhyperior whose Solid Rock is known. *)
Definition surf_into_solidrock : Battle.t :=
  battle blastoise rhyperior [surf; move "protect" 0 NORMAL STATUS] [].

Definition charizard : Pokemon.t :=
  pokemon "Charizard" FIRE (Some FLYING) (Some "blaze") ["blaze"; "solarpower"] 100.

Definition flamethrower : Move.t := move "flamethrower" 90 FIRE SPECIAL.

(** A defender whose ability is not revealed and whose only possible
    ability, Dry Skin, raises Fire damage. *)
Definition dryskin_only : Pokemon.t :=
  pokemon "Toxicroak" POISON (Some FIGHTING) None ["dryskin"] 85.

Definition fire_into_dryskin : Battle.t :=
  battle charizard dryskin_only [flamethrower] [].

(** A defender with an unrevealed ability among three. *)
Definition jynx : Pokemon.t :=
  pokemon "Jynx" ICE (Some PSYCHIC) None ["oblivious"; "forewarn"; "dryskin"] 95.

Definition surf_into_jynx : Battle.t :=
  battle blastoise jynx [surf] [].

Definition snorlax : Pokemon.t :=
  pokemon "Snorlax" NORMAL None (Some "thickfat") ["immunity"; "thickfat"; "gluttony"] 30.

(** Return and Heavy Slam as the move data list them: base power 0, the
    real power being computed at use. *)
Definition return_move : Move.t := move "return" 0 NORMAL PHYSICAL.
Definition heavyslam : Move.t := move "heavyslam" 0 STEEL PHYSICAL.

(** The same Pokemon with its weight in kilograms; 0 is an unknown
    weight. *)
Definition with_weight (w : Q) (p : Pokemon.t) : Pokemon.t :=
  Pokemon.mk (Pokemon.species p) (Pokemon.current_hp_fraction p) (Pokemon.status p)
             (Pokemon.status_counter p) (Pokemon.ability p)
             (Pokemon.possible_abilities p) (Pokemon.item p)
             (Pokemon.type_1 p) (Pokemon.type_2 p) (Pokemon.effects p)
             (Pokemon.must_recharge p) (Pokemon.fainted p) (Pokemon.boosts p)
             (Pokemon.stats_spe p) w (Pokemon.moves p) (Pokemon.turn_count p).

Definition snorlax_vs_blastoise : Battle.t :=
  battle (with_weight 460 snorlax) (with_weight (855 # 10) blastoise)
         [return_move; heavyslam] [].

(** The same matchup with the opponent's weight unknown. *)
Definition snorlax_vs_unweighed : Battle.t :=
  battle (with_weight 460 snorlax) (with_weight 0 blastoise) [heavyslam] [].

Definition starmie : Pokemon.t :=
  pokemon "Starmie" WATER (Some PSYCHIC) (Some "analytic")
          ["illuminate"; "naturalcure"; "analytic"] 115.

Definition psychic : Move.t := move "psychic" 90 PSYCHIC SPECIAL.

Definition starmie_vs_snorlax : Battle.t :=
  battle starmie snorlax [psychic; surf] [].

(** The player after a turn on which it used the given move. *)
Definition player_after (id : string) : Player :=
  mkPlayer (Some id) false true [SystemPrompt].

Definition venusaur : Pokemon.t :=
  pokemon "Venusaur" GRASS (Some POISON) (Some "overgrow") ["overgrow"; "chlorophyll"] 80.

Definition arcanine : Pokemon.t :=
  pokemon "Arcanine" FIRE None (Some "intimidate") ["intimidate"; "flashfire"] 95.

Definition golem : Pokemon.t :=
  pokemon "Golem" ROCK (Some GROUND) (Some "sturdy") ["rockhead"; "sturdy"] 45.

(** Snorlax facing a Blastoise that has revealed nothing, with Venusaur
    in reserve, and the same with Arcanine and Golem in reserve, both weak
    to Water. *)
Definition reserve_venusaur : Battle.t :=
  battle snorlax blastoise [move "bodyslam" 85 NORMAL PHYSICAL] [venusaur; arcanine].

Definition reserve_all_weak : Battle.t :=
  battle snorlax blastoise [move "bodyslam" 85 NORMAL PHYSICAL] [arcanine; golem].

Definition recover : Move.t := move "recover" 0 NORMAL STATUS.

(** Starmie with status moves only, and a switch available. *)
Definition status_moves_only : Battle.t :=
  battle starmie snorlax [recover; move "reflect" 0 PSYCHIC STATUS] [venusaur].

(** Starmie with two attacks of equal expected damage and a weaker one
    listed first. *)
Definition equal_attacks : Battle.t :=
  battle starmie snorlax
         [move "swift" 60 NORMAL SPECIAL; surf; move "hydropump" 90 WATER SPECIAL]
         [venusaur].

Definition porygon2 : Pokemon.t :=
  pokemon "Porygon2" NORMAL None (Some "download") ["trace"; "download"; "analytic"] 60.

(** Starmie with Porygon2 as its only reserve against a Snorlax that has
    revealed nothing; Starmie switched in on the turn before, so the
    candidates are its moves. *)
Definition porygon2_in_reserve : Battle.t :=
  battle starmie snorlax [surf; psychic] [porygon2].

(** A decision-maker that names Porygon2 at every attempt, and one that
    answers with prose twice before it names a move. *)
Definition always_porygon2 (_ : nat) : option string := Some "switch-porygon2".

Definition third_time_lucky (i : nat) : option string :=
  match i with
  | 0%nat => Some "I would use Thunderbolt here."
  | 1%nat => None
  | _ => Some " Surf
"
  end.

Definition tauros : Pokemon.t :=
  pokemon "Tauros" NORMAL None (Some "intimidate") ["intimidate"; "angerpoint"] 110.

Definition machamp : Pokemon.t :=
  pokemon "Machamp" FIGHTING None None ["guts"; "noguard"; "steadfast"] 55.

Definition hyperbeam : Move.t := move "hyperbeam" 150 NORMAL SPECIAL.

(** Tauros, faster than a Machamp that has revealed nothing, with Hyper
    Beam as its only move of expected damage 2 or more. *)
Definition tauros_vs_machamp : Battle.t :=
  battle tauros machamp [hyperbeam; move "bodyslam" 85 NORMAL PHYSICAL] [venusaur].

Definition sleeptalk : Move.t := move "sleeptalk" 0 NORMAL STATUS.

(** Snorlax asleep with one turn left, Sleep Talk among its moves, and
    Venusaur and Arcanine in reserve against a Blastoise. *)
Definition sleeping_snorlax : Battle.t :=
  battle (with_status SLP 1 snorlax) blastoise
         [sleeptalk; move "bodyslam" 85 NORMAL PHYSICAL] [venusaur; arcanine].

End Samples.

(** ** Predicates of the statements *)

(** The multipliers a type chart produces on one or two types. *)
Definition in_multiplier_set (q : Q) : Prop :=
  q == 0 \/ q == 1 # 4 \/ q == 1 # 2 \/ q == 1 \/ q == 2 \/ q == 4.

(** A chart whose entries are the four standard ones. *)
Definition chart_standard (chart : PokemonType -> PokemonType -> Q) : Prop :=
  forall atk def,
    chart atk def == 0 \/ chart atk def == 1 # 2 \/ chart atk def == 1
    \/ chart atk def == 2.

(** The ranges of the move data: base power and accuracy are not
    negative. *)
Definition moves_in_range (battle : Battle.t) : Prop :=
  forall move, In move (Battle.available_moves battle) ->
    (0 <= Move.base_power move)%Z /\ 0 <= Move.accuracy move.

(** The damage map claimed for a snapshot: one entry per available move
    id, each with a non-negative expected damage and a multiplier among
    the chart's products. *)
Definition damage_map_as_claimed (battle : Battle.t) (damage_info : DamageMap)
  : Prop :=
  NoDup (dict_keys damage_info)
  /\ (forall id, In id (dict_keys damage_info) <-> In id (legal_moves battle))
  /\ (forall id info, In (id, info) damage_info ->
        0 <= expected_damage info /\ in_multiplier_set (multiplier info)).

(** The abilities that make their bearer immune to a type, as
    [get_defensive_modifier] lists them. *)
Definition grants_immunity (ability : string) (move_type : PokemonType) : bool :=
  (String.eqb ability "dryskin" && type_eqb move_type WATER)
  || (String.eqb ability "flashfire" && type_eqb move_type FIRE)
  || (String.eqb ability "levitate" && type_eqb move_type GROUND)
  || (Str.mem ability ["lightningrod"; "motordrive"; "voltabsorb"]
      && type_eqb move_type ELECTRIC)
  || (String.eqb ability "sapsipper" && type_eqb move_type GRASS)
  || (Str.mem ability ["stormdrain"; "waterabsorb"] && type_eqb move_type WATER).

(** [q] is the least element of the non-empty collection [qs]. *)
Definition is_minimum (q : Q) (qs : list Q) : Prop :=
  (exists x, In x qs /\ q == x) /\ (forall x, In x qs -> q <= x).

(** The modifier claimed for the defender's ability: the known ability's
    own, or else the minimum over the possible abilities. *)
Definition defensive_modifier_as_claimed
  (chart : PokemonType -> PokemonType -> Q) (battle : Battle.t)
  (move : Move.t) : Prop :=
  let opponent := Battle.opponent_active_pokemon battle in
  let get :=
    get_defensive_modifier move (snd (resolve_power_type battle move))
      (damage_multiplier chart opponent (Move.type move)) opponent in
  match Pokemon.ability opponent with
  | Some a =>
      truthy (Some a) = true -> defensive_modifier chart battle move == get a
  | None =>
      is_minimum (defensive_modifier chart battle move)
                 (map get (Pokemon.possible_abilities opponent))
  end.

(** The damage map is determined by the snapshot alone. *)
Definition snapshot_determines_damage_map
  (chart : PokemonType -> PokemonType -> Q) (battle : Battle.t) : Prop :=
  forall self1 self2 : Player,
    calculate_move_damages chart self1 battle
    = calculate_move_damages chart self2 battle.

(** The ids of a list in first-seen order, repetitions dropped. *)
Definition first_seen (ids : list string) : list string :=
  fold_left (fun acc id => if Str.mem id acc then acc else (acc ++ [id])%list)
            ids [].

(** Every available move has a non-empty id. *)
Definition moves_named (battle : Battle.t) : Prop :=
  forall move, In move (Battle.available_moves battle) -> Move.id move <> "".

(** No entry of the damage map is a damaging one. *)
Definition no_damaging_move (damage_info : DamageMap) : Prop :=
  forall id info, In (id, info) damage_info -> expected_damage info == 0.

(** The fallback claimed for a snapshot without damaging moves: a switch
    to one of the legal switches. *)
Definition fallback_switches_without_damage
  (chart : PokemonType -> PokemonType -> Q) (random_move : Battle.t -> Order)
  (self : Player) (battle : Battle.t) : Prop :=
  no_damaging_move (calculate_move_damages chart self battle) ->
  Battle.available_switches battle <> [] ->
  exists pokemon self',
    select_best_damage_move chart random_move self battle
    = Some (SwitchOrder pokemon, self')
    /\ In pokemon (Battle.available_switches battle).

(** A stage of the pipeline stays within its input: a list handed on has
    no more occurrences of any action than the input, and a returned list
    holds entries of the input or actions of the set [extra]. *)
Definition flow_within (extra : string -> Prop) (l : list string) (f : flow)
  : Prop :=
  match f with
  | Cont l' =>
      forall x, (count_occ string_dec l' x <= count_occ string_dec l x)%nat
  | Ret r => forall x, In x r -> In x l \/ extra x
  end.

(** The kill-securing rule fires: the opponent is below half HP, the
    active side moves first and some move reaches the lethal threshold. *)
Definition kill_securing_fires (battle : Battle.t) (damage_info : DamageMap)
  : bool :=
  Qlt_bool (Pokemon.current_hp_fraction (Battle.opponent_active_pokemon battle))
           (5 # 10)
  && determine_who_moves_first battle
  && match moves_reaching (25 # 10) damage_info with [] => false | _ => true end.

(** The overrides as claimed: the set a fired override produces is the
    result of the pipeline. *)
Definition override_is_final (chart : PokemonType -> PokemonType -> Q)
  (self : Player) (battle : Battle.t) (legal_actions : list string)
  (damage_info : DamageMap) : Prop :=
  let result :=
    filter_suboptimal_moves chart self battle legal_actions damage_info in
  let after_peril := mortal_peril_alert chart battle legal_actions damage_info in
  (kill_securing_fires battle damage_info = true ->
   result = step_on_throat battle after_peril damage_info)
  /\ (has_ko_threat chart battle = true ->
      kill_securing_fires battle damage_info = false ->
      result = after_peril).

(** The active Pokemon is asleep. *)
Definition asleep (battle : Battle.t) : bool :=
  status_is (Pokemon.status (Battle.active_pokemon battle)) SLP.

(** Rule 5 stands and fights: the single available move is resisted and
    there is nobody to switch to. *)
Definition locked_without_switch (chart : PokemonType -> PokemonType -> Q)
  (battle : Battle.t) : bool :=
  match Battle.available_moves battle with
  | [locked_move] =>
      Qlt_bool (damage_multiplier chart (Battle.opponent_active_pokemon battle)
                                  (Move.type locked_move)) 1
      && match Battle.available_switches battle with [] => true | _ => false end
  | _ => false
  end.

(** The candidates claimed around sleep: Sleep Talk plus all legal
    switches for a sleeper with one turn left that has the move; switches
    only for any other sleeper; no Sleep Talk for a waking Pokemon. *)
Definition sleep_candidates_as_claimed (chart : PokemonType -> PokemonType -> Q)
  (self : Player) (battle : Battle.t) : Prop :=
  let candidates := turn_candidates chart self battle in
  let counter := Pokemon.status_counter (Battle.active_pokemon battle) in
  let has_sleeptalk := In "sleeptalk" (legal_moves battle) in
  (asleep battle = true -> counter = 1%Z -> has_sleeptalk ->
   candidates = "sleeptalk" :: legal_switches battle)
  /\ (asleep battle = true -> (1 < counter)%Z \/ ~ has_sleeptalk ->
      forall x, In x candidates -> Str.startswith "switch-" x = true)
  /\ (asleep battle = false -> ~ In "sleeptalk" candidates).

(** ** The forced switch: [handle_switch] *)

(** [handle_switch]; [model_response] is the answer of the single
    [query_ollama] call and [draw] the index of the random fallback.
    [None] stands for the [StopIteration] an accepted name without a
    Pokemon would raise. *)
Definition handle_switch (chart : PokemonType -> PokemonType -> Q)
  (choose_random_move : Battle.t -> Order) (self : Player) (battle : Battle.t)
  (model_response : option string) (draw : nat) : option (Order * Player) :=
  let available_switches_names :=
    filter_suboptimal_switches chart battle
      (map species_key (Battle.available_switches battle)) in
  match available_switches_names with
  | [] => Some (choose_random_move battle, self)
  | _ =>
      let self := reset_and_initialize_prompt self in
      let self := append_message (TurnPrompt available_switches_names []) self in
      let randomly := choose_random_switch chart choose_random_move self battle draw in
      if truthy model_response then
        match model_response with
        | Some text =>
            let cleaned_response := sanitize_model_response text in
            if Str.mem cleaned_response available_switches_names then
              match find_switch battle cleaned_response with
              | Some switch_to_use =>
                  Some (SwitchOrder switch_to_use,
                        set_just_switched true (set_last_move None self))
              | None => None
              end
            else randomly
        | None => randomly
        end
      else randomly
  end.

(** ** Predicates on the state of the pipeline *)

(** The action occurs at most once in the list handed on, and not at all
    in a returned list. *)
Definition flow_at_most_once (id : string) (f : flow) : Prop :=
  match f with
  | Cont l => (count_occ string_dec l id <= 1)%nat
  | Ret r => ~ In id r
  end.

(** ** More sample battles *)

Module Scenes.

(** Venusaur with Stealth Rock already up on the opponent's side. *)
Definition rocks_up : Battle.t :=
  Battle.mk 9 5 Samples.venusaur Samples.blastoise
            [Samples.move "stealthrock" 0 ROCK STATUS;
             Samples.move "gigadrain" 75 GRASS SPECIAL]
            [Samples.snorlax] None [] [] [(STEALTH_ROCK, 1%Z)]
            [("venusaur", Samples.venusaur); ("snorlax", Samples.snorlax)]
            [("blastoise", Samples.blastoise)].

(** Blastoise with Protect among its moves and Venusaur in reserve. *)
Definition protect_again : Battle.t :=
  Samples.battle Samples.blastoise Samples.rhyperior
                 [Samples.surf; Samples.move "protect" 0 NORMAL STATUS]
                 [Samples.venusaur].

(** Venusaur facing a paralysed Blastoise. *)
Definition opponent_paralysed : Battle.t :=
  Samples.battle Samples.venusaur (Samples.with_status PAR 0 Samples.blastoise)
                 [Samples.move "toxic" 0 POISON STATUS;
                  Samples.move "gigadrain" 75 GRASS SPECIAL]
                 [Samples.arcanine].

(** Snorlax with a resisted Ice Punch against Blastoise. *)
Definition icepunch : Move.t := Samples.move "icepunch" 75 ICE PHYSICAL.

Definition resisted_attack : Battle.t :=
  Samples.battle Samples.snorlax Samples.blastoise
                 [Samples.move "bodyslam" 85 NORMAL PHYSICAL; icepunch]
                 [Samples.venusaur].



End Scenes.

(** * Properties *)

(** ** Dictionaries keyed by strings *)

Section DictFacts.
Context {V : Type}.
Implicit Types (d : list (string * V)) (k : string) (v : V).

Lemma dict_set_key_in k v d x :
  In x (dict_keys (dict_set String.eqb k v d)) <-> x = k \/ In x (dict_keys d).
Proof.
  induction d as [|[k' v'] d IH]; simpl.
  - intuition.
  - destruct (String.eqb_spec k k') as [->|Hne]; simpl.
    + intuition.
    + rewrite IH. intuition.
Qed.

Lemma dict_set_keys_nodup k v d :
  NoDup (dict_keys d) -> NoDup (dict_keys (dict_set String.eqb k v d)).
Proof.
  induction d as [|[k' v'] d IH]; simpl; intros Hnd.
  - constructor; [intros []|constructor].
  - inversion Hnd as [|? ? Hnotin Hnd']; subst.
    destruct (String.eqb_spec k k') as [->|Hne]; simpl.
    + constructor; assumption.
    + constructor; [|auto].
      rewrite dict_set_key_in. intros [Heq|Hin]; [congruence|contradiction].
Qed.

Lemma dict_set_entry_in k v d k0 v0 :
  In (k0, v0) (dict_set String.eqb k v d) ->
  (k0 = k /\ v0 = v) \/ In (k0, v0) d.
Proof.
  induction d as [|[k' v'] d IH]; simpl.
  - intros [Heq|[]]. inversion Heq. auto.
  - destruct (String.eqb_spec k k') as [->|Hne]; simpl.
    + intros [Heq|Hin]; [inversion Heq; auto|auto].
    + intros [Heq|Hin]; [auto|]. destruct (IH Hin); auto.
Qed.

Lemma assign_all_key_in {A} (key : A -> string) (val : A -> V) xs :
  forall d x,
    In x (dict_keys (assign_all key val xs d)) <->
    In x (map key xs) \/ In x (dict_keys d).
Proof.
  induction xs as [|a xs IH]; intros d x; simpl.
  - intuition.
  - unfold assign_all in *. simpl. rewrite IH, dict_set_key_in. intuition.
Qed.

Lemma assign_all_nodup {A} (key : A -> string) (val : A -> V) xs :
  forall d, NoDup (dict_keys d) -> NoDup (dict_keys (assign_all key val xs d)).
Proof.
  induction xs as [|a xs IH]; intros d Hnd; simpl; [assumption|].
  apply IH, dict_set_keys_nodup, Hnd.
Qed.

Lemma assign_all_entry_in {A} (key : A -> string) (val : A -> V) xs :
  forall d k0 v0,
    In (k0, v0) (assign_all key val xs d) ->
    (exists a, In a xs /\ k0 = key a /\ v0 = val a) \/ In (k0, v0) d.
Proof.
  induction xs as [|a xs IH]; intros d k0 v0; simpl; [auto|].
  intros Hin. apply IH in Hin. destruct Hin as [[a' [Ha' Heq]]|Hin].
  - left. exists a'. auto.
  - apply dict_set_entry_in in Hin. destruct Hin as [[-> ->]|Hin]; [|auto].
    left. exists a. auto.
Qed.
End DictFacts.

Section Properties.

Variable type_chart : PokemonType -> PokemonType -> Q.

Lemma calculate_move_damages_assign self battle :
  calculate_move_damages type_chart self battle =
  assign_all Move.id (move_entry type_chart self battle)
             (Battle.available_moves battle) [].
Proof.
  unfold calculate_move_damages, assign_all.
  destruct (Battle.available_moves battle); reflexivity.
Qed.

(** ** Ranges of the damage estimate *)

Lemma Qlt_bool_lt x y : Qlt_bool x y = true <-> x < y.
Proof.
  unfold Qlt_bool. rewrite negb_true_iff. split.
  - intros H. apply Qnot_le_lt. intros Hle.
    apply Qle_bool_iff in Hle. congruence.
  - intros H. destruct (Qle_bool y x) eqn:E; [|reflexivity].
    apply Qle_bool_iff in E. apply Qlt_not_le in H. contradiction.
Qed.

Lemma Qlt_bool_ge x y : Qlt_bool x y = false <-> y <= x.
Proof.
  unfold Qlt_bool. rewrite negb_false_iff. apply Qle_bool_iff.
Qed.

Lemma scale_nonneg c k x : 0 <= k -> 0 <= x -> 0 <= scale c k x.
Proof.
  intros Hk Hx. unfold scale. destruct c; [|assumption].
  apply Qmult_le_0_compat; assumption.
Qed.

Lemma scale_pos c k x : 0 < k -> 0 < x -> 0 < scale c k x.
Proof.
  intros Hk Hx. unfold scale. destruct c; [|assumption].
  apply Qmult_lt_0_compat; assumption.
Qed.

Lemma chart_standard_nonneg :
  chart_standard type_chart -> forall a d, 0 <= type_chart a d.
Proof.
  intros H a d. destruct (H a d) as [E|[E|[E|E]]]; rewrite E; lra.
Qed.

Lemma type_damage_multiplier_nonneg a t1 t2 :
  chart_standard type_chart -> 0 <= type_damage_multiplier type_chart a t1 t2.
Proof.
  intros H. unfold type_damage_multiplier.
  apply Qmult_le_0_compat; [apply chart_standard_nonneg, H|].
  destruct t2; [apply chart_standard_nonneg, H|lra].
Qed.

Lemma type_damage_multiplier_in_set a t1 t2 :
  chart_standard type_chart ->
  in_multiplier_set (type_damage_multiplier type_chart a t1 t2).
Proof.
  intros H. unfold type_damage_multiplier, in_multiplier_set.
  destruct (H a t1) as [E|[E|[E|E]]]; rewrite E;
    (destruct t2 as [t2|];
     [destruct (H a t2) as [F|[F|[F|F]]]; rewrite F|]); lra.
Qed.

Lemma get_defensive_modifier_nonneg move ty e opp a :
  0 <= get_defensive_modifier move ty e opp a.
Proof.
  unfold get_defensive_modifier.
  repeat match goal with
         | |- 0 <= (if ?c then 0 else _) => destruct c; [lra|]
         end.
  repeat (apply scale_nonneg; [lra|]). lra.
Qed.

Lemma worst_case_modifier_nonneg f l :
  (forall a, 0 <= f a) -> 0 <= worst_case_modifier f l.
Proof.
  intros Hf. unfold worst_case_modifier.
  assert (H : forall w, 0 <= w ->
            0 <= fold_left (fun worst a =>
                              if Qlt_bool (f a) worst then f a else worst) l w).
  { induction l as [|a l IH]; intros w Hw; simpl; [assumption|].
    apply IH. destruct (Qlt_bool (f a) w); auto. }
  apply H. lra.
Qed.

Lemma defensive_modifier_nonneg battle move :
  0 <= defensive_modifier type_chart battle move.
Proof.
  unfold defensive_modifier.
  destruct (Pokemon.ability _) as [a|];
    [destruct (truthy (Some a))|];
    first [apply get_defensive_modifier_nonneg
          |apply worst_case_modifier_nonneg; intros;
           apply get_defensive_modifier_nonneg].
Qed.

Lemma move_effectiveness_nonneg battle move :
  chart_standard type_chart -> 0 <= move_effectiveness type_chart battle move.
Proof.
  intros H. unfold move_effectiveness, defended_effectiveness.
  apply scale_nonneg; [lra|].
  apply Qmult_le_0_compat;
    [apply type_damage_multiplier_nonneg, H|apply defensive_modifier_nonneg].
Qed.

Lemma ability_power_boost_nonneg self battle move ty power :
  0 <= power -> 0 <= ability_power_boost self battle move ty power.
Proof.
  intros Hp. unfold ability_power_boost.
  repeat match goal with
         | |- 0 <= (if ?c then _ else _) =>
             destruct c; [apply Qmult_le_0_compat; [assumption|lra]|]
         end.
  assumption.
Qed.

Lemma weather_terrain_power_nonneg battle ty power :
  0 <= power -> 0 <= weather_terrain_power battle ty power.
Proof.
  intros Hp. unfold weather_terrain_power.
  repeat (apply scale_nonneg; [lra|]). assumption.
Qed.

Lemma damaging_power_nonneg self battle move ty is_stab :
  (0 <= Move.base_power move)%Z ->
  0 <= damaging_power self battle move ty is_stab.
Proof.
  intros Hb. unfold damaging_power.
  assert (H0 : 0 <= inject_Z (Move.base_power move)).
  { change 0 with (inject_Z 0). rewrite <- Zle_Qle. assumption. }
  apply weather_terrain_power_nonneg, ability_power_boost_nonneg.
  destruct (_ && _); [apply Qmult_le_0_compat; [assumption|lra]|].
  destruct is_stab; [apply Qmult_le_0_compat; [assumption|lra]|assumption].
Qed.

Lemma final_modifier_nonneg battle move : 0 <= final_modifier battle move.
Proof.
  unfold final_modifier.
  repeat (apply scale_nonneg; [first [lra|discriminate]|]). lra.
Qed.

Lemma get_crit_chance_nonneg battle move pokemon :
  0 <= get_crit_chance battle move pokemon.
Proof.
  unfold get_crit_chance.
  repeat match goal with
         | |- 0 <= (if ?c then _ else _) => destruct c
         | |- 0 <= match ?z with 0%Z => _ | Zpos _ => _ | Zneg _ => _ end =>
             destruct z
         | |- 0 <= match ?p with xH => _ | xO _ => _ | xI _ => _ end =>
             destruct p
         end; discriminate.
Qed.

Lemma get_crit_damage_multiplier_ge_1 battle pokemon :
  1 <= get_crit_damage_multiplier battle pokemon.
Proof.
  unfold get_crit_damage_multiplier.
  destruct (opt_is _ _), (6 <=? _)%Z; discriminate.
Qed.

Lemma freezedry_effectiveness_in_set opponent :
  chart_standard type_chart ->
  in_multiplier_set (freezedry_effectiveness type_chart opponent).
Proof.
  intros H. unfold freezedry_effectiveness, Pokemon.types, in_multiplier_set.
  cbn [fold_left]. unfold type_damage_multiplier.
  pose proof (H (Pokemon.type_1 opponent) ICE) as E.
  destruct (Pokemon.type_2 opponent) as [t2|]; cbv beta iota.
  - pose proof (H t2 ICE) as F.
    destruct (type_eqb (Pokemon.type_1 opponent) WATER), (type_eqb t2 WATER);
      destruct E as [E|[E|[E|E]]]; destruct F as [F|[F|[F|F]]];
      try rewrite E; try rewrite F; lra.
  - destruct (type_eqb (Pokemon.type_1 opponent) WATER);
      destruct E as [E|[E|[E|E]]]; try rewrite E; lra.
Qed.

Lemma in_multiplier_set_nonneg q : in_multiplier_set q -> 0 <= q.
Proof.
  unfold in_multiplier_set. intros [E|[E|[E|[E|[E|E]]]]]; rewrite E; lra.
Qed.

(** The two properties of an entry that hold for every move in range. *)
Lemma move_entry_nonneg self battle move :
  chart_standard type_chart ->
  (0 <= Move.base_power move)%Z -> 0 <= Move.accuracy move ->
  0 <= expected_damage (move_entry type_chart self battle move)
  /\ 0 <= multiplier (move_entry type_chart self battle move).
Proof.
  intros Hc Hb Ha. unfold move_entry.
  destruct (_ || _); cbn [expected_damage multiplier].
  - split; [lra|apply move_effectiveness_nonneg, Hc].
  - assert (He : 0 <= (if String.eqb (Move.id move) "freezedry"
                       then freezedry_effectiveness type_chart
                              (Battle.opponent_active_pokemon battle)
                       else move_effectiveness type_chart battle move)).
    { destruct (String.eqb _ _).
      - apply in_multiplier_set_nonneg, freezedry_effectiveness_in_set, Hc.
      - apply move_effectiveness_nonneg, Hc. }
    split; [|exact He].
    repeat apply Qmult_le_0_compat; try assumption.
    + discriminate.
    + apply damaging_power_nonneg, Hb.
    + apply final_modifier_nonneg.
    + pose proof (get_crit_chance_nonneg battle move (Battle.active_pokemon battle)).
      pose proof (get_crit_damage_multiplier_ge_1 battle (Battle.active_pokemon battle)).
      assert (0 <= get_crit_chance battle move (Battle.active_pokemon battle)
                   * (get_crit_damage_multiplier battle (Battle.active_pokemon battle) - 1)).
      { apply Qmult_le_0_compat; lra. }
      lra.
Qed.

Lemma move_effectiveness_in_set battle move :
  chart_standard type_chart ->
  defensive_modifier type_chart battle move == 0
  \/ defensive_modifier type_chart battle move == 1 ->
  in_multiplier_set (move_effectiveness type_chart battle move).
Proof.
  intros Hc Hd. unfold move_effectiveness, defended_effectiveness, damage_multiplier.
  pose proof (type_damage_multiplier_in_set (Move.type move)
                (Pokemon.type_1 (Battle.opponent_active_pokemon battle))
                (Pokemon.type_2 (Battle.opponent_active_pokemon battle)) Hc) as Hraw.
  set (raw := type_damage_multiplier _ _ _ _) in *.
  set (dm := defensive_modifier _ _ _) in *.
  assert (He : in_multiplier_set (raw * dm)).
  { unfold in_multiplier_set in *.
    destruct Hd as [E|E]; rewrite E; [left; lra|].
    destruct Hraw as [F|[F|[F|[F|[F|F]]]]]; rewrite F; lra. }
  unfold scale. destruct (_ && _) eqn:Hcond; [|exact He].
  apply andb_true_iff in Hcond. destruct Hcond as [_ Hlt].
  apply Qlt_bool_lt in Hlt. unfold in_multiplier_set in *.
  destruct He as [F|[F|[F|[F|[F|F]]]]]; rewrite F in *; lra.
Qed.

(** The shape of the damage map and the ranges of its entries. *)
Lemma damage_map_shape self battle :
  chart_standard type_chart ->
  moves_in_range battle ->
  let damage_info := calculate_move_damages type_chart self battle in
  NoDup (dict_keys damage_info)
  /\ (forall id, In id (dict_keys damage_info) <-> In id (legal_moves battle))
  /\ (forall id info, In (id, info) damage_info ->
        0 <= expected_damage info
        /\ 0 <= multiplier info
        /\ exists move,
             In move (Battle.available_moves battle)
             /\ Move.id move = id
             /\ info = move_entry type_chart self battle move
             /\ (defensive_modifier type_chart battle move == 0
                 \/ defensive_modifier type_chart battle move == 1 ->
                 in_multiplier_set (multiplier info))).
Proof.
  intros Hc Hr damage_info. subst damage_info.
  rewrite calculate_move_damages_assign.
  split; [apply assign_all_nodup; constructor|].
  split.
  - intros id. rewrite assign_all_key_in. unfold legal_moves. simpl. intuition.
  - intros id info Hin.
    apply assign_all_entry_in in Hin.
    destruct Hin as [[move [Hmove [-> ->]]]|[]].
    destruct (Hr move Hmove) as [Hb Ha].
    destruct (move_entry_nonneg self battle move Hc Hb Ha) as [He Hm].
    split; [exact He|]. split; [exact Hm|].
    exists move. repeat split; try assumption.
    intros Hd. unfold move_entry.
    destruct (_ || _); cbn [multiplier].
    + apply move_effectiveness_in_set; assumption.
    + destruct (String.eqb _ _).
      * apply freezedry_effectiveness_in_set, Hc.
      * apply move_effectiveness_in_set; assumption.
Qed.

(** C2 (as amended): for every snapshot whose chart is standard and whose
    move data are in range, [calculate_move_damages] returns exactly one
    entry per id of [battle.available_moves]; every entry is the one
    computed for an available move of that id, its expected damage and its
    multiplier are not negative, and the multiplier is one of
    0, 1/4, 1/2, 1, 2, 4 whenever the defender's ability contributes the
    modifier 0 (immunity) or 1 (no change). *)
Theorem damage_map_entries self battle :
  chart_standard type_chart ->
  moves_in_range battle ->
  let damage_info := calculate_move_damages type_chart self battle in
  NoDup (dict_keys damage_info)
  /\ (forall id, In id (dict_keys damage_info) <-> In id (legal_moves battle))
  /\ (forall id info, In (id, info) damage_info ->
        0 <= expected_damage info
        /\ 0 <= multiplier info
        /\ exists move,
             In move (Battle.available_moves battle)
             /\ Move.id move = id
             /\ info = move_entry type_chart self battle move
             /\ (defensive_modifier type_chart battle move == 0
                 \/ defensive_modifier type_chart battle move == 1 ->
                 in_multiplier_set (multiplier info))).
Proof. exact (damage_map_shape self battle). Qed.

(** ** The defender's ability *)

Lemma worst_case_fold (f : string -> Q) (l : list string) :
  forall w : Q,
    let r := fold_left (fun worst a => if Qlt_bool (f a) worst then f a else worst)
                       l w in
    r <= w
    /\ (forall a, In a l -> r <= f a)
    /\ (r = w \/ exists a, In a l /\ r = f a).
Proof.
  induction l as [|a l IH]; intros w; simpl.
  - split; [lra|]. split; [intros ? []|auto].
  - destruct (IH (if Qlt_bool (f a) w then f a else w)) as [H1 [H2 H3]].
    destruct (Qlt_bool (f a) w) eqn:E.
    + apply Qlt_bool_lt in E. split; [lra|]. split.
      * intros b [<-|Hb]; [exact H1|apply H2, Hb].
      * right. destruct H3 as [->|[b [Hb ->]]]; [exists a|exists b]; auto.
    + apply Qlt_bool_ge in E. split; [exact H1|]. split.
      * intros b [<-|Hb]; [lra|apply H2, Hb].
      * destruct H3 as [->|[b [Hb ->]]]; [auto|right; exists b; auto].
Qed.

Lemma grants_immunity_zero move ty e opp a :
  grants_immunity a ty = true -> get_defensive_modifier move ty e opp a = 0.
Proof.
  unfold grants_immunity, get_defensive_modifier. intros H.
  repeat match goal with
         | |- (if ?c then 0 else _) = 0 => destruct c eqn:?; [reflexivity|]
         end.
  rewrite !orb_true_iff in H. intuition congruence.
Qed.

(** C3 (as amended): the effectiveness after the defender's ability is the
    raw chart multiplier times one modifier.  With a known ability it is
    exactly that ability's modifier.  With an unknown ability it is the
    minimum of 1 and the modifiers of all possible abilities: at most 1,
    at most every possible ability's modifier, and equal to 1 or to one of
    them.  Immunity comes first: an ability that grants immunity to the
    move's type has the modifier 0 whatever else applies, and a known or
    possible immunity makes the effectiveness 0. *)
Theorem defensive_modifier_worst_case battle move :
  let opponent := Battle.opponent_active_pokemon battle in
  let move_type := snd (resolve_power_type battle move) in
  let raw := damage_multiplier type_chart opponent (Move.type move) in
  let get := get_defensive_modifier move move_type raw opponent in
  let m := defensive_modifier type_chart battle move in
  defended_effectiveness type_chart battle move = raw * m
  /\ (forall a, Pokemon.ability opponent = Some a -> truthy (Some a) = true ->
        m = get a)
  /\ (truthy (Pokemon.ability opponent) = false ->
        m <= 1
        /\ (forall a, In a (Pokemon.possible_abilities opponent) -> m <= get a)
        /\ (m = 1 \/ exists a, In a (Pokemon.possible_abilities opponent) /\ m = get a))
  /\ (forall a e, grants_immunity a move_type = true ->
        get_defensive_modifier move move_type e opponent a = 0)
  /\ ((exists a, grants_immunity a move_type = true
                 /\ (Pokemon.ability opponent = Some a /\ truthy (Some a) = true
                     \/ truthy (Pokemon.ability opponent) = false
                        /\ In a (Pokemon.possible_abilities opponent))) ->
        defended_effectiveness type_chart battle move == 0).
Proof.
  intros opponent move_type raw get m.
  assert (Hknown : forall a, Pokemon.ability opponent = Some a ->
                             truthy (Some a) = true -> m = get a).
  { intros a Ha Ht. subst m. unfold defensive_modifier.
    fold opponent. rewrite Ha, Ht. reflexivity. }
  assert (Hunknown : truthy (Pokemon.ability opponent) = false ->
            m = worst_case_modifier get (Pokemon.possible_abilities opponent)).
  { intros Ht. subst m. unfold defensive_modifier. fold opponent.
    destruct (Pokemon.ability opponent) as [a|]; [rewrite Ht|]; reflexivity. }
  assert (Hworst : truthy (Pokemon.ability opponent) = false ->
            m <= 1
            /\ (forall a, In a (Pokemon.possible_abilities opponent) -> m <= get a)
            /\ (m = 1 \/ exists a, In a (Pokemon.possible_abilities opponent)
                                   /\ m = get a)).
  { intros Ht. rewrite (Hunknown Ht). apply worst_case_fold. }
  split; [reflexivity|]. split; [exact Hknown|]. split; [exact Hworst|].
  split; [intros a e; apply grants_immunity_zero|].
  intros [a [Himm [[Ha Ht]|[Ht Hin]]]].
  - unfold defended_effectiveness. fold opponent raw m.
    rewrite (Hknown a Ha Ht). unfold get.
    rewrite (grants_immunity_zero _ _ _ _ _ Himm). lra.
  - unfold defended_effectiveness. fold opponent raw m.
    destruct (Hworst Ht) as [_ [Hle _]].
    specialize (Hle a Hin). unfold get in Hle.
    rewrite (grants_immunity_zero _ _ _ _ _ Himm) in Hle.
    assert (H0 : 0 <= m) by apply defensive_modifier_nonneg.
    assert (Hm : m == 0) by lra. rewrite Hm. lra.
Qed.

(** ** What the damage estimate reads *)

Lemma ability_power_boost_last_move self1 self2 battle move ty power :
  last_move self1 = last_move self2
  \/ opt_is (Pokemon.ability (Battle.active_pokemon battle)) "analytic" = false ->
  ability_power_boost self1 battle move ty power
  = ability_power_boost self2 battle move ty power.
Proof.
  intros [H|H]; unfold ability_power_boost.
  - rewrite H. reflexivity.
  - rewrite H. cbn [andb]. reflexivity.
Qed.

Lemma move_entry_last_move self1 self2 battle move :
  last_move self1 = last_move self2
  \/ opt_is (Pokemon.ability (Battle.active_pokemon battle)) "analytic" = false ->
  move_entry type_chart self1 battle move = move_entry type_chart self2 battle move.
Proof.
  intros H. unfold move_entry, damaging_power.
  rewrite (ability_power_boost_last_move self1 self2 _ _ _ _ H). reflexivity.
Qed.

(** C9 (as amended): [calculate_move_damages] is a function of the
    snapshot, the static chart and one field of the player object, the
    move used last ([last_move]), which it reads for the ability Analytic
    only.  Two runs on the same snapshot give equal damage maps whenever
    the two players agree on [last_move], or the active Pokemon's ability
    is not Analytic. *)
Theorem damage_map_reads_last_move self1 self2 battle :
  last_move self1 = last_move self2
  \/ opt_is (Pokemon.ability (Battle.active_pokemon battle)) "analytic" = false ->
  calculate_move_damages type_chart self1 battle
  = calculate_move_damages type_chart self2 battle.
Proof.
  intros H. rewrite !calculate_move_damages_assign. unfold assign_all.
  generalize (@nil (string * DamageInfo)).
  induction (Battle.available_moves battle) as [|move moves IH]; intros d.
  - reflexivity.
  - simpl. rewrite (move_entry_last_move self1 self2 battle move H). apply IH.
Qed.

(** ** Viable switch filter *)

Lemma mem_In x l : Str.mem x l = true <-> In x l.
Proof.
  unfold Str.mem. rewrite existsb_exists. split.
  - intros [y [Hy Heq]]. apply String.eqb_eq in Heq. subst. exact Hy.
  - intros H. exists x. split; [exact H|apply String.eqb_refl].
Qed.

Lemma mem_false_not_In x l : Str.mem x l = false <-> ~ In x l.
Proof.
  rewrite <- mem_In. destruct (Str.mem x l); intuition congruence.
Qed.

Lemma filter_all {A} (f : A -> bool) (l : list A) :
  (forall x, In x l -> f x = true) -> filter f l = l.
Proof.
  intros H. apply forallb_filter_id, forallb_forall, H.
Qed.

Lemma forallb_false_exists {A} (f : A -> bool) (l : list A) :
  forallb f l = false -> exists x, In x l /\ f x = false.
Proof.
  induction l as [|a l IH]; simpl; [discriminate|].
  destruct (f a) eqn:Ha; simpl.
  - intros H. destruct (IH H) as [x [Hx Hf]]. exists x. auto.
  - intros _. exists a. auto.
Qed.

(** A non-empty list of candidates is never filtered down to nothing. *)
Lemma switch_filter_keeps_some battle available_switches :
  available_switches <> [] ->
  filter_suboptimal_switches type_chart battle available_switches <> []
  /\ ((forall s, In s available_switches ->
         switch_is_weak type_chart battle s = true) ->
      filter_suboptimal_switches type_chart battle available_switches
      = available_switches).
Proof.
  intros Hne. unfold filter_suboptimal_switches.
  destruct available_switches as [|s0 l0]; [contradiction|].
  remember (s0 :: l0) as l eqn:Hl.
  set (weak := switch_is_weak type_chart battle).
  destruct (Nat.eqb_spec (List.length (filter weak l)) (List.length l)) as [Hlen|Hlen].
  - split; [exact Hne|reflexivity].
  - split.
    + assert (Hex : exists s, In s l /\ weak s = false).
      { apply forallb_false_exists.
        destruct (forallb weak l) eqn:Hall; [|reflexivity].
        exfalso. apply Hlen. f_equal. apply forallb_filter_id, Hall. }
      destruct Hex as [s [Hs Hw]].
      intros Hnil.
      assert (Hin : In s (filter (fun s => negb (Str.mem s (filter weak l))) l)).
      { apply filter_In. split; [exact Hs|].
        apply negb_true_iff, mem_false_not_In.
        rewrite filter_In. intros [_ Hw']. congruence. }
      rewrite Hnil in Hin. destruct Hin.
    + intros Hall. exfalso. apply Hlen. f_equal. apply filter_all, Hall.
Qed.

(** C5: on a non-empty list of switch candidates
    [filter_suboptimal_switches] returns a non-empty list, and when its
    weakness test flags every candidate it returns the input list itself. *)
Theorem filter_suboptimal_switches_nonempty battle available_switches :
  available_switches <> [] ->
  filter_suboptimal_switches type_chart battle available_switches <> []
  /\ ((forall s, In s available_switches ->
         switch_is_weak type_chart battle s = true) ->
      filter_suboptimal_switches type_chart battle available_switches
      = available_switches).
Proof. exact (switch_filter_keeps_some battle available_switches). Qed.

(** ** Fallback selector *)

Lemma dict_set_keys {V} k (v : V) d :
  dict_keys (dict_set String.eqb k v d)
  = if Str.mem k (dict_keys d) then dict_keys d else (dict_keys d ++ [k])%list.
Proof.
  induction d as [|[k' v'] d IH]; simpl; [reflexivity|].
  destruct (String.eqb k k'); simpl; [reflexivity|].
  rewrite IH. destruct (Str.mem k (dict_keys d)); reflexivity.
Qed.

Lemma assign_all_keys {A V} (key : A -> string) (val : A -> V) xs :
  forall d,
    dict_keys (assign_all key val xs d)
    = fold_left (fun acc id => if Str.mem id acc then acc else (acc ++ [id])%list)
                (map key xs) (dict_keys d).
Proof.
  induction xs as [|a xs IH]; intros d; simpl; [reflexivity|].
  unfold assign_all in *. simpl. rewrite IH, dict_set_keys. reflexivity.
Qed.

(** The map lists the move ids in first-seen order. *)
Lemma damage_map_keys_first_seen self battle :
  dict_keys (calculate_move_damages type_chart self battle)
  = first_seen (legal_moves battle).
Proof.
  rewrite calculate_move_damages_assign, assign_all_keys. reflexivity.
Qed.

(** The loop of the selector from an arbitrary running state. *)
Lemma best_fold (l : DamageMap) :
  forall (b0 : option string) (m0 : Q),
    let r := fold_left (fun acc kv =>
                          if Qgt_bool (expected_damage (snd kv)) (snd acc)
                          then (Some (fst kv), expected_damage (snd kv))
                          else acc) l (b0, m0) in
    (r = (b0, m0) /\ forall kv, In kv l -> expected_damage (snd kv) <= m0)
    \/ (exists before id info after,
          l = (before ++ (id, info) :: after)%list
          /\ r = (Some id, expected_damage info)
          /\ m0 < expected_damage info
          /\ (forall kv, In kv before ->
                expected_damage (snd kv) < expected_damage info)
          /\ (forall kv, In kv after ->
                expected_damage (snd kv) <= expected_damage info)).
Proof.
  induction l as [|[k i] l IH]; intros b0 m0; simpl.
  - left. split; [reflexivity|intros ? []].
  - destruct (Qgt_bool (expected_damage i) m0) eqn:E.
    + apply Qlt_bool_lt in E.
      destruct (IH (Some k) (expected_damage i))
        as [[Hr Hall]|[before [id [info [after [Hl [Hr [Hm [Hb Ha]]]]]]]]].
      * right. exists [], k, i, l.
        split; [reflexivity|]. split; [exact Hr|]. split; [exact E|].
        split; [intros ? []|exact Hall].
      * right. exists ((k, i) :: before), id, info, after.
        split; [rewrite Hl; reflexivity|]. split; [exact Hr|].
        split; [lra|]. split; [|exact Ha].
        intros kv [<-|Hkv]; [exact Hm|apply Hb, Hkv].
    + apply Qlt_bool_ge in E.
      destruct (IH b0 m0)
        as [[Hr Hall]|[before [id [info [after [Hl [Hr [Hm [Hb Ha]]]]]]]]].
      * left. split; [exact Hr|]. intros kv [<-|Hkv]; [exact E|apply Hall, Hkv].
      * right. exists ((k, i) :: before), id, info, after.
        split; [rewrite Hl; reflexivity|]. split; [exact Hr|].
        split; [exact Hm|]. split; [|exact Ha].
        intros kv [<-|Hkv]; [simpl; lra|apply Hb, Hkv].
Qed.

Lemma find_move_some battle id :
  In id (legal_moves battle) ->
  exists move, find_move battle id = Some move
               /\ In move (Battle.available_moves battle) /\ Move.id move = id.
Proof.
  unfold legal_moves, find_move. intros Hin.
  apply in_map_iff in Hin. destruct Hin as [m [Hid Hm]].
  destruct (find (fun m => String.eqb (Move.id m) id) (Battle.available_moves battle))
    as [move|] eqn:F.
  - exists move. apply find_some in F. destruct F as [Hin Heq].
    apply String.eqb_eq in Heq. auto.
  - pose proof (find_none _ _ F m Hm) as Hn. simpl in Hn.
    rewrite Hid, String.eqb_refl in Hn. discriminate.
Qed.

Section Fallback.

Variable choose_random_move : Battle.t -> Order.

Lemma truthy_named id : id <> "" -> truthy (Some id) = true.
Proof. destruct id; [contradiction|reflexivity]. Qed.

(** With a move available the selector commits the first entry of
    maximal expected damage. *)
Lemma select_best_damage_move_moves self battle :
  chart_standard type_chart -> moves_in_range battle -> moves_named battle ->
  Battle.available_moves battle <> [] ->
  exists before id info after best,
    calculate_move_damages type_chart self battle
    = (before ++ (id, info) :: after)%list
    /\ (forall kv, In kv before -> expected_damage (snd kv) < expected_damage info)
    /\ (forall kv, In kv after -> expected_damage (snd kv) <= expected_damage info)
    /\ find_move battle id = Some best
    /\ Move.id best = id
    /\ In best (Battle.available_moves battle)
    /\ select_best_damage_move type_chart choose_random_move self battle
       = Some (MoveOrder best, set_last_move (Some id) self).
Proof.
  intros Hc Hr Hn Hne.
  destruct (damage_map_shape self battle Hc Hr) as [_ [Hkeys Hent]].
  unfold select_best_damage_move, best_of.
  set (dm := calculate_move_damages type_chart self battle) in *.
  destruct (best_fold dm None (-1))
    as [[_ Hall]|[before [id [info [after [Hl [Hbest [_ [Hb Ha]]]]]]]]].
  - exfalso.
    destruct (Battle.available_moves battle) as [|m ms] eqn:Hm; [contradiction|].
    assert (Hin : In (Move.id m) (dict_keys dm)).
    { apply Hkeys. unfold legal_moves. rewrite Hm. left. reflexivity. }
    apply in_map_iff in Hin. destruct Hin as [[k v] [_ Hkv]].
    pose proof (Hall _ Hkv) as Hle. destruct (Hent k v Hkv) as [H0 _].
    simpl in Hle. lra.
  - assert (Hid : In id (legal_moves battle)).
    { apply Hkeys. rewrite Hl. unfold dict_keys. rewrite map_app.
      apply in_or_app. right. left. reflexivity. }
    destruct (find_move_some battle id Hid) as [best [Hfind [Hin Heq]]].
    exists before, id, info, after, best.
    split; [exact Hl|]. split; [exact Hb|]. split; [exact Ha|].
    split; [exact Hfind|]. split; [exact Heq|]. split; [exact Hin|].
    rewrite Hbest. cbn [fst].
    rewrite truthy_named by (rewrite <- Heq; apply Hn, Hin).
    rewrite Hfind, Heq. reflexivity.
Qed.

(** C7 (as amended): for a snapshot whose chart is standard and whose
    moves are in range and named, the damage map lists the move ids in
    first-seen order of [available_moves]; with at least one move
    available [select_best_damage_move] commits the move whose entry is
    the first of maximal expected damage (every earlier entry is strictly
    smaller, every later one at most equal), status moves with expected
    damage 0 included; only with no move available at all does it hand the
    choice to the library's [choose_random_move]. *)
Theorem select_best_damage_move_first_maximum self battle :
  chart_standard type_chart -> moves_in_range battle -> moves_named battle ->
  let damage_info := calculate_move_damages type_chart self battle in
  dict_keys damage_info = first_seen (legal_moves battle)
  /\ (Battle.available_moves battle = [] ->
      select_best_damage_move type_chart choose_random_move self battle
      = Some (choose_random_move battle, self))
  /\ (Battle.available_moves battle <> [] ->
      exists before id info after best,
        damage_info = (before ++ (id, info) :: after)%list
        /\ (forall kv, In kv before ->
              expected_damage (snd kv) < expected_damage info)
        /\ (forall kv, In kv after ->
              expected_damage (snd kv) <= expected_damage info)
        /\ find_move battle id = Some best
        /\ Move.id best = id
        /\ In best (Battle.available_moves battle)
        /\ select_best_damage_move type_chart choose_random_move self battle
           = Some (MoveOrder best, set_last_move (Some id) self)).
Proof.
  intros Hc Hr Hn damage_info. subst damage_info.
  split; [apply damage_map_keys_first_seen|]. split.
  - intros Hnil. unfold select_best_damage_move, calculate_move_damages.
    rewrite Hnil. reflexivity.
  - apply select_best_damage_move_moves; assumption.
Qed.

End Fallback.

(** ** Validation of the decision-maker's response *)

Lemma keep_lower_hyphen_alphabet s :
  Str.all_chars Str.lower_or_hyphen (Str.keep_lower_hyphen s) = true.
Proof.
  induction s as [|c s IH]; simpl; [reflexivity|].
  destruct (Str.lower_or_hyphen c) eqn:E; simpl; [rewrite E|]; exact IH.
Qed.

(** Every sanitised response is over lowercase letters and the hyphen. *)
Lemma sanitize_model_response_alphabet text :
  Str.all_chars Str.lower_or_hyphen (sanitize_model_response text) = true.
Proof. apply keep_lower_hyphen_alphabet. Qed.

Lemma sanitize_model_response_misses text candidate :
  Str.all_chars Str.lower_or_hyphen candidate = false ->
  sanitize_model_response text <> candidate.
Proof.
  intros Hc Heq. rewrite <- Heq, sanitize_model_response_alphabet in Hc.
  discriminate.
Qed.

Section Retry.

Variable choose_random_move : Battle.t -> Order.
Variable self : Player.
Variable battle : Battle.t.
Variable legal_actions : list string.

Lemma try_response_accepts resp committed :
  try_response self battle legal_actions resp = Some committed ->
  exists text, resp = Some text /\ text <> ""
               /\ In (sanitize_model_response text) legal_actions.
Proof.
  unfold try_response. destruct resp as [text|]; [|discriminate].
  destruct text as [|c text]; [discriminate|]. cbn [truthy].
  destruct (Str.mem _ legal_actions) eqn:Hmem; [|discriminate].
  intros _. exists (String c text). split; [reflexivity|].
  split; [discriminate|]. apply mem_In, Hmem.
Qed.

Lemma try_response_rejects resp :
  resp = None \/ resp = Some ""
  \/ (exists text, resp = Some text
                   /\ ~ In (sanitize_model_response text) legal_actions) ->
  try_response self battle legal_actions resp = None.
Proof.
  unfold try_response. intros [->|[->|[text [-> Hnot]]]]; try reflexivity.
  apply mem_false_not_In in Hnot.
  destruct (truthy (Some text)); [|reflexivity].
  rewrite Hnot. reflexivity.
Qed.

Lemma retry_loop_three query_ollama :
  retry_loop type_chart choose_random_move self battle legal_actions
             query_ollama max_retries 0
  = match try_response self battle legal_actions (query_ollama 0%nat) with
    | Some committed => Some committed
    | None =>
        match try_response self battle legal_actions (query_ollama 1%nat) with
        | Some committed => Some committed
        | None =>
            match try_response self battle legal_actions (query_ollama 2%nat) with
            | Some committed => Some committed
            | None =>
                select_best_damage_move type_chart choose_random_move self battle
            end
        end
    end.
Proof. reflexivity. Qed.

Lemma retry_loop_first_accepted query_ollama i committed :
  (i < 3)%nat ->
  (forall j, (j < i)%nat ->
     try_response self battle legal_actions (query_ollama j) = None) ->
  try_response self battle legal_actions (query_ollama i) = Some committed ->
  retry_loop type_chart choose_random_move self battle legal_actions
             query_ollama max_retries 0 = Some committed.
Proof.
  intros Hi Hbefore Hacc. rewrite retry_loop_three.
  destruct i as [|[|[|i]]]; [| | |lia].
  - rewrite Hacc. reflexivity.
  - rewrite (Hbefore 0%nat) by lia. rewrite Hacc. reflexivity.
  - rewrite (Hbefore 0%nat), (Hbefore 1%nat) by lia. rewrite Hacc. reflexivity.
Qed.

Lemma retry_loop_exhausted query_ollama :
  (forall i, (i < 3)%nat ->
     try_response self battle legal_actions (query_ollama i) = None) ->
  retry_loop type_chart choose_random_move self battle legal_actions
             query_ollama max_retries 0
  = select_best_damage_move type_chart choose_random_move self battle.
Proof.
  intros H. rewrite retry_loop_three.
  rewrite (H 0%nat), (H 1%nat), (H 2%nat) by lia. reflexivity.
Qed.

(** C8: the retry loop of [choose_move] commits a response only if its
    sanitised form (lowercased, every character other than [a-z] and the
    hyphen removed) is a member of the candidate list; an absent response
    or a mismatch is not accepted and the loop goes on; the first accepted
    of the three attempts is committed; after three failures the result is
    that of the fallback selector, which, with a move available, is the
    first move of highest expected damage. *)
Theorem choose_move_retry_then_fallback query_ollama :
  let attempt i := try_response self battle legal_actions (query_ollama i) in
  let outcome :=
    retry_loop type_chart choose_random_move self battle legal_actions
               query_ollama max_retries 0 in
  (forall resp committed,
     try_response self battle legal_actions resp = Some committed ->
     exists text, resp = Some text
                  /\ In (sanitize_model_response text) legal_actions)
  /\ (forall resp,
        resp = None \/ resp = Some ""
        \/ (exists text, resp = Some text
                         /\ ~ In (sanitize_model_response text) legal_actions) ->
        try_response self battle legal_actions resp = None)
  /\ (forall i committed,
        (i < 3)%nat -> (forall j, (j < i)%nat -> attempt j = None) ->
        attempt i = Some committed -> outcome = Some committed)
  /\ ((forall i, (i < 3)%nat -> attempt i = None) ->
      outcome = select_best_damage_move type_chart choose_random_move self battle
      /\ (chart_standard type_chart -> moves_in_range battle ->
          moves_named battle -> Battle.available_moves battle <> [] ->
          exists before id info after best,
            calculate_move_damages type_chart self battle
            = (before ++ (id, info) :: after)%list
            /\ (forall kv, In kv before ->
                  expected_damage (snd kv) < expected_damage info)
            /\ (forall kv, In kv after ->
                  expected_damage (snd kv) <= expected_damage info)
            /\ find_move battle id = Some best
            /\ outcome = Some (MoveOrder best, set_last_move (Some id) self))).
Proof.
  intros attempt outcome. split.
  { intros resp committed H.
    destruct (try_response_accepts resp committed H) as [text [Hr [_ Hin]]].
    exists text. auto. }
  split; [exact try_response_rejects|].
  split; [intros i committed; apply retry_loop_first_accepted|].
  intros Hfail.
  assert (Hout : outcome
                 = select_best_damage_move type_chart choose_random_move self battle)
    by (apply retry_loop_exhausted, Hfail).
  split; [exact Hout|].
  intros Hc Hr Hn Hne.
  destruct (select_best_damage_move_moves choose_random_move self battle Hc Hr Hn Hne)
    as [before [id [info [after [best [Hl [Hb [Ha [Hf [_ [_ Hsel]]]]]]]]]]].
  exists before, id, info, after, best.
  rewrite Hout. auto 6.
Qed.

(** C10: a candidate with a character outside [a-z] and the hyphen is
    never what a response is accepted as: no sanitised response equals it,
    every accepted response is a different candidate, and the turn falls
    through to the fallback selector when the decision-maker names that
    candidate at each of the three attempts and the sanitised name is not
    a candidate itself, or when every candidate has such a character. *)
Theorem unsanitary_candidate_unreachable query_ollama candidate :
  Str.all_chars Str.lower_or_hyphen candidate = false ->
  let outcome :=
    retry_loop type_chart choose_random_move self battle legal_actions
               query_ollama max_retries 0 in
  (forall text, sanitize_model_response text <> candidate)
  /\ (forall resp committed,
        try_response self battle legal_actions resp = Some committed ->
        exists text, resp = Some text
                     /\ In (sanitize_model_response text) legal_actions
                     /\ sanitize_model_response text <> candidate)
  /\ ((forall i, (i < 3)%nat -> query_ollama i = Some candidate) ->
      ~ In (sanitize_model_response candidate) legal_actions ->
      outcome = select_best_damage_move type_chart choose_random_move self battle)
  /\ ((forall c, In c legal_actions ->
         Str.all_chars Str.lower_or_hyphen c = false) ->
      outcome = select_best_damage_move type_chart choose_random_move self battle).
Proof.
  intros Hbad outcome.
  assert (Hmiss : forall text, sanitize_model_response text <> candidate)
    by (intros text; apply sanitize_model_response_misses, Hbad).
  split; [exact Hmiss|]. split.
  { intros resp committed H.
    destruct (try_response_accepts resp committed H) as [text [Hr [_ Hin]]].
    exists text. auto. }
  split.
  - intros Hq Hnot. apply retry_loop_exhausted. intros i Hi.
    apply try_response_rejects. right. right. exists candidate. auto.
  - intros Hall. apply retry_loop_exhausted. intros i Hi.
    apply try_response_rejects.
    destruct (query_ollama i) as [text|]; [|auto].
    right. right. exists text. split; [reflexivity|].
    intros Hin. apply Hall in Hin.
    rewrite sanitize_model_response_alphabet in Hin. discriminate.
Qed.

End Retry.

(** ** The pipeline never adds what it was not given *)

(** Occurrences of an action in a candidate list. *)
Abbreviation occ l x := (count_occ string_dec l x).

Lemma occ_remove_first a l x : (occ (remove_first a l) x <= occ l x)%nat.
Proof.
  induction l as [|y l IH]; simpl; [lia|].
  destruct (String.eqb a y); simpl; destruct (string_dec y x); lia.
Qed.

Lemma occ_remove_first_same a l : occ (remove_first a l) a = pred (occ l a).
Proof.
  induction l as [|y l IH]; simpl; [reflexivity|].
  destruct (String.eqb_spec a y) as [->|Hne].
  - destruct (string_dec y y); [reflexivity|congruence].
  - simpl. destruct (string_dec y a); [congruence|exact IH].
Qed.

Lemma occ_remove_each names : forall l x, (occ (remove_each names l) x <= occ l x)%nat.
Proof.
  unfold remove_each.
  induction names as [|a names IH]; intros l x; simpl; [lia|].
  etransitivity; [apply IH|apply occ_remove_first].
Qed.

Lemma occ_when c f l x :
  (forall l', (occ (f l') x <= occ l' x)%nat) ->
  (occ (when c f l) x <= occ l x)%nat.
Proof. intros H. unfold when. destruct c; [apply H|lia]. Qed.

Lemma occ_filter p l x : (occ (filter p l) x <= occ l x)%nat.
Proof.
  induction l as [|y l IH]; simpl; [lia|].
  destruct (p y); simpl; destruct (string_dec y x); lia.
Qed.

Lemma occ_In l x : (0 < occ l x)%nat <-> In x l.
Proof. symmetry. apply count_occ_In. Qed.

Lemma occ_le_In l l' x : (occ l' x <= occ l x)%nat -> In x l' -> In x l.
Proof. rewrite <- !occ_In. lia. Qed.

(** Solves [occ e x <= occ l x] for an [e] built from [l] by removals. *)
Ltac shrink :=
  lazymatch goal with
  | |- (occ ?l _ <= occ ?l _)%nat => apply Nat.le_refl
  | |- (occ (when _ _ _) _ <= _)%nat =>
      etransitivity; [apply occ_when; intro; cbv beta zeta; shrink|shrink]
  | |- (occ (remove_first _ _) _ <= _)%nat =>
      etransitivity; [apply occ_remove_first|shrink]
  | |- (occ (remove_each _ _) _ <= _)%nat =>
      etransitivity; [apply occ_remove_each|shrink]
  | |- (occ (filter _ _) _ <= _)%nat =>
      etransitivity; [apply occ_filter|shrink]
  end.

Section Pipeline.

Variable self : Player.
Variable battle : Battle.t.
Variable legal_actions : list string.
Variable damage_map : DamageMap.

Lemma occ_drop_attacks_where low :
  forall l x,
    (occ (drop_attacks_where battle damage_map low l) x <= occ l x)%nat.
Proof.
  unfold drop_attacks_where.
  induction damage_map as [|kv dm IH]; intros l x; simpl; [lia|].
  etransitivity; [apply IH|]. shrink.
Qed.

Lemma occ_drop_status_moves l x :
  (occ (drop_status_moves battle l) x <= occ l x)%nat.
Proof.
  unfold drop_status_moves. destruct (status_moves_in battle l); [lia|shrink].
Qed.

Ltac shrink_rule :=
  cbv beta zeta;
  lazymatch goal with
  | |- (occ (drop_attacks_where _ _ _ _) _ <= _)%nat =>
      etransitivity; [apply occ_drop_attacks_where|shrink_rule]
  | |- (occ (when _ drop_status_moves _) _ <= _)%nat =>
      etransitivity; [apply occ_when; intro; apply occ_drop_status_moves|shrink_rule]
  | |- (occ (when _ (drop_status_moves _) _) _ <= _)%nat =>
      etransitivity; [apply occ_when; intro; apply occ_drop_status_moves|shrink_rule]
  | |- _ => shrink
  end.

Lemma flow_within_start extra l : flow_within extra l (Cont l).
Proof. intros x. lia. Qed.

Lemma flow_within_bind extra l f g :
  flow_within extra l f ->
  (forall l', flow_within extra l' (g l')) ->
  flow_within extra l (and_then f g).
Proof.
  intros Hf Hg. destruct f as [l1|r]; simpl; [|exact Hf].
  specialize (Hg l1). simpl in Hf.
  destruct (g l1) as [l2|r]; simpl in *.
  - intros x. specialize (Hf x). specialize (Hg x). lia.
  - intros x Hx. destruct (Hg x Hx) as [Hin|He]; [|auto].
    left. eapply occ_le_In; [apply Hf|exact Hin].
Qed.

Lemma flow_within_edit extra l f e :
  flow_within extra l f ->
  (forall l' x, (occ (e l') x <= occ l' x)%nat) ->
  flow_within extra l (and_then f (edit e)).
Proof.
  intros Hf He. apply flow_within_bind; [exact Hf|].
  intros l' x. apply He.
Qed.

Lemma filter_suboptimal_switches_incl l x :
  In x (filter_suboptimal_switches type_chart battle l) -> In x l.
Proof.
  unfold filter_suboptimal_switches. destruct l as [|s l]; [intros []|].
  destruct (_ =? _)%nat; [auto|]. intros H. apply filter_In in H. apply H.
Qed.

(** The switch names the forced-switch rules may return. *)
Let switch x := In x (all_possible_switches battle).

Lemma viable_switches_switch x :
  In x (viable_switches type_chart battle) -> switch x.
Proof. apply filter_suboptimal_switches_incl. Qed.

Lemma flow_within_viable_or_ret l :
  flow_within switch l
    match viable_switches type_chart battle with
    | [] => Ret l
    | s :: vs => Ret (s :: vs)
    end.
Proof.
  destruct (viable_switches type_chart battle) as [|s vs] eqn:E; simpl.
  - auto.
  - intros x Hx. right. apply viable_switches_switch. rewrite E. exact Hx.
Qed.

Lemma flow_within_viable_or_cont l :
  flow_within switch l
    match viable_switches type_chart battle with
    | [] => Cont l
    | s :: vs => Ret (s :: vs)
    end.
Proof.
  destruct (viable_switches type_chart battle) as [|s vs] eqn:E; simpl.
  - intros x. lia.
  - intros x Hx. right. apply viable_switches_switch. rewrite E. exact Hx.
Qed.

Lemma rule_5_within l : flow_within switch l (rule_5 type_chart battle l).
Proof.
  unfold rule_5.
  destruct (Battle.available_moves battle) as [|m [|m' ms]];
    try apply flow_within_start.
  destruct (Qlt_bool _ _); [apply flow_within_viable_or_ret|apply flow_within_start].
Qed.

Lemma rule_15_within l : flow_within switch l (rule_15 type_chart battle l).
Proof.
  unfold rule_15.
  destruct (attack_too_low battle);
    [apply flow_within_viable_or_ret|apply flow_within_start].
Qed.

Lemma rule_24_within l : flow_within switch l (rule_24 battle l).
Proof.
  unfold rule_24. destruct (_ && _); [|apply flow_within_start].
  destruct (switch_actions l) as [|s sw] eqn:E; unfold flow_within;
    [intros x []|].
  intros x Hx. left. rewrite <- E in Hx. unfold switch_actions in Hx.
  apply filter_In in Hx. apply Hx.
Qed.

Lemma rule_26_encore_within l :
  flow_within switch l (rule_26_encore type_chart battle damage_map l).
Proof.
  unfold rule_26_encore.
  destruct (Battle.available_moves battle) as [|m [|m' ms]];
    try apply flow_within_start.
  destruct (_ && _); [apply flow_within_viable_or_cont|apply flow_within_start].
Qed.

Lemma rule_26_taunt_within l :
  flow_within switch l (rule_26_taunt type_chart battle damage_map l).
Proof.
  unfold rule_26_taunt. destruct (effect_in _ _); [|apply flow_within_start].
  destruct (Battle.available_moves battle) as [|m ms].
  - simpl. intros x Hx. right. apply viable_switches_switch, Hx.
  - destruct (forallb _ _);
      [apply flow_within_viable_or_cont|apply flow_within_start].
Qed.

Lemma rule_27_within l : flow_within switch l (rule_27 type_chart battle l).
Proof.
  unfold rule_27.
  destruct (_ && _); [apply flow_within_viable_or_cont|apply flow_within_start].
Qed.

Create HintDb rules.
#[local] Hint Unfold rule_1 rule_2 rule_3 rule_4 rule_6 rule_7 rule_8 rule_9
  rule_11 rule_12 rule_13 rule_13_5 rule_14 rule_16 rule_17 rule_18 rule_20
  rule_21 rule_22 rule_23 rule_25 rule_29 rule_30 rule_33 rule_36 : rules.

Ltac within :=
  lazymatch goal with
  | |- flow_within _ _ (Cont _) => apply flow_within_start
  | |- flow_within _ _ (and_then _ (edit _)) =>
      apply flow_within_edit;
      [within|intros ? ?; autounfold with rules; shrink_rule]
  | |- flow_within _ _ (and_then _ _) =>
      apply flow_within_bind;
      [within
      |intros ?;
       first [apply rule_5_within|apply rule_15_within|apply rule_24_within
             |apply rule_26_encore_within|apply rule_26_taunt_within
             |apply rule_27_within]]
  end.

Lemma rules_1_to_9_within l :
  flow_within switch l (rules_1_to_9 type_chart battle damage_map l).
Proof. unfold rules_1_to_9. within. Qed.

Lemma rules_11_to_36_within l :
  flow_within switch l (rules_11_to_36 type_chart self battle damage_map l).
Proof. unfold rules_11_to_36. within. Qed.

Lemma finish_within extra l f :
  flow_within extra l f -> forall x, In x (finish f) -> In x l \/ extra x.
Proof.
  destruct f as [l'|r]; simpl; intros H x Hx; [|auto].
  left. eapply occ_le_In; [apply H|exact Hx].
Qed.

Lemma switch_actions_incl l x : In x (switch_actions l) -> In x l.
Proof. unfold switch_actions. intros H. apply filter_In in H. apply H. Qed.

(** What the rules after the two leading ones can deliver from a list:
    entries of the list, switch names, or the Sleep Talk that rule 10 puts
    in front when the sleeper's original list had it. *)
Lemma later_rules_within l x :
  In x (finish (later_rules type_chart self battle legal_actions damage_map l)) ->
  In x l \/ switch x
  \/ (x = "sleeptalk" /\ In "sleeptalk" legal_actions
      /\ status_is (Pokemon.status (Battle.active_pokemon battle)) SLP = true).
Proof.
  unfold later_rules.
  pose proof (rules_1_to_9_within l) as H19.
  destruct (rules_1_to_9 type_chart battle damage_map l) as [l1|r]; simpl in *.
  - unfold rule_10.
    destruct (status_is _ SLP) eqn:Hs;
      [destruct (_ <=? 1)%Z; [destruct (Str.mem "sleeptalk" legal_actions) eqn:Hm|]|];
      simpl.
    + intros Hx.
      destruct (finish_within switch _ _ (rules_11_to_36_within _) x Hx)
        as [[<-|Hin]|Hsw]; [|left|auto].
      * right. right. split; [reflexivity|]. split; [apply mem_In, Hm|reflexivity].
      * eapply occ_le_In; [apply H19|apply switch_actions_incl, Hin].
    + intros Hx. left.
      eapply occ_le_In; [apply H19|apply switch_actions_incl, Hx].
    + intros Hx. left.
      eapply occ_le_In; [apply H19|apply switch_actions_incl, Hx].
    + intros Hx.
      destruct (finish_within switch _ _ (rules_11_to_36_within _) x Hx)
        as [Hin|Hsw]; [left|auto].
      eapply occ_le_In; [apply H19|].
      eapply occ_le_In; [apply occ_remove_first|exact Hin].
  - intros Hx. destruct (H19 x Hx); auto.
Qed.

Lemma moves_reaching_weaker t t' dm x :
  t' <= t -> In x (moves_reaching t dm) -> In x (moves_reaching t' dm).
Proof.
  unfold moves_reaching, dict_keys. intros Ht Hx.
  apply in_map_iff in Hx. destruct Hx as [kv [<- Hkv]].
  apply filter_In in Hkv. destruct Hkv as [Hin Hge].
  apply in_map, filter_In. split; [exact Hin|].
  unfold Qge_bool in *. apply Qle_bool_iff in Hge. apply Qle_bool_iff. lra.
Qed.

Lemma rule_0_5_fires l :
  kill_securing_fires battle damage_map = true ->
  rule_0_5 battle damage_map l = moves_reaching (25 # 10) damage_map.
Proof.
  unfold kill_securing_fires, rule_0_5, when, step_on_throat.
  intros H. apply andb_true_iff in H. destruct H as [H Hko].
  apply andb_true_iff in H. destruct H as [Hhp Hfast].
  rewrite Hhp, Hfast. simpl.
  destruct (moves_reaching (25 # 10) damage_map); [discriminate|reflexivity].
Qed.

Lemma rule_0_5_idle l :
  kill_securing_fires battle damage_map = false ->
  rule_0_5 battle damage_map l = l.
Proof.
  unfold kill_securing_fires, rule_0_5, when, step_on_throat.
  destruct (Qlt_bool _ _); [|reflexivity].
  destruct (determine_who_moves_first battle); [|reflexivity].
  destruct (moves_reaching (25 # 10) damage_map); [reflexivity|discriminate].
Qed.

(** C1 (as amended): the set a fired override produces replaces the
    candidate list and is what the later rules run on; they may still
    remove entries from it or replace it.  When kill securing fires, and
    when mortal peril fires without kill securing after it, the result of
    the pipeline is the result of the later rules on the override's set,
    and each of its entries is an entry of that set, the name of an
    available switch, or the Sleep Talk that rule 10 restores for a
    sleeper whose original list had it. *)
Theorem override_feeds_later_rules :
  let result :=
    filter_suboptimal_moves type_chart self battle legal_actions damage_map in
  let after_peril :=
    mortal_peril_alert type_chart battle legal_actions damage_map in
  let later := later_rules type_chart self battle legal_actions damage_map in
  let restored x :=
    x = "sleeptalk" /\ In "sleeptalk" legal_actions
    /\ status_is (Pokemon.status (Battle.active_pokemon battle)) SLP = true in
  (kill_securing_fires battle damage_map = true ->
   result = finish (later (moves_reaching (25 # 10) damage_map))
   /\ forall x, In x result ->
        In x (moves_reaching (25 # 10) damage_map)
        \/ In x (all_possible_switches battle) \/ restored x)
  /\ (has_ko_threat type_chart battle = true ->
      kill_securing_fires battle damage_map = false ->
      result = finish (later after_peril)
      /\ (after_peril = viable_switches type_chart battle
          \/ after_peril = moves_reaching 2 damage_map)
      /\ forall x, In x result ->
           In x after_peril \/ In x (all_possible_switches battle) \/ restored x).
Proof.
  intros result after_peril later restored. split.
  - intros Hfire.
    assert (Hres : result = finish (later (moves_reaching (25 # 10) damage_map))).
    { subst result later. unfold filter_suboptimal_moves.
      rewrite rule_0_5_fires by exact Hfire. reflexivity. }
    split; [exact Hres|]. rewrite Hres. intros x Hx.
    apply later_rules_within, Hx.
  - intros Hthreat Hidle.
    assert (Hres : result = finish (later after_peril)).
    { subst result later after_peril. unfold filter_suboptimal_moves.
      rewrite rule_0_5_idle by exact Hidle. reflexivity. }
    split; [exact Hres|]. split.
    + subst after_peril. unfold mortal_peril_alert, viable_switches.
      rewrite Hthreat. cbn [negb].
      destruct (determine_who_moves_first battle); cbn [negb]; [|auto].
      destruct (moves_reaching 2 damage_map); auto.
    + rewrite Hres. intros x Hx. apply later_rules_within, Hx.
Qed.

(** ** Sleep handling *)

Lemma switch_name_prefix x :
  switch x -> Str.startswith "switch-" x = true.
Proof.
  unfold switch, all_possible_switches. intros H.
  apply in_map_iff in H. destruct H as [p [<- _]].
  unfold Str.startswith, switch_name. simpl.
  destruct (species_key p); reflexivity.
Qed.

Lemma switch_not_sleeptalk : ~ switch "sleeptalk".
Proof. intros H. apply switch_name_prefix in H. discriminate H. Qed.

Lemma switch_actions_prefix l x :
  In x (switch_actions l) -> Str.startswith "switch-" x = true.
Proof. unfold switch_actions. intros H. apply filter_In in H. apply H. Qed.

Lemma viable_switches_nil :
  viable_switches type_chart battle = [] -> Battle.available_switches battle = [].
Proof.
  unfold viable_switches. intros H.
  destruct (Battle.available_switches battle) as [|p ps] eqn:E; [reflexivity|].
  exfalso.
  refine (proj1 (switch_filter_keeps_some battle (all_possible_switches battle) _) H).
  unfold all_possible_switches. rewrite E. discriminate.
Qed.

(** An early return among rules 1 to 9 is rule 5's: either it stands and
    fights with what is left of the list, or it returns switch names. *)
Lemma rules_1_to_9_ret l r :
  rules_1_to_9 type_chart battle damage_map l = Ret r ->
  exists locked,
    Battle.available_moves battle = [locked]
    /\ ((locked_without_switch type_chart battle = true
         /\ forall x, In x r -> In x l)
        \/ (locked_without_switch type_chart battle = false
            /\ forall x, In x r -> switch x)).
Proof.
  unfold rules_1_to_9. cbn [and_then edit].
  set (l4 := rule_4 battle (rule_3 battle (rule_2 battle (rule_1 battle l)))).
  assert (H4 : forall x, In x l4 -> In x l).
  { intros x. apply occ_le_In. subst l4. autounfold with rules. shrink_rule. }
  destruct (rule_5 type_chart battle l4) as [l5|r5] eqn:E5; cbn [and_then edit];
    [discriminate|].
  intros Hr. injection Hr as <-.
  unfold rule_5, locked_without_switch in *.
  destruct (Battle.available_moves battle) as [|locked [|m ms]]; try discriminate.
  exists locked. split; [reflexivity|].
  destruct (Qlt_bool _ _); [|discriminate]. cbn [andb].
  destruct (viable_switches type_chart battle) as [|s vs] eqn:Ev.
  - left. rewrite (viable_switches_nil Ev).
    injection E5 as <-. auto.
  - right. injection E5 as <-. split.
    + destruct (Battle.available_switches battle) eqn:Es; [|reflexivity].
      unfold viable_switches, all_possible_switches in Ev. rewrite Es in Ev.
      discriminate.
    + intros x Hx. apply viable_switches_switch. rewrite Ev. exact Hx.
Qed.

(** Dropping entries of a map keeps its keys distinct. *)
Lemma filter_keys_nodup {V : Type} (keep : string * V -> bool)
  (d : list (string * V)) :
  NoDup (dict_keys d) -> NoDup (dict_keys (filter keep d)).
Proof.
  unfold dict_keys. induction d as [|kv d IH]; simpl; intros Hnd.
  - constructor.
  - inversion Hnd as [|? ? Hfresh Hrest]; subst.
    destruct (keep kv); simpl; [|apply IH, Hrest].
    constructor; [|apply IH, Hrest].
    intros Hin. apply Hfresh. apply in_map_iff in Hin.
    destruct Hin as [kv' [Hk Hf]]. apply filter_In in Hf.
    rewrite <- Hk. apply in_map, Hf.
Qed.

Lemma moves_reaching_keys t x :
  In x (moves_reaching t damage_map) -> In x (dict_keys damage_map).
Proof.
  unfold moves_reaching, dict_keys. intros H.
  apply in_map_iff in H. destruct H as [kv [<- Hkv]].
  apply filter_In in Hkv. apply in_map, Hkv.
Qed.

(** The list the two leading rules hand on. *)
Local Abbreviation leading_rules :=
  (rule_0_5 battle damage_map (rule_0 type_chart battle damage_map legal_actions)).

Lemma leading_rules_cases :
  leading_rules = legal_actions
  \/ leading_rules = viable_switches type_chart battle
  \/ leading_rules = moves_reaching 2 damage_map
  \/ leading_rules = moves_reaching (25 # 10) damage_map.
Proof.
  unfold rule_0_5, rule_0, when, step_on_throat,
    mortal_peril_alert, viable_switches.
  destruct (Qlt_bool _ (5 # 10)), (determine_who_moves_first battle),
    (has_ko_threat type_chart battle); cbn [negb];
    destruct (moves_reaching (25 # 10) damage_map);
    destruct (moves_reaching 2 damage_map); auto.
Qed.

Lemma leading_rules_within x :
  In x leading_rules ->
  In x legal_actions \/ switch x \/ In x (dict_keys damage_map).
Proof.
  destruct leading_rules_cases as [E | [E | [E | E]]]; rewrite E; intros H; auto.
  - right. left. apply viable_switches_switch, H.
  - right. right. eapply moves_reaching_keys, H.
  - right. right. eapply moves_reaching_keys, H.
Qed.

Let result :=
  filter_suboptimal_moves type_chart self battle legal_actions damage_map.

(** A sleeper that has Sleep Talk and at most one turn left is offered
    Sleep Talk and switches only. *)
Lemma sleeper_with_sleeptalk x :
  asleep battle = true ->
  (Pokemon.status_counter (Battle.active_pokemon battle) <=? 1)%Z = true ->
  In "sleeptalk" legal_actions ->
  (forall id, In id (dict_keys damage_map) -> In id legal_actions) ->
  (forall locked, Battle.available_moves battle = [locked] ->
     forall id, In id legal_actions -> id = Move.id locked) ->
  In x result -> x = "sleeptalk" \/ Str.startswith "switch-" x = true.
Proof.
  intros Hs Hc Hst Hkeys Hsingle. subst result.
  unfold filter_suboptimal_moves, later_rules.
  destruct (rules_1_to_9 type_chart battle damage_map leading_rules)
    as [l1|r] eqn:E19; cbn [and_then finish].
  - unfold rule_10. unfold asleep in Hs. rewrite Hs, Hc.
    apply mem_In in Hst. rewrite Hst. cbn [and_then]. intros Hx.
    destruct (finish_within switch _ _ (rules_11_to_36_within _) x Hx)
      as [[<-|Hin]|Hsw]; [auto| |].
    + right. eapply switch_actions_prefix, Hin.
    + right. apply switch_name_prefix, Hsw.
  - intros Hx.
    destruct (rules_1_to_9_ret _ _ E19) as [locked [Hm [[_ Hin]|[_ Hsw]]]].
    + assert (Hlegal : forall id, In id legal_actions -> id = "sleeptalk").
      { intros id Hid. rewrite (Hsingle locked Hm id Hid).
        symmetry. apply (Hsingle locked Hm), Hst. }
      destruct (leading_rules_within x (Hin x Hx)) as [Hl|[Hw|Hk]].
      * left. apply Hlegal, Hl.
      * right. apply switch_name_prefix, Hw.
      * left. apply Hlegal, Hkeys, Hk.
    + right. apply switch_name_prefix, Hsw, Hx.
Qed.

(** Any other sleeper is offered switches only, unless rule 5 stands and
    fights. *)
Lemma sleeper_without_sleeptalk x :
  asleep battle = true ->
  (Pokemon.status_counter (Battle.active_pokemon battle) <=? 1)%Z = false
  \/ ~ In "sleeptalk" legal_actions ->
  locked_without_switch type_chart battle = false ->
  In x result -> Str.startswith "switch-" x = true.
Proof.
  intros Hs Hc Hl. subst result.
  unfold filter_suboptimal_moves, later_rules.
  destruct (rules_1_to_9 type_chart battle damage_map leading_rules)
    as [l1|r] eqn:E19; cbn [and_then finish].
  - unfold rule_10. unfold asleep in Hs. rewrite Hs.
    assert (Hret : (if (Pokemon.status_counter (Battle.active_pokemon battle) <=? 1)%Z
                    then if Str.mem "sleeptalk" legal_actions
                         then Cont ("sleeptalk" :: switch_actions l1)
                         else Ret (switch_actions l1)
                    else Ret (switch_actions l1)) = Ret (switch_actions l1)).
    { destruct Hc as [Hc|Hc]; [rewrite Hc; reflexivity|].
      apply mem_false_not_In in Hc. rewrite Hc.
      destruct (_ <=? 1)%Z; reflexivity. }
    rewrite Hret. cbn [and_then finish]. apply switch_actions_prefix.
  - intros Hx.
    destruct (rules_1_to_9_ret _ _ E19) as [locked [_ [[Hl' _]|[_ Hsw]]]];
      [congruence|].
    apply switch_name_prefix, Hsw, Hx.
Qed.

(** A waking Pokemon is not offered Sleep Talk, unless rule 5 stands and
    fights. *)
Lemma awake_without_sleeptalk :
  asleep battle = false ->
  locked_without_switch type_chart battle = false ->
  NoDup legal_actions -> NoDup (dict_keys damage_map) ->
  ~ In "sleeptalk" result.
Proof.
  intros Hs Hl Hnd Hndk. subst result.
  unfold filter_suboptimal_moves, later_rules.
  assert (H0 : (occ leading_rules "sleeptalk" <= 1)%nat).
  { destruct leading_rules_cases as [E | [E | [E | E]]]; rewrite E.
    - apply NoDup_count_occ, Hnd.
    - assert (Hn : ~ In "sleeptalk" (viable_switches type_chart battle)).
      { intros H. apply switch_not_sleeptalk, viable_switches_switch, H. }
      apply (count_occ_not_In string_dec) in Hn. rewrite Hn. lia.
    - apply NoDup_count_occ. unfold moves_reaching.
      apply filter_keys_nodup, Hndk.
    - apply NoDup_count_occ. unfold moves_reaching.
      apply filter_keys_nodup, Hndk. }
  destruct (rules_1_to_9 type_chart battle damage_map leading_rules)
    as [l1|r] eqn:E19; cbn [and_then finish].
  - pose proof (rules_1_to_9_within leading_rules) as H19.
    rewrite E19 in H19. simpl in H19. specialize (H19 "sleeptalk").
    unfold rule_10. unfold asleep in Hs. rewrite Hs. cbn [and_then].
    intros Hx.
    destruct (finish_within switch _ _ (rules_11_to_36_within _) _ Hx)
      as [Hin|Hsw]; [|exact (switch_not_sleeptalk Hsw)].
    apply occ_In in Hin. rewrite occ_remove_first_same in Hin. lia.
  - intros Hx.
    destruct (rules_1_to_9_ret _ _ E19) as [locked [_ [[Hl' _]|[_ Hsw]]]];
      [congruence|].
    exact (switch_not_sleeptalk (Hsw _ Hx)).
Qed.

End Pipeline.

Lemma damage_map_keys_legal self battle id :
  In id (dict_keys (calculate_move_damages type_chart self battle)) ->
  In id (legal_moves battle).
Proof.
  rewrite calculate_move_damages_assign, assign_all_key_in.
  intros [H|[]]. exact H.
Qed.

Lemma damage_map_keys_nodup self battle :
  NoDup (dict_keys (calculate_move_damages type_chart self battle)).
Proof.
  rewrite calculate_move_damages_assign. apply assign_all_nodup. constructor.
Qed.

Lemma filtered_switches_prefix battle x :
  In x (filter_suboptimal_switches type_chart battle (legal_switches battle)) ->
  Str.startswith "switch-" x = true.
Proof.
  intros H. apply filter_suboptimal_switches_incl in H.
  apply (switch_name_prefix battle), H.
Qed.

Lemma turn_candidates_cases self battle x :
  In x (turn_candidates type_chart self battle) ->
  In x (filter_suboptimal_moves type_chart self battle (legal_moves battle)
          (calculate_move_damages type_chart self battle))
  \/ (just_switched self = false
      /\ In x (filter_suboptimal_switches type_chart battle (legal_switches battle))).
Proof.
  unfold turn_candidates. destruct (just_switched self); [auto|].
  intros H. apply in_app_or in H. destruct H; auto.
Qed.

(** C6 (as amended): the candidates handed to the decision-maker are the
    filtered moves followed by the viable switches (no switches on the
    turn after a switch).  For a sleeper with at most one sleep turn left
    and Sleep Talk among its legal moves, every candidate is Sleep Talk or
    a switch; for any other sleeper every candidate is a switch; for a
    Pokemon that is not asleep Sleep Talk is not a candidate, the legal
    move ids being distinct.  The last two hold unless rule 5 stands and
    fights (a single resisted move and nobody to switch to). *)
Theorem sleep_handling self battle :
  let candidates := turn_candidates type_chart self battle in
  let counter := Pokemon.status_counter (Battle.active_pokemon battle) in
  (asleep battle = true -> (counter <=? 1)%Z = true ->
   In "sleeptalk" (legal_moves battle) ->
   forall x, In x candidates ->
     x = "sleeptalk" \/ Str.startswith "switch-" x = true)
  /\ (asleep battle = true ->
      (counter <=? 1)%Z = false \/ ~ In "sleeptalk" (legal_moves battle) ->
      locked_without_switch type_chart battle = false ->
      forall x, In x candidates -> Str.startswith "switch-" x = true)
  /\ (asleep battle = false ->
      locked_without_switch type_chart battle = false ->
      NoDup (legal_moves battle) ->
      ~ In "sleeptalk" candidates).
Proof.
  intros candidates counter. subst candidates counter.
  split; [|split].
  - intros Hs Hc Hst x Hx.
    destruct (turn_candidates_cases self battle x Hx) as [Hm|[_ Hsw]];
      [|right; apply (filtered_switches_prefix battle), Hsw].
    apply (sleeper_with_sleeptalk self battle (legal_moves battle)
             (calculate_move_damages type_chart self battle) x Hs Hc Hst);
      [apply damage_map_keys_legal| |exact Hm].
    intros locked Hl id Hid. unfold legal_moves in Hid. rewrite Hl in Hid.
    destruct Hid as [<-|[]]. reflexivity.
  - intros Hs Hc Hl x Hx.
    destruct (turn_candidates_cases self battle x Hx) as [Hm|[_ Hsw]];
      [|apply (filtered_switches_prefix battle), Hsw].
    exact (sleeper_without_sleeptalk self battle (legal_moves battle)
             (calculate_move_damages type_chart self battle) x Hs Hc Hl Hm).
  - intros Hs Hl Hnd Hx.
    destruct (turn_candidates_cases self battle _ Hx) as [Hm|[_ Hsw]].
    + exact (awake_without_sleeptalk self battle (legal_moves battle)
               (calculate_move_damages type_chart self battle) Hs Hl Hnd
               (damage_map_keys_nodup self battle) Hm).
    + apply (filtered_switches_prefix battle) in Hsw. discriminate Hsw.
Qed.

End Properties.

(** ** Closed instances *)

Lemma samples_chart_standard : chart_standard Samples.chart.
Proof.
  intros atk def.
  destruct atk, def;
    first [left; reflexivity
          |right; left; reflexivity
          |right; right; left; reflexivity
          |right; right; right; reflexivity].
Qed.

Lemma samples_moves_in_range active opponent ids switches :
  Forall (fun m => (0 <= Move.base_power m)%Z /\ 0 <= Move.accuracy m) ids ->
  moves_in_range (Samples.battle active opponent ids switches).
Proof.
  intros H move Hin. rewrite Forall_forall in H. apply H, Hin.
Qed.

(** The theorem of C2 at Blastoise against Rhyperior. *)
Lemma damage_map_entries_witness :
  chart_standard Samples.chart
  /\ moves_in_range Samples.surf_into_solidrock
  /\ NoDup (dict_keys (calculate_move_damages Samples.chart Samples.fresh_player
                         Samples.surf_into_solidrock)).
Proof.
  split; [exact samples_chart_standard|].
  assert (Hr : moves_in_range Samples.surf_into_solidrock).
  { apply samples_moves_in_range.
    repeat constructor; simpl; try lia; discriminate. }
  split; [exact Hr|].
  exact (proj1 (damage_map_entries Samples.chart Samples.fresh_player
                  Samples.surf_into_solidrock samples_chart_standard Hr)).
Defined.

(** C2 as stated fails: Surf into a Rhyperior with Solid Rock is recorded
    with the multiplier 3, which is none of 0, 1/4, 1/2, 1, 2, 4. *)
Lemma damage_map_multiplier_counterexample :
  ~ damage_map_as_claimed Samples.surf_into_solidrock
      (calculate_move_damages Samples.chart Samples.fresh_player
         Samples.surf_into_solidrock).
Proof.
  intros [_ [_ H]].
  destruct (H "surf"
              (move_entry Samples.chart Samples.fresh_player
                 Samples.surf_into_solidrock Samples.surf)) as [_ Hset].
  - left. reflexivity.
  - unfold in_multiplier_set in Hset. vm_compute in Hset.
    intuition discriminate.
Qed.

(** The theorem of C3 at Surf against a Jynx of unrevealed ability: the
    possible Dry Skin makes the move ineffective. *)
Lemma defensive_modifier_worst_case_witness :
  defended_effectiveness Samples.chart Samples.surf_into_jynx Samples.surf == 0.
Proof.
  apply (defensive_modifier_worst_case Samples.chart
           Samples.surf_into_jynx Samples.surf).
  exists "dryskin". split; [reflexivity|].
  right. split; [reflexivity|]. simpl. auto.
Defined.

(** C3 as stated fails: with Dry Skin as the only possible ability, a Fire
    move gets the modifier 1 and not the minimum 5/4 over the possible
    abilities. *)
Lemma worst_case_minimum_counterexample :
  ~ defensive_modifier_as_claimed Samples.chart Samples.fire_into_dryskin
      Samples.flamethrower.
Proof.
  unfold defensive_modifier_as_claimed. simpl.
  intros [[x [Hin Heq]] _].
  destruct Hin as [<-|[]]. vm_compute in Heq. discriminate.
Qed.

(** C4 on the code: for Return and for Heavy Slam the first step resolves
    the effective powers 102 and 120 (100 when a weight is unknown), yet
    the entries written for them carry the expected damage of the nominal
    base power 0. *)
Theorem variable_power_discarded :
  let b := Samples.snorlax_vs_blastoise in
  let entry := move_entry Samples.chart Samples.fresh_player b in
  fst (resolve_power_type b Samples.return_move) == 102
  /\ fst (resolve_power_type b Samples.heavyslam) == 120
  /\ Move.category Samples.return_move = PHYSICAL
  /\ multiplier (entry Samples.return_move) == 1
  /\ expected_damage (entry Samples.return_move) == 0
  /\ expected_damage (entry Samples.heavyslam) == 0
  /\ fst (resolve_power_type Samples.snorlax_vs_unweighed Samples.heavyslam) == 100
  /\ expected_damage (move_entry Samples.chart Samples.fresh_player
                         Samples.snorlax_vs_unweighed Samples.heavyslam) == 0
  /\ calculate_move_damages Samples.chart Samples.fresh_player b
     = [("return", entry Samples.return_move);
        ("heavyslam", entry Samples.heavyslam)].
Proof.
  repeat split; reflexivity.
Qed.

(** The theorem of C9 at a Blaze Charizard, for two players that differ in
    every field. *)
Lemma damage_map_reads_last_move_witness :
  calculate_move_damages Samples.chart Samples.fresh_player
    Samples.fire_into_dryskin
  = calculate_move_damages Samples.chart (Samples.player_after "flamethrower")
      Samples.fire_into_dryskin.
Proof.
  apply (damage_map_reads_last_move Samples.chart Samples.fresh_player
           (Samples.player_after "flamethrower") Samples.fire_into_dryskin).
  right. reflexivity.
Defined.

(** C9 as stated fails: for an Analytic Starmie the entry of Psychic
    depends on whether the player used Psychic on the turn before. *)
Lemma damage_map_hidden_state_counterexample :
  ~ snapshot_determines_damage_map Samples.chart Samples.starmie_vs_snorlax.
Proof.
  intros H.
  specialize (H Samples.fresh_player (Samples.player_after "psychic")).
  vm_compute in H. discriminate H.
Qed.

(** The theorem of C5 with both reserves weak to the opponent's type: the
    filter hands back the two candidates. *)
Lemma filter_suboptimal_switches_nonempty_witness :
  all_possible_switches Samples.reserve_all_weak <> []
  /\ filter_suboptimal_switches Samples.chart Samples.reserve_all_weak
       (all_possible_switches Samples.reserve_all_weak)
     = ["switch-arcanine"; "switch-golem"].
Proof.
  assert (Hne : all_possible_switches Samples.reserve_all_weak <> [])
    by discriminate.
  split; [exact Hne|].
  apply (filter_suboptimal_switches_nonempty Samples.chart
           Samples.reserve_all_weak
           (all_possible_switches Samples.reserve_all_weak) Hne).
  intros s [<-|[<-|[]]]; reflexivity.
Defined.

Lemma samples_moves_named active opponent ids switches :
  Forall (fun m => Move.id m <> "") ids ->
  moves_named (Samples.battle active opponent ids switches).
Proof.
  intros H move Hin. rewrite Forall_forall in H. apply H, Hin.
Qed.

(** The theorem of C7 at a Starmie whose Surf and Hydro Pump tie: the map
    follows the order of the moves. *)
Lemma select_best_damage_move_first_maximum_witness :
  chart_standard Samples.chart
  /\ moves_in_range Samples.equal_attacks
  /\ moves_named Samples.equal_attacks
  /\ dict_keys (calculate_move_damages Samples.chart Samples.fresh_player
                  Samples.equal_attacks)
     = first_seen (legal_moves Samples.equal_attacks).
Proof.
  assert (Hr : moves_in_range Samples.equal_attacks).
  { apply samples_moves_in_range.
    repeat constructor; simpl; try lia; discriminate. }
  assert (Hn : moves_named Samples.equal_attacks).
  { apply samples_moves_named. repeat constructor; discriminate. }
  split; [exact samples_chart_standard|]. split; [exact Hr|].
  split; [exact Hn|].
  exact (proj1 (select_best_damage_move_first_maximum Samples.chart
                  (Samples.first_order PassOrder) Samples.fresh_player
                  Samples.equal_attacks samples_chart_standard Hr Hn)).
Defined.

(** C7 as stated fails: with status moves only (no damaging move at all)
    and a legal switch, the selector commits the first status move, whose
    expected damage 0 exceeds the sentinel -1, and no switch. *)
Lemma fallback_without_damage_counterexample :
  ~ fallback_switches_without_damage Samples.chart
      (Samples.first_order PassOrder) Samples.fresh_player
      Samples.status_moves_only.
Proof.
  intros H. destruct H as [pokemon [self' [Heq _]]].
  - intros id info [Hin|[Hin|[]]]; inversion Hin; reflexivity.
  - discriminate.
  - vm_compute in Heq. discriminate Heq.
Qed.

(** The theorem of C8 at a decision-maker that fails twice and answers
    [" Surf\n"] at the third attempt: Surf is committed. *)
Lemma choose_move_retry_then_fallback_witness :
  option_map fst
    (retry_loop Samples.chart (Samples.first_order PassOrder)
       Samples.fresh_player Samples.porygon2_in_reserve ["surf"; "psychic"]
       Samples.third_time_lucky max_retries 0)
  = Some (MoveOrder Samples.surf).
Proof.
  destruct (choose_move_retry_then_fallback Samples.chart
              (Samples.first_order PassOrder) Samples.fresh_player
              Samples.porygon2_in_reserve ["surf"; "psychic"]
              Samples.third_time_lucky) as [_ [_ [Hfirst _]]].
  rewrite (Hfirst 2%nat
             (MoveOrder Samples.surf,
              set_last_move (Some "surf")
                (append_message (AssistantReply "surf") Samples.fresh_player))).
  - reflexivity.
  - lia.
  - intros [|[|j]] Hj; [reflexivity|reflexivity|lia].
  - reflexivity.
Defined.

(** The theorem of C10 at the candidate ["switch-porygon2"], named by the
    decision-maker at every attempt: the fallback commits Surf, the first
    of the two moves of highest expected damage. *)
Lemma unsanitary_candidate_unreachable_witness :
  Str.all_chars Str.lower_or_hyphen "switch-porygon2" = false
  /\ option_map fst
       (retry_loop Samples.chart (Samples.first_order PassOrder)
          Samples.fresh_player Samples.porygon2_in_reserve
          ["surf"; "psychic"; "switch-porygon2"]
          Samples.always_porygon2 max_retries 0)
     = Some (MoveOrder Samples.surf).
Proof.
  split; [reflexivity|].
  destruct (unsanitary_candidate_unreachable Samples.chart
              (Samples.first_order PassOrder) Samples.fresh_player
              Samples.porygon2_in_reserve
              ["surf"; "psychic"; "switch-porygon2"]
              Samples.always_porygon2 "switch-porygon2" eq_refl)
    as [_ [_ [Hnamed _]]].
  rewrite Hnamed.
  - reflexivity.
  - intros i _. reflexivity.
  - simpl. intros [H|[H|[H|[]]]]; discriminate H.
Defined.

(** The theorem of C1 at Tauros against Machamp, where mortal peril fires
    and kill securing does not. *)
Lemma override_feeds_later_rules_witness :
  let b := Samples.tauros_vs_machamp in
  let dm := calculate_move_damages Samples.chart Samples.fresh_player b in
  has_ko_threat Samples.chart b = true
  /\ kill_securing_fires b dm = false
  /\ filter_suboptimal_moves Samples.chart Samples.fresh_player b (legal_moves b) dm
     = finish (later_rules Samples.chart Samples.fresh_player b (legal_moves b) dm
                 (mortal_peril_alert Samples.chart b (legal_moves b) dm)).
Proof.
  intros b dm.
  assert (Ht : has_ko_threat Samples.chart b = true) by reflexivity.
  assert (Hk : kill_securing_fires b dm = false) by reflexivity.
  split; [exact Ht|]. split; [exact Hk|].
  exact (proj1 (proj2 (override_feeds_later_rules Samples.chart
                         Samples.fresh_player b (legal_moves b) dm) Ht Hk)).
Defined.

(** C1 as stated fails: for Tauros against Machamp mortal peril fires and
    produces the set [hyperbeam]; rule 25 then removes Hyper Beam, so the
    pipeline returns the empty list and not the override's set. *)
Lemma override_not_final_counterexample :
  ~ override_is_final Samples.chart Samples.fresh_player
      Samples.tauros_vs_machamp (legal_moves Samples.tauros_vs_machamp)
      (calculate_move_damages Samples.chart Samples.fresh_player
         Samples.tauros_vs_machamp).
Proof.
  intros [_ H]. specialize (H eq_refl eq_refl).
  vm_compute in H. discriminate H.
Qed.

(** The theorem of C6 at a Snorlax asleep with one turn left and Sleep
    Talk among its moves. *)
Lemma sleep_handling_witness :
  asleep Samples.sleeping_snorlax = true
  /\ Forall (fun x => x = "sleeptalk" \/ Str.startswith "switch-" x = true)
            (turn_candidates Samples.chart Samples.fresh_player
               Samples.sleeping_snorlax).
Proof.
  split; [reflexivity|]. apply Forall_forall.
  apply (proj1 (sleep_handling Samples.chart Samples.fresh_player
                  Samples.sleeping_snorlax)).
  - reflexivity.
  - reflexivity.
  - left. reflexivity.
Defined.

(** C6 as stated fails: the sleeping Snorlax with one turn left is offered
    Sleep Talk and the switch to Venusaur only; Arcanine, a legal switch
    that is weak to the opponent's type, is not among the candidates. *)
Lemma sleep_candidates_counterexample :
  ~ sleep_candidates_as_claimed Samples.chart Samples.fresh_player
      Samples.sleeping_snorlax.
Proof.
  intros [H _].
  specialize (H eq_refl eq_refl (or_introl eq_refl)).
  vm_compute in H. discriminate H.
Qed.

(** * Further properties of the code *)

(** * Further properties *)

(** ** Sanitising a response *)

Lemma space_not_kept c :
  Str.is_space c = true -> Str.lower_or_hyphen (Str.lower_ascii c) = false.
Proof.
  destruct c as [[] [] [] [] [] [] [] []]; vm_compute; congruence.
Qed.

Lemma kept_is_lower c :
  Str.lower_or_hyphen c = true -> Str.lower_ascii c = c.
Proof.
  destruct c as [[] [] [] [] [] [] [] []]; vm_compute; congruence.
Qed.

Lemma keep_lower_lstrip s :
  Str.keep_lower_hyphen (Str.lower (Str.lstrip s))
  = Str.keep_lower_hyphen (Str.lower s).
Proof.
  induction s as [|c s IH]; simpl; [reflexivity|].
  destruct (Str.is_space c) eqn:E; [|reflexivity].
  rewrite (space_not_kept c E). exact IH.
Qed.

Lemma keep_lower_rstrip s :
  Str.keep_lower_hyphen (Str.lower (Str.rstrip s))
  = Str.keep_lower_hyphen (Str.lower s).
Proof.
  induction s as [|c s IH]; simpl; [reflexivity|].
  destruct (Str.rstrip s) as [|a r] eqn:Er.
  - simpl in IH. rewrite <- IH.
    destruct (Str.is_space c) eqn:E; simpl.
    + rewrite (space_not_kept c E). reflexivity.
    + reflexivity.
  - change (Str.lower (String c (String a r)))
      with (String (Str.lower_ascii c) (Str.lower (String a r))).
    cbn [Str.keep_lower_hyphen]. rewrite IH. reflexivity.
Qed.

Lemma sanitize_as_keep_lower text :
  sanitize_model_response text = Str.keep_lower_hyphen (Str.lower text).
Proof.
  unfold sanitize_model_response, Str.strip.
  rewrite keep_lower_rstrip, keep_lower_lstrip. reflexivity.
Qed.

Lemma keep_lower_fixed s :
  Str.all_chars Str.lower_or_hyphen s = true ->
  Str.keep_lower_hyphen (Str.lower s) = s.
Proof.
  induction s as [|c s IH]; simpl; [reflexivity|].
  intros H. apply andb_true_iff in H. destruct H as [Hc Hs].
  rewrite (kept_is_lower c Hc), Hc, (IH Hs). reflexivity.
Qed.

(** X1: the [strip()] in [sanitize_model_response] changes nothing: the
    result is the lowercased text with every character outside [a-z] and
    the hyphen removed, whitespace at the ends or inside alike. *)
Theorem sanitize_ignores_strip text :
  sanitize_model_response text = Str.keep_lower_hyphen (Str.lower text).
Proof. exact (sanitize_as_keep_lower text). Qed.

(** X2: [sanitize_model_response] leaves a text as it is exactly when the
    text is over [a-z] and the hyphen, and sanitising twice is sanitising
    once. *)
Theorem sanitize_fixed_points text :
  (sanitize_model_response text = text
   <-> Str.all_chars Str.lower_or_hyphen text = true)
  /\ sanitize_model_response (sanitize_model_response text)
     = sanitize_model_response text.
Proof.
  assert (Hfix : forall s, Str.all_chars Str.lower_or_hyphen s = true ->
                           sanitize_model_response s = s).
  { intros s Hs. rewrite sanitize_as_keep_lower. apply keep_lower_fixed, Hs. }
  split; [split|].
  - intros H. rewrite <- H. apply sanitize_model_response_alphabet.
  - apply Hfix.
  - apply Hfix, sanitize_model_response_alphabet.
Qed.

(** ** The viable switch filter in closed form *)

Lemma filter_length_all {A} (f : A -> bool) (l : list A) :
  (List.length (filter f l) =? List.length l)%nat = forallb f l.
Proof.
  destruct (forallb f l) eqn:E.
  - rewrite (forallb_filter_id _ _ E). apply Nat.eqb_refl.
  - apply Nat.eqb_neq. intros H. apply filter_length_forallb in H. congruence.
Qed.

Lemma switch_filter_closed_form chart battle l :
  filter_suboptimal_switches chart battle l
  = if forallb (switch_is_weak chart battle) l then l
    else filter (fun s => negb (switch_is_weak chart battle s)) l.
Proof.
  unfold filter_suboptimal_switches.
  destruct l as [|s0 l0]; [reflexivity|].
  rewrite filter_length_all.
  destruct (forallb _ (s0 :: l0)); [reflexivity|].
  apply filter_ext_in. intros s Hs. f_equal.
  destruct (switch_is_weak chart battle s) eqn:E.
  - apply mem_In, filter_In. auto.
  - apply mem_false_not_In. rewrite filter_In. intros [_ H]. congruence.
Qed.

(** X3: [filter_suboptimal_switches] returns its input when the weakness
    test flags every candidate, and otherwise exactly the candidates the
    test does not flag, in their order; filtering a second time changes
    nothing. *)
Theorem filter_suboptimal_switches_closed_form chart battle l :
  let weak := switch_is_weak chart battle in
  filter_suboptimal_switches chart battle l
  = (if forallb weak l then l else filter (fun s => negb (weak s)) l)
  /\ filter_suboptimal_switches chart battle
       (filter_suboptimal_switches chart battle l)
     = filter_suboptimal_switches chart battle l.
Proof.
  intros weak. split; [apply switch_filter_closed_form|].
  rewrite (switch_filter_closed_form chart battle l). fold weak.
  destruct (forallb weak l) eqn:E.
  - rewrite switch_filter_closed_form. fold weak. rewrite E. reflexivity.
  - rewrite switch_filter_closed_form. fold weak.
    set (kept := filter (fun s => negb (weak s)) l).
    destruct (forallb weak kept) eqn:Ek; [reflexivity|].
    apply filter_all. intros s Hs. subst kept. apply filter_In in Hs. apply Hs.
Qed.

(** ** The two leading rules on their own *)

Lemma moves_reaching_entry t dm x :
  In x (moves_reaching t dm) ->
  exists info, In (x, info) dm /\ t <= expected_damage info.
Proof.
  unfold moves_reaching, dict_keys. intros H.
  apply in_map_iff in H. destruct H as [[k info] [Hk Hkv]].
  apply filter_In in Hkv. destruct Hkv as [Hin Hge].
  simpl in *. subst k. exists info. split; [exact Hin|].
  apply Qle_bool_iff, Hge.
Qed.

(** X4: [step_on_throat] either returns the list it was given or replaces
    it by the non-empty list of the moves whose expected damage is at least
    2.5, which it does only when the active side moves first; it never
    turns a non-empty list into an empty one, and applying it twice is
    applying it once. *)
Theorem step_on_throat_cases battle l dm :
  let r := step_on_throat battle l dm in
  (r = l
   \/ (r = moves_reaching (25 # 10) dm /\ r <> []
       /\ determine_who_moves_first battle = true
       /\ forall x, In x r ->
            exists info, In (x, info) dm /\ 25 # 10 <= expected_damage info))
  /\ (l <> [] -> r <> [])
  /\ step_on_throat battle r dm = r.
Proof.
  intros r. subst r. unfold step_on_throat.
  destruct (determine_who_moves_first battle); cbn [negb].
  - destruct (moves_reaching (25 # 10) dm) as [|k ks] eqn:E.
    + split; [left; reflexivity|]. split; [auto|reflexivity].
    + split; [|split; [intros _; discriminate|reflexivity]].
      right. split; [reflexivity|]. split; [discriminate|].
      split; [reflexivity|]. rewrite <- E. apply moves_reaching_entry.
  - split; [left; reflexivity|]. split; [auto|reflexivity].
Qed.

(** X5: without a KO threat [mortal_peril_alert] returns the list it was
    given.  Under a threat it discards that list: the result does not
    depend on it, a slower active side gets exactly the viable switches,
    and every entry is the name of an available switch or a move of the
    damage map with expected damage at least 2. *)
Theorem mortal_peril_alert_cases chart battle l dm :
  (has_ko_threat chart battle = false -> mortal_peril_alert chart battle l dm = l)
  /\ (has_ko_threat chart battle = true ->
      (forall l', mortal_peril_alert chart battle l' dm
                  = mortal_peril_alert chart battle l dm)
      /\ (determine_who_moves_first battle = false ->
          mortal_peril_alert chart battle l dm = viable_switches chart battle)
      /\ forall x, In x (mortal_peril_alert chart battle l dm) ->
           In x (all_possible_switches battle)
           \/ exists info, In (x, info) dm /\ 2 <= expected_damage info).
Proof.
  unfold mortal_peril_alert, viable_switches. split.
  - intros H. rewrite H. reflexivity.
  - intros H. rewrite H. cbn [negb]. split; [reflexivity|]. split.
    + intros Hs. rewrite Hs. reflexivity.
    + intros x.
      destruct (determine_who_moves_first battle); cbn [negb].
      * destruct (moves_reaching 2 dm) as [|k ks] eqn:E.
        -- intros Hx. left. eapply filter_suboptimal_switches_incl, Hx.
        -- rewrite <- E. intros Hx. right. apply moves_reaching_entry, Hx.
      * intros Hx. left. eapply filter_suboptimal_switches_incl, Hx.
Qed.

(** ** Turn order *)

Lemma scale_nonneg' c k x : 0 <= k -> 0 <= x -> 0 <= scale c k x.
Proof.
  intros Hk Hx. unfold scale. destruct c; [|exact Hx].
  apply Qmult_le_0_compat; assumption.
Qed.

(** X6: a Pokemon whose speed stat is not negative has a non-negative
    effective speed, whatever its boost stage, ability, status and side
    conditions: the boost factors (2+b)/2 and 2/(2-b) are applied for
    b > 0 and b < 0 only, so no division by zero occurs. *)
Theorem calculate_speed_nonneg battle pokemon side :
  (0 <= Pokemon.stats_spe pokemon)%Z ->
  0 <= calculate_speed battle pokemon side.
Proof.
  intros Hs. unfold calculate_speed.
  assert (H0 : 0 <= inject_Z (Pokemon.stats_spe pokemon)).
  { change 0 with (inject_Z 0). rewrite <- Zle_Qle. exact Hs. }
  apply scale_nonneg'; [lra|].
  set (boost := boost_of "spe" (Pokemon.boosts pokemon)).
  assert (Hb : 0 <= (if (0 <? boost)%Z
                     then inject_Z (Pokemon.stats_spe pokemon)
                          * (inject_Z (2 + boost) / 2)
                     else if (boost <? 0)%Z
                          then inject_Z (Pokemon.stats_spe pokemon)
                               * (2 / inject_Z (2 - boost))
                          else inject_Z (Pokemon.stats_spe pokemon))).
  { destruct (Z.ltb_spec 0 boost) as [Hp|Hp].
    - apply Qmult_le_0_compat; [exact H0|].
      apply Qle_shift_div_l; [lra|]. rewrite Qmult_0_l.
      change 0 with (inject_Z 0). rewrite <- Zle_Qle. lia.
    - destruct (Z.ltb_spec boost 0) as [Hn|Hn]; [|exact H0].
      apply Qmult_le_0_compat; [exact H0|].
      apply Qle_shift_div_l.
      + change 0 with (inject_Z 0). rewrite <- Zlt_Qlt. lia.
      + rewrite Qmult_0_l. lra. }
  destruct (status_is (Pokemon.status pokemon) PAR).
  - apply Qmult_le_0_compat.
    + repeat (apply scale_nonneg'; [lra|]). exact Hb.
    + destruct (7 <=? Battle.gen battle)%Z; lra.
  - repeat (apply scale_nonneg'; [lra|]). exact Hb.
Qed.

(** X7: the active side counts as moving first exactly when its effective
    speed is strictly greater than the opponent's, or strictly smaller
    under Trick Room.  On a speed tie it never does, with or without Trick
    Room, so [step_on_throat] then returns the list it was given. *)
Theorem determine_who_moves_first_strict battle :
  let my_speed := fst (get_effective_speed battle) in
  let opponent_speed := snd (get_effective_speed battle) in
  (determine_who_moves_first battle = true <->
   if field_in TRICK_ROOM (Battle.fields battle)
   then my_speed < opponent_speed else opponent_speed < my_speed)
  /\ (my_speed == opponent_speed ->
      determine_who_moves_first battle = false
      /\ forall l dm, step_on_throat battle l dm = l).
Proof.
  intros my_speed opponent_speed.
  assert (Hiff : determine_who_moves_first battle = true <->
                 if field_in TRICK_ROOM (Battle.fields battle)
                 then my_speed < opponent_speed else opponent_speed < my_speed).
  { unfold determine_who_moves_first. subst my_speed opponent_speed.
    destruct (get_effective_speed battle) as [m o]. cbn [fst snd].
    destruct (field_in TRICK_ROOM (Battle.fields battle));
      unfold Qgt_bool; apply Qlt_bool_lt. }
  split; [exact Hiff|]. intros Htie.
  assert (Hf : determine_who_moves_first battle = false).
  { destruct (determine_who_moves_first battle); [|reflexivity].
    exfalso. destruct Hiff as [Hiff _]. specialize (Hiff eq_refl).
    destruct (field_in TRICK_ROOM (Battle.fields battle)); lra. }
  split; [exact Hf|]. intros l dm. unfold step_on_throat. rewrite Hf. reflexivity.
Qed.

(** ** Looking up the damage map *)

Lemma dict_get_set_same {V} k (v : V) d :
  dict_get String.eqb k (dict_set String.eqb k v d) = Some v.
Proof.
  induction d as [|[k' v'] d IH]; simpl.
  - rewrite String.eqb_refl. reflexivity.
  - destruct (String.eqb k k') eqn:E; simpl; rewrite E; [reflexivity|exact IH].
Qed.

Lemma dict_get_set_other {V} k k0 (v : V) d :
  k0 <> k ->
  dict_get String.eqb k0 (dict_set String.eqb k v d) = dict_get String.eqb k0 d.
Proof.
  intros Hne. induction d as [|[k' v'] d IH]; simpl.
  - apply String.eqb_neq in Hne. rewrite Hne. reflexivity.
  - destruct (String.eqb_spec k k') as [->|Hk]; simpl.
    + apply String.eqb_neq in Hne. rewrite Hne. reflexivity.
    + destruct (String.eqb k0 k'); [reflexivity|exact IH].
Qed.

Lemma assign_all_get_fresh {A V} (key : A -> string) (val : A -> V) xs :
  forall d k, ~ In k (map key xs) ->
    dict_get String.eqb k (assign_all key val xs d) = dict_get String.eqb k d.
Proof.
  induction xs as [|a xs IH]; intros d k Hk; [reflexivity|].
  unfold assign_all in *. simpl in *.
  rewrite IH by tauto. apply dict_get_set_other. intros ->. tauto.
Qed.

Lemma assign_all_get {A V} (key : A -> string) (val : A -> V) xs :
  NoDup (map key xs) ->
  forall d a, In a xs ->
    dict_get String.eqb (key a) (assign_all key val xs d) = Some (val a).
Proof.
  induction xs as [|a0 xs IH]; intros Hnd d a Ha; [destruct Ha|].
  simpl in Hnd. inversion Hnd as [|? ? Hfresh Hrest]; subst.
  unfold assign_all in *. simpl. destruct Ha as [->|Ha].
  - fold (assign_all key val xs (dict_set String.eqb (key a) (val a) d)).
    rewrite assign_all_get_fresh by exact Hfresh. apply dict_get_set_same.
  - apply IH; assumption.
Qed.

(** X8: with distinct move ids, looking up the id of an available move in
    the damage map yields the entry computed for that very move; an id
    that no available move bears has no entry, and its multiplier is read
    with the default 1. *)
Theorem damage_map_lookup chart self battle :
  NoDup (legal_moves battle) ->
  let damage_info := calculate_move_damages chart self battle in
  (forall move, In move (Battle.available_moves battle) ->
     dict_get String.eqb (Move.id move) damage_info
     = Some (move_entry chart self battle move))
  /\ (forall id, ~ In id (legal_moves battle) ->
        dict_get String.eqb id damage_info = None
        /\ multiplier_of damage_info id = 1).
Proof.
  intros Hnd damage_info. subst damage_info.
  rewrite calculate_move_damages_assign. split.
  - intros move Hin. apply assign_all_get; assumption.
  - intros id Hid.
    assert (H : dict_get String.eqb id
                  (assign_all Move.id (move_entry chart self battle)
                     (Battle.available_moves battle) []) = None).
    { rewrite assign_all_get_fresh by exact Hid. reflexivity. }
    split; [exact H|]. unfold multiplier_of. rewrite H. reflexivity.
Qed.

(** ** Entries without damage *)

Lemma immunity_defended_zero chart battle move a :
  let opponent := Battle.opponent_active_pokemon battle in
  grants_immunity a (snd (resolve_power_type battle move)) = true ->
  (Pokemon.ability opponent = Some a /\ truthy (Some a) = true)
  \/ (truthy (Pokemon.ability opponent) = false
      /\ In a (Pokemon.possible_abilities opponent)) ->
  defended_effectiveness chart battle move == 0.
Proof.
  intros opponent Himm Hab.
  assert (Hm : defensive_modifier chart battle move == 0).
  { pose proof (defensive_modifier_nonneg chart battle move) as H0.
    unfold defensive_modifier in *. fold opponent in H0 |- *.
    destruct Hab as [[Ha Ht]|[Ht Hin]].
    - rewrite Ha, Ht. rewrite (grants_immunity_zero chart _ _ _ _ _ Himm). reflexivity.
    - pose proof (worst_case_fold
                    (get_defensive_modifier move
                       (snd (resolve_power_type battle move))
                       (damage_multiplier chart opponent (Move.type move)) opponent)
                    (Pokemon.possible_abilities opponent) 1) as Hw.
      cbv zeta in Hw. destruct Hw as [_ [Hle _]].
      specialize (Hle a Hin).
      rewrite (grants_immunity_zero chart _ _ _ _ _ Himm) in Hle.
      fold (worst_case_modifier
              (get_defensive_modifier move
                 (snd (resolve_power_type battle move))
                 (damage_multiplier chart opponent (Move.type move)) opponent)
              (Pokemon.possible_abilities opponent)) in Hle.
      destruct (Pokemon.ability opponent) as [b|]; [rewrite Ht in *|]; lra. }
  unfold defended_effectiveness. rewrite Hm. lra.
Qed.

(** X9: every entry of the damage map belongs to an available move of its
    id and records that move's priority.  The entry of a status move has
    expected damage 0, and so has the entry of a move whose resolved type
    meets an immunity among the defender's known or possible abilities,
    with multiplier 0 whatever the type chart says. *)
Theorem damage_map_zero_entries chart self battle id info :
  In (id, info) (calculate_move_damages chart self battle) ->
  exists move,
    In move (Battle.available_moves battle)
    /\ Move.id move = id
    /\ priority info = Move.priority move
    /\ (Move.category move = STATUS -> expected_damage info = 0)
    /\ (forall a,
          grants_immunity a (snd (resolve_power_type battle move)) = true ->
          (Pokemon.ability (Battle.opponent_active_pokemon battle) = Some a
           /\ truthy (Some a) = true)
          \/ (truthy (Pokemon.ability (Battle.opponent_active_pokemon battle)) = false
              /\ In a (Pokemon.possible_abilities
                         (Battle.opponent_active_pokemon battle))) ->
          expected_damage info = 0 /\ multiplier info == 0).
Proof.
  rewrite calculate_move_damages_assign. intros Hin.
  apply assign_all_entry_in in Hin.
  destruct Hin as [[move [Hmove [-> ->]]]|[]].
  exists move. split; [exact Hmove|]. split; [reflexivity|].
  split; [unfold move_entry; destruct (_ || _); reflexivity|]. split.
  - intros Hc. unfold move_entry. rewrite Hc. reflexivity.
  - intros a Himm Hab.
    assert (He : move_effectiveness chart battle move == 0).
    { pose proof (immunity_defended_zero chart battle move a Himm Hab) as Hd.
      unfold move_effectiveness, scale.
      destruct (_ && _); [rewrite Hd; lra|exact Hd]. }
    unfold move_entry.
    apply Qeq_bool_iff in He. rewrite He, orb_true_r.
    cbn [expected_damage multiplier]. split; [reflexivity|].
    apply Qeq_bool_iff, He.
Qed.

(** X10: the critical-hit chance looked up for any generation, stage,
    ability and item is a probability in (0, 1], and the critical-hit
    multiplier lies between 3/2 and 3; the factor 1 + p (m - 1) applied to
    the damage therefore lies between 1 and 3. *)
Theorem crit_factor_bounds battle move pokemon :
  let p := get_crit_chance battle move pokemon in
  let m := get_crit_damage_multiplier battle pokemon in
  0 < p /\ p <= 1 /\ 3 # 2 <= m /\ m <= 3
  /\ 1 <= 1 + p * (m - 1) /\ 1 + p * (m - 1) <= 3.
Proof.
  intros p m.
  assert (Hp : 0 < p /\ p <= 1).
  { subst p. unfold get_crit_chance.
    repeat match goal with
           | |- context [if ?c then _ else _] => destruct c
           | |- context [match ?z with 0%Z => _ | Zpos _ => _ | Zneg _ => _ end] =>
               destruct z
           | |- context [match ?q with xH => _ | xO _ => _ | xI _ => _ end] =>
               destruct q
           end; split; reflexivity || discriminate. }
  assert (Hm : 3 # 2 <= m /\ m <= 3).
  { subst m. unfold get_crit_damage_multiplier.
    destruct (opt_is _ _), (6 <=? _)%Z; split; discriminate. }
  destruct Hp as [Hp0 Hp1]. destruct Hm as [Hm0 Hm1].
  repeat split; try assumption.
  - assert (0 <= p * (m - 1)) by (apply Qmult_le_0_compat; lra). lra.
  - assert (p * (m - 1) <= 1 * 2).
    { apply Qmult_le_compat_nonneg; split; lra. }
    lra.
Qed.

(** ** What the engine commits *)

Lemma best_of_key dm id :
  fst (best_of dm) = Some id -> In id (dict_keys dm).
Proof.
  unfold best_of.
  destruct (best_fold dm None (-1))
    as [[Hr _]|[before [k [info [after [Hl [Hr _]]]]]]]; rewrite Hr; cbn [fst].
  - discriminate.
  - intros H. injection H as <-. rewrite Hl. unfold dict_keys.
    rewrite map_app. apply in_or_app. right. left. reflexivity.
Qed.

Lemma select_best_outcome chart rm self battle :
  exists order self',
    select_best_damage_move chart rm self battle = Some (order, self')
    /\ ((order = rm battle /\ self' = self)
        \/ exists move,
             In move (Battle.available_moves battle)
             /\ order = MoveOrder move
             /\ self' = set_last_move (Some (Move.id move)) self).
Proof.
  unfold select_best_damage_move.
  destruct (fst (best_of (calculate_move_damages chart self battle)))
    as [id|] eqn:E.
  - destruct (truthy (Some id)).
    + apply best_of_key, damage_map_keys_legal in E.
      destruct (find_move_some battle id E) as [move [Hf [Hin Hid]]].
      rewrite Hf. exists (MoveOrder move), (set_last_move (Some (Move.id move)) self).
      split; [reflexivity|]. right. exists move. auto.
    + exists (rm battle), self. auto.
  - exists (rm battle), self. auto.
Qed.

(** X11: [select_best_damage_move] never fails, for any battle: it either
    hands the choice to the library's random move and leaves the player as
    it is, or commits an available move and records that move's id as the
    last move, all other fields of the player unchanged. *)
Theorem select_best_damage_move_total chart rm self battle :
  exists order self',
    select_best_damage_move chart rm self battle = Some (order, self')
    /\ ((order = rm battle /\ self' = self)
        \/ exists move,
             In move (Battle.available_moves battle)
             /\ order = MoveOrder move
             /\ self' = set_last_move (Some (Move.id move)) self).
Proof. exact (select_best_outcome chart rm self battle). Qed.

Lemma random_switch_outcome chart rm self battle draw :
  Battle.available_switches battle <> [] ->
  exists pokemon,
    In pokemon (Battle.available_switches battle)
    /\ choose_random_switch chart rm self battle draw
       = Some (SwitchOrder pokemon,
               reset_and_initialize_prompt (set_last_move None self)).
Proof.
  intros Hne. unfold choose_random_switch.
  destruct (Battle.available_switches battle) as [|p ps] eqn:E; [contradiction|].
  set (sws := p :: ps) in *.
  assert (Hlt : (draw mod List.length sws < List.length sws)%nat).
  { apply Nat.mod_upper_bound. subst sws. discriminate. }
  apply nth_error_Some in Hlt.
  destruct (nth_error sws (draw mod List.length sws)) as [chosen|] eqn:Hn;
    [|contradiction].
  exists chosen. split; [|reflexivity].
  eapply nth_error_In, Hn.
Qed.

(** X12: with a switch available [choose_random_switch] commits a switch
    to one of the available Pokemon whatever the random draw, forgets the
    last move and resets the chat history to the system prompt. *)
Theorem choose_random_switch_commits chart rm self battle draw :
  Battle.available_switches battle <> [] ->
  exists pokemon,
    In pokemon (Battle.available_switches battle)
    /\ choose_random_switch chart rm self battle draw
       = Some (SwitchOrder pokemon,
               mkPlayer None (just_switched self) true [SystemPrompt]).
Proof. exact (random_switch_outcome chart rm self battle draw). Qed.

Lemma find_switch_in battle name pokemon :
  find_switch battle name = Some pokemon ->
  In pokemon (Battle.available_switches battle) /\ species_key pokemon = name.
Proof.
  unfold find_switch. intros H. apply find_some in H.
  destruct H as [Hin Heq]. apply String.eqb_eq in Heq. auto.
Qed.




(** ** The candidates are legal actions *)

Lemma filtered_moves_legal chart self battle x :
  In x (filter_suboptimal_moves chart self battle (legal_moves battle)
          (calculate_move_damages chart self battle)) ->
  In x (legal_moves battle) \/ In x (legal_switches battle).
Proof.
  unfold filter_suboptimal_moves. intros Hx.
  apply later_rules_within in Hx.
  destruct Hx as [Hl|[Hs|[-> [Hst _]]]]; [|auto|auto].
  apply leading_rules_within in Hl.
  destruct Hl as [Hl|[Hs|Hk]]; [auto|auto|].
  left. eapply damage_map_keys_legal, Hk.
Qed.

(** X14: every candidate handed to the decision-maker is a legal action of
    the turn: the id of an available move or the switch name of an
    available Pokemon.  The pipeline and its overrides never invent an
    action. *)
Theorem turn_candidates_legal chart self battle x :
  In x (turn_candidates chart self battle) ->
  In x (legal_moves battle) \/ In x (legal_switches battle).
Proof.
  intros Hx.
  destruct (turn_candidates_cases chart self battle x Hx) as [Hm|[_ Hs]].
  - apply (filtered_moves_legal chart self battle x Hm).
  - right. eapply filter_suboptimal_switches_incl, Hs.
Qed.


(** ** The forced switch *)

Lemma find_switch_some battle name :
  In name (map species_key (Battle.available_switches battle)) ->
  exists pokemon, find_switch battle name = Some pokemon
                  /\ In pokemon (Battle.available_switches battle).
Proof.
  intros Hin. apply in_map_iff in Hin. destruct Hin as [p [Hk Hp]].
  unfold find_switch.
  destruct (find (fun q => String.eqb (species_key q) name)
                 (Battle.available_switches battle)) as [q|] eqn:F.
  - exists q. split; [reflexivity|]. apply find_some in F. apply F.
  - pose proof (find_none _ _ F p Hp) as Hn. simpl in Hn.
    rewrite Hk, String.eqb_refl in Hn. discriminate.
Qed.

(** X16: [handle_switch] never fails.  With a switch available it commits
    a switch to one of the available Pokemon, whatever the decision-maker
    answers and whatever the random draw, and forgets the last move; with
    none available it hands the turn to the library's random move and
    leaves the player as it is. *)
Theorem handle_switch_commits chart rm self battle model_response draw :
  (Battle.available_switches battle <> [] ->
   exists pokemon self',
     In pokemon (Battle.available_switches battle)
     /\ handle_switch chart rm self battle model_response draw
        = Some (SwitchOrder pokemon, self')
     /\ last_move self' = None)
  /\ (Battle.available_switches battle = [] ->
      handle_switch chart rm self battle model_response draw
      = Some (rm battle, self)).
Proof.
  unfold handle_switch. split.
  - intros Hne.
    set (names := filter_suboptimal_switches chart battle
                    (map species_key (Battle.available_switches battle))).
    assert (Hnames : names <> []).
    { apply switch_filter_keeps_some.
      destruct (Battle.available_switches battle); [contradiction|discriminate]. }
    destruct names as [|n ns] eqn:En; [contradiction|].
    rewrite <- En. clear Hnames.
    set (s := append_message (TurnPrompt names []) (reset_and_initialize_prompt self)).
    assert (Hrandom : exists pokemon self',
              In pokemon (Battle.available_switches battle)
              /\ choose_random_switch chart rm s battle draw
                 = Some (SwitchOrder pokemon, self')
              /\ last_move self' = None).
    { destruct (random_switch_outcome chart rm s battle draw Hne) as [p [Hp Heq]].
      exists p. eexists. split; [exact Hp|]. split; [exact Heq|reflexivity]. }
    destruct (truthy model_response); [|exact Hrandom].
    destruct model_response as [text|]; [|exact Hrandom].
    destruct (Str.mem (sanitize_model_response text) names) eqn:Hmem;
      [|exact Hrandom].
    apply mem_In in Hmem. subst names.
    apply filter_suboptimal_switches_incl in Hmem.
    destruct (find_switch_some battle _ Hmem) as [p [Hf Hp]].
    rewrite Hf. exists p. eexists. split; [exact Hp|].
    split; reflexivity.
  - intros He. rewrite He. reflexivity.
Qed.

(** ** What the pipeline never offers *)

Abbreviation occ l x := (count_occ string_dec l x).

Lemma occ_remove_each_in a names :
  In a names ->
  forall l, (occ (remove_each names l) a <= pred (occ l a))%nat.
Proof.
  unfold remove_each.
  induction names as [|n names IH]; intros Hin l; [destruct Hin|].
  simpl. destruct (string_dec n a) as [->|Hne].
  - etransitivity; [apply (occ_remove_each names)|].
    rewrite occ_remove_first_same. lia.
  - destruct Hin as [Heq|Hin]; [contradiction|].
    etransitivity; [apply (IH Hin)|].
    pose proof (occ_remove_first n l a). lia.
Qed.

(** Solves [occ e x <= occ l x] for an [e] built from [l] by the removals
    of the rules. *)
Ltac thin :=
  cbv beta zeta;
  lazymatch goal with
  | |- (occ ?l _ <= occ ?l _)%nat => apply Nat.le_refl
  | |- (occ (drop_attacks_where _ _ _ _) _ <= _)%nat =>
      etransitivity; [apply occ_drop_attacks_where|thin]
  | |- (occ (when _ (drop_status_moves _) _) _ <= _)%nat =>
      etransitivity; [apply occ_when; intro; apply occ_drop_status_moves|thin]
  | |- (occ (when _ _ _) _ <= _)%nat =>
      etransitivity; [apply occ_when; intro; thin|thin]
  | |- (occ (remove_first _ _) _ <= _)%nat =>
      etransitivity; [apply occ_remove_first|thin]
  | |- (occ (remove_each _ _) _ <= _)%nat =>
      etransitivity; [apply occ_remove_each|thin]
  | |- (occ (filter _ _) _ <= _)%nat =>
      etransitivity; [apply occ_filter|thin]
  end.

Create HintDb edits.
#[local] Hint Unfold rule_1 rule_2 rule_3 rule_4 rule_6 rule_7 rule_8 rule_9
  rule_11 rule_12 rule_13 rule_13_5 rule_14 rule_16 rule_17 rule_18 rule_20
  rule_21 rule_22 rule_23 rule_25 rule_29 rule_30 rule_33 rule_36 : edits.

Section Never.

Variable chart : PokemonType -> PokemonType -> Q.
Variable self : Player.
Variable battle : Battle.t.
Variable legal_actions : list string.
Variable damage_map : DamageMap.

(** The action under consideration: a move, not a switch and not Sleep
    Talk. *)
Variable id : string.
Hypothesis id_no_switch : Str.startswith "switch-" id = false.
Hypothesis id_no_sleeptalk : id <> "sleeptalk".

Let switch x := In x (all_possible_switches battle).

Lemma id_not_switch : ~ switch id.
Proof.
  intros H. apply switch_name_prefix in H. congruence.
Qed.

Lemma id_not_switch_action l : ~ In id (switch_actions l).
Proof.
  unfold switch_actions. rewrite filter_In. intros [_ H]. congruence.
Qed.

Lemma id_not_viable : ~ In id (viable_switches chart battle).
Proof.
  intros H. apply id_not_switch. eapply viable_switches_switch, H.
Qed.

(** Composition of stages. *)
Lemma once_bind f g :
  flow_at_most_once id f ->
  (forall l, (occ l id <= 1)%nat -> flow_at_most_once id (g l)) ->
  flow_at_most_once id (and_then f g).
Proof. destruct f; simpl; auto. Qed.

Lemma once_edit f e :
  flow_at_most_once id f ->
  (forall l, (occ (e l) id <= occ l id)%nat) ->
  flow_at_most_once id (and_then f (edit e)).
Proof.
  intros Hf He. apply once_bind; [exact Hf|].
  intros l Hl. simpl. specialize (He l). lia.
Qed.

Lemma kill_stage f g :
  (forall l, (occ l id <= 1)%nat -> ~ In id (finish (g l))) ->
  flow_at_most_once id f ->
  ~ In id (finish (and_then f g)).
Proof. destruct f; simpl; auto. Qed.

Lemma lacks_bind f g :
  ~ In id (finish f) ->
  (forall l, flow_within switch l (g l)) ->
  ~ In id (finish (and_then f g)).
Proof.
  intros Hf Hg. destruct f as [l|r]; simpl in *; [|exact Hf].
  intros Hin. destruct (finish_within switch l (g l) (Hg l) id Hin) as [H|H].
  - exact (Hf H).
  - exact (id_not_switch H).
Qed.

Lemma lacks_edit f e :
  ~ In id (finish f) ->
  (forall l x, (occ (e l) x <= occ l x)%nat) ->
  ~ In id (finish (and_then f (edit e))).
Proof.
  intros Hf He. apply lacks_bind; [exact Hf|].
  intros l x. apply He.
Qed.

Lemma lacks_rule_10 f :
  ~ In id (finish f) ->
  ~ In id (finish (and_then f (rule_10 battle legal_actions))).
Proof.
  intros Hf. destruct f as [l|r]; simpl in *; [|exact Hf].
  unfold rule_10.
  destruct (status_is _ SLP);
    [destruct (_ <=? 1)%Z; [destruct (Str.mem "sleeptalk" legal_actions)|]|];
    simpl.
  - intros [H|H]; [congruence|exact (id_not_switch_action l H)].
  - apply id_not_switch_action.
  - apply id_not_switch_action.
  - intros H. apply Hf. eapply occ_le_In; [apply occ_remove_first|exact H].
Qed.

(** The stages with an early return, as stages that keep the action at
    most once. *)
Lemma rule_5_once l :
  locked_without_switch chart battle = false ->
  (occ l id <= 1)%nat -> flow_at_most_once id (rule_5 chart battle l).
Proof.
  unfold rule_5, locked_without_switch. intros Hl H.
  destruct (Battle.available_moves battle) as [|m [|m' ms]]; simpl; auto.
  destruct (Qlt_bool _ _); simpl; [|exact H]. cbn [andb] in Hl.
  destruct (viable_switches chart battle) as [|s vs] eqn:Ev;
    cbn [flow_at_most_once].
  - rewrite (viable_switches_nil chart battle Ev) in Hl. discriminate.
  - rewrite <- Ev. apply id_not_viable.
Qed.

Lemma rule_10_once l :
  (occ l id <= 1)%nat ->
  flow_at_most_once id (rule_10 battle legal_actions l).
Proof.
  intros H. unfold rule_10.
  destruct (status_is _ SLP);
    [destruct (_ <=? 1)%Z; [destruct (Str.mem "sleeptalk" legal_actions)|]|];
    cbn [flow_at_most_once].
  - cbn [count_occ].
    destruct (string_dec "sleeptalk" id) as [E|_]; [congruence|].
    pose proof (occ_filter (Str.startswith "switch-") l id) as Hf.
    unfold switch_actions. lia.
  - apply id_not_switch_action.
  - apply id_not_switch_action.
  - pose proof (occ_remove_first "sleeptalk" l id). lia.
Qed.

Lemma rule_15_once l :
  Battle.available_switches battle <> [] ->
  (occ l id <= 1)%nat -> flow_at_most_once id (rule_15 chart battle l).
Proof.
  unfold rule_15. intros Hs H.
  destruct (attack_too_low battle); simpl; [|exact H].
  destruct (viable_switches chart battle) as [|s vs] eqn:Ev;
    cbn [flow_at_most_once].
  - exfalso. apply Hs, (viable_switches_nil chart battle Ev).
  - rewrite <- Ev. apply id_not_viable.
Qed.

Lemma rule_24_once l :
  (occ l id <= 1)%nat -> flow_at_most_once id (rule_24 battle l).
Proof.
  unfold rule_24. intros H. destruct (_ && _); simpl; [|exact H].
  destruct (switch_actions l) as [|s sw] eqn:E; simpl; [auto|].
  change (~ In id (s :: sw)). rewrite <- E. apply id_not_switch_action.
Qed.

Lemma viable_or_cont_once l :
  (occ l id <= 1)%nat ->
  flow_at_most_once id
    match viable_switches chart battle with
    | [] => Cont l
    | s :: vs => Ret (s :: vs)
    end.
Proof.
  intros H. destruct (viable_switches chart battle) as [|s vs] eqn:Ev;
    cbn [flow_at_most_once]; [exact H|].
  rewrite <- Ev. apply id_not_viable.
Qed.

Lemma rule_26_encore_once l :
  (occ l id <= 1)%nat ->
  flow_at_most_once id (rule_26_encore chart battle damage_map l).
Proof.
  unfold rule_26_encore. intros H.
  destruct (Battle.available_moves battle) as [|m [|m' ms]]; simpl; auto.
  destruct (_ && _); [apply viable_or_cont_once, H|exact H].
Qed.

Lemma rule_26_taunt_once l :
  (occ l id <= 1)%nat ->
  flow_at_most_once id (rule_26_taunt chart battle damage_map l).
Proof.
  unfold rule_26_taunt. intros H. destruct (effect_in _ _); [|exact H].
  destruct (Battle.available_moves battle) as [|m ms].
  - cbn [flow_at_most_once]. apply id_not_viable.
  - destruct (forallb _ _); [apply viable_or_cont_once, H|exact H].
Qed.

Lemma rule_27_once l :
  (occ l id <= 1)%nat -> flow_at_most_once id (rule_27 chart battle l).
Proof.
  unfold rule_27. intros H.
  destruct (_ && _); [apply viable_or_cont_once, H|exact H].
Qed.

Lemma locked_with_switch :
  Battle.available_switches battle <> [] ->
  locked_without_switch chart battle = false.
Proof.
  unfold locked_without_switch. intros Hs.
  destruct (Battle.available_moves battle) as [|m [|m' ms]]; try reflexivity.
  destruct (Battle.available_switches battle); [contradiction|].
  apply andb_false_r.
Qed.

(** The list the two leading rules hand on holds the action at most once
    when the legal actions and the keys of the damage map are distinct. *)
Lemma leading_rules_once :
  NoDup legal_actions -> NoDup (dict_keys damage_map) ->
  (occ (rule_0_5 battle damage_map (rule_0 chart battle damage_map legal_actions))
       id <= 1)%nat.
Proof.
  intros Hnd Hndk.
  destruct (leading_rules_cases chart battle legal_actions damage_map)
    as [E | [E | [E | E]]]; rewrite E.
  - apply NoDup_count_occ, Hnd.
  - pose proof id_not_viable as Hn.
    apply (count_occ_not_In string_dec) in Hn. rewrite Hn. lia.
  - apply NoDup_count_occ. unfold moves_reaching.
    apply filter_keys_nodup, Hndk.
  - apply NoDup_count_occ. unfold moves_reaching.
    apply filter_keys_nodup, Hndk.
Qed.

End Never.

Lemma occ_pred_absent l' l (id : string) :
  (occ l' id <= pred (occ l id))%nat -> (occ l id <= 1)%nat -> ~ In id l'.
Proof. intros H1 H2 Hin. apply occ_In in Hin. lia. Qed.

Lemma occ_drop_attacks_hit battle (low : Q -> bool) id info :
  low (expected_damage info) = true -> is_attack battle id = true ->
  forall dm l, In (id, info) dm ->
    (occ (drop_attacks_where battle dm low l) id <= pred (occ l id))%nat.
Proof.
  intros Hlow Hatt. unfold drop_attacks_where.
  induction dm as [|kv dm IH]; intros l Hin; [destruct Hin|].
  simpl. destruct Hin as [->|Hin].
  - cbn [fst snd]. rewrite Hlow, Hatt. cbn [andb when].
    etransitivity; [apply (occ_drop_attacks_where battle dm low)|].
    rewrite occ_remove_first_same. lia.
  - etransitivity; [apply (IH _ Hin)|].
    assert ((occ (when (low (expected_damage (snd kv)) && is_attack battle (fst kv))
                       (remove_first (fst kv)) l) id <= occ l id)%nat) by thin.
    lia.
Qed.

Ltac side := solve [assumption | reflexivity | discriminate | congruence].

(** Walks the chain of stages from the last one inwards: [kill] proves
    that the stage in question removes the action. *)
Ltac route kill :=
  lazymatch goal with
  | |- flow_at_most_once _ (Cont _) =>
      cbn [flow_at_most_once]; first [assumption | eapply leading_rules_once; side]
  | |- flow_at_most_once _ (rules_1_to_9 _ _ _ _) =>
      unfold rules_1_to_9; route kill
  | |- flow_at_most_once _ (and_then _ (edit _)) => eapply once_edit; route kill
  | |- flow_at_most_once _ (and_then _ _) => eapply once_bind; route kill
  | |- flow_at_most_once _ (rule_5 _ _ _) => eapply rule_5_once; route kill
  | |- flow_at_most_once _ (rule_10 _ _ _) => eapply rule_10_once; route kill
  | |- flow_at_most_once _ (rule_15 _ _ _) => eapply rule_15_once; route kill
  | |- flow_at_most_once _ (rule_24 _ _) => eapply rule_24_once; route kill
  | |- flow_at_most_once _ (rule_26_encore _ _ _ _) =>
      eapply rule_26_encore_once; route kill
  | |- flow_at_most_once _ (rule_26_taunt _ _ _ _) =>
      eapply rule_26_taunt_once; route kill
  | |- flow_at_most_once _ (rule_27 _ _ _) => eapply rule_27_once; route kill
  | |- ~ In _ (finish (rules_11_to_36 _ _ _ _ _)) =>
      unfold rules_11_to_36; route kill
  | |- ~ In _ (finish (and_then _ (edit _))) =>
      first [ eapply kill_stage;
              [intros ? ?; cbn [finish edit]; solve [kill]|route kill]
            | eapply lacks_edit; route kill ]
  | |- ~ In _ (finish (and_then _ (rule_10 _ _))) =>
      eapply lacks_rule_10; route kill
  | |- ~ In _ (finish (and_then _ (rules_11_to_36 _ _ _ _))) =>
      first [ eapply kill_stage; [intros ? ?; route kill|route kill]
            | eapply lacks_bind; route kill ]
  | |- ~ In _ (finish (and_then _ _)) => eapply lacks_bind; route kill
  | |- forall _, flow_within _ _ _ =>
      intros ?;
      first [apply rule_5_within | apply rule_15_within | apply rule_24_within
            | apply rule_26_encore_within | apply rule_26_taunt_within
            | apply rule_27_within | apply rules_11_to_36_within]
  | |- forall _ _, (occ _ _ <= occ _ _)%nat =>
      intros ? ?; autounfold with edits; thin
  | |- forall _, (occ _ _ <= occ _ _)%nat =>
      intros ?; autounfold with edits; thin
  | |- forall _, (occ _ _ <= 1)%nat -> _ => intros ? ?; route kill
  | |- (occ _ _ <= 1)%nat => first [assumption | eapply leading_rules_once; side]
  | |- locked_without_switch _ _ = false =>
      first [assumption | eapply locked_with_switch; assumption]
  | |- ~ In _ _ => fail
  | |- _ => side
  end.

Lemma healing_names id :
  In id healing_moves ->
  Str.startswith "switch-" id = false /\ id <> "sleeptalk".
Proof.
  unfold healing_moves. simpl.
  intros H; repeat (destruct H as [<-|H]; [split; [reflexivity|discriminate]|]).
  destruct H.
Qed.

Lemma recharge_names id :
  In id recharge_moves ->
  Str.startswith "switch-" id = false /\ id <> "sleeptalk".
Proof.
  unfold recharge_moves. simpl.
  intros H; repeat (destruct H as [<-|H]; [split; [reflexivity|discriminate]|]).
  destruct H.
Qed.

(** X17: at an HP fraction of 0.66 or more the pipeline never offers a
    healing move ([healing_moves]), whatever overrides fire before or
    after rule 1, the legal actions and the keys of the damage map being
    distinct. *)
Theorem healing_never_offered_at_high_hp chart self battle legal_actions damage_map id :
  Qge_bool (Pokemon.current_hp_fraction (Battle.active_pokemon battle)) (66 # 100)
  = true ->
  NoDup legal_actions -> NoDup (dict_keys damage_map) ->
  In id healing_moves ->
  ~ In id (filter_suboptimal_moves chart self battle legal_actions damage_map).
Proof.
  intros Hhp Hnd Hndk Hid.
  destruct (healing_names id Hid) as [Hns Hnst].
  unfold filter_suboptimal_moves, later_rules, rules_1_to_9.
  route ltac:(unfold rule_1; rewrite Hhp; cbn [when];
              eapply occ_pred_absent; [apply occ_remove_each_in; exact Hid|assumption]).
Qed.

(** X18: the pipeline never offers an attack (a move of the battle whose
    category is not status) whose entry in the damage map has an expected
    damage of 0.5 or less, unless rule 5 stands and fights; the legal
    actions and the keys of the damage map are distinct and the id is
    neither a switch name nor Sleep Talk. *)
Theorem weak_attack_never_offered chart self battle legal_actions damage_map id info :
  In (id, info) damage_map ->
  Qle_bool (expected_damage info) (5 # 10) = true ->
  is_attack battle id = true ->
  locked_without_switch chart battle = false ->
  NoDup legal_actions -> NoDup (dict_keys damage_map) ->
  Str.startswith "switch-" id = false -> id <> "sleeptalk" ->
  ~ In id (filter_suboptimal_moves chart self battle legal_actions damage_map).
Proof.
  intros Hin Hlow Hatt Hlock Hnd Hndk Hns Hnst.
  unfold filter_suboptimal_moves, later_rules, rules_1_to_9.
  route ltac:(unfold rule_7;
              eapply occ_pred_absent;
              [apply (occ_drop_attacks_hit battle _ id info Hlow Hatt); exact Hin
              |assumption]).
Qed.

(** X19: with a switch available the pipeline never offers a move with a
    recharge turn ([recharge_moves]), the legal actions and the keys of
    the damage map being distinct. *)
Theorem recharge_never_offered chart self battle legal_actions damage_map id :
  Battle.available_switches battle <> [] ->
  NoDup legal_actions -> NoDup (dict_keys damage_map) ->
  In id recharge_moves ->
  ~ In id (filter_suboptimal_moves chart self battle legal_actions damage_map).
Proof.
  intros Hsw Hnd Hndk Hid.
  destruct (recharge_names id Hid) as [Hns Hnst].
  unfold filter_suboptimal_moves, later_rules, rules_1_to_9.
  route ltac:(unfold rule_25;
              eapply occ_pred_absent; [apply occ_remove_each_in; exact Hid|assumption]).
Qed.

(** The stage removes the action where one of its guards is known to
    hold: the goal shows [when true] around the removal. *)
Ltac kill_when :=
  cbv beta iota zeta;
  lazymatch goal with
  | |- ~ In ?a ?e =>
      lazymatch e with
      | context [when true (remove_first a) ?X] =>
          let mid := fresh "mid" in
          set (mid := when true (remove_first a) X);
          eapply occ_pred_absent; [|eassumption];
          transitivity (occ mid a);
          [thin
          |subst mid; cbn [when]; rewrite occ_remove_first_same;
           apply Nat.pred_le_mono; thin]
      | context [when true (remove_each ?names) ?X] =>
          let mid := fresh "mid" in
          set (mid := when true (remove_each names) X);
          eapply occ_pred_absent; [|eassumption];
          transitivity (occ mid a);
          [thin
          |subst mid; cbn [when];
           etransitivity; [apply occ_remove_each_in; solve [assumption | simpl; tauto]|];
           apply Nat.pred_le_mono; thin]
      end
  end.

Ltac plain_name H :=
  simpl in H;
  repeat (destruct H as [<-|H]; [split; [reflexivity|discriminate]|]);
  destruct H.

Lemma protect_names id :
  In id protect_moves -> Str.startswith "switch-" id = false /\ id <> "sleeptalk".
Proof. unfold protect_moves. intros H. plain_name H. Qed.

Lemma sleep_names id :
  In id sleep_moves -> Str.startswith "switch-" id = false /\ id <> "sleeptalk".
Proof. unfold sleep_moves. intros H. plain_name H. Qed.

Lemma status_names id :
  In id status_moves -> Str.startswith "switch-" id = false /\ id <> "sleeptalk".
Proof. unfold status_moves. intros H. plain_name H. Qed.

(** X20: the pipeline never offers a hazard, screen or room move whose
    condition is already up: Stealth Rock or Sticky Web on the opponent's
    side, Spikes at three layers, Toxic Spikes at two, Reflect, Light
    Screen, Aurora Veil or Tailwind on the own side, Trick Room on the
    field; the legal actions and the keys of the damage map are
    distinct. *)
Theorem saturated_field_moves_never_offered chart self battle legal_actions damage_map :
  NoDup legal_actions -> NoDup (dict_keys damage_map) ->
  let result := filter_suboptimal_moves chart self battle legal_actions damage_map in
  let theirs := Battle.opponent_side_conditions battle in
  let mine := Battle.side_conditions battle in
  (side_has STEALTH_ROCK theirs = true -> ~ In "stealthrock" result)
  /\ ((3 <=? side_count SPIKES theirs)%Z = true -> ~ In "spikes" result)
  /\ ((2 <=? side_count TOXIC_SPIKES theirs)%Z = true -> ~ In "toxicspikes" result)
  /\ (side_has STICKY_WEB theirs = true -> ~ In "stickyweb" result)
  /\ (side_has REFLECT mine = true -> ~ In "reflect" result)
  /\ (side_has LIGHT_SCREEN mine = true -> ~ In "lightscreen" result)
  /\ (side_has AURORA_VEIL mine = true -> ~ In "auroraveil" result)
  /\ (side_has TAILWIND mine = true -> ~ In "tailwind" result)
  /\ (field_in TRICK_ROOM (Battle.fields battle) = true -> ~ In "trickroom" result).
Proof.
  intros Hnd Hndk result theirs mine. subst result theirs mine.
  unfold filter_suboptimal_moves, later_rules, rules_1_to_9.
  repeat split; intros Hc;
    route ltac:(unfold rule_2; rewrite Hc; kill_when).
Qed.

(** X21: with a switch available the pipeline never offers the move used
    on the turn before when repeating it is pointless: Wish after Wish, any
    protection move after a protection move, Yawn after Yawn, Trick Room
    after Trick Room; the legal actions and the keys of the damage map are
    distinct. *)
Theorem repeated_moves_never_offered chart self battle legal_actions damage_map :
  Battle.available_switches battle <> [] ->
  NoDup legal_actions -> NoDup (dict_keys damage_map) ->
  let result := filter_suboptimal_moves chart self battle legal_actions damage_map in
  (last_move self = Some "wish" -> ~ In "wish" result)
  /\ (forall id, opt_in (last_move self) protect_moves = true ->
        In id protect_moves -> ~ In id result)
  /\ (last_move self = Some "yawn" -> ~ In "yawn" result)
  /\ (last_move self = Some "trickroom" -> ~ In "trickroom" result).
Proof.
  intros Hsw Hnd Hndk result. subst result.
  unfold filter_suboptimal_moves, later_rules, rules_1_to_9.
  split; [|split; [|split]].
  - intros Hc. route ltac:(unfold rule_12; rewrite Hc; cbn [opt_is String.eqb Ascii.eqb Bool.eqb]; kill_when).
  - intros id Hc Hid. destruct (protect_names id Hid) as [Hns Hnst].
    route ltac:(unfold rule_17; rewrite Hc; kill_when).
  - intros Hc. route ltac:(unfold rule_29; rewrite Hc; cbn [opt_is String.eqb Ascii.eqb Bool.eqb]; kill_when).
  - intros Hc. route ltac:(unfold rule_36; rewrite Hc; cbn [opt_is String.eqb Ascii.eqb Bool.eqb]; kill_when).
Qed.

(** X22: unless rule 5 stands and fights, the pipeline never offers a
    sleep-inducing move while a member of the opposing team is asleep, nor
    a status-inflicting move while the opposing active Pokemon carries a
    status; the legal actions and the keys of the damage map are
    distinct. *)
Theorem redundant_status_moves_never_offered chart self battle legal_actions damage_map id :
  locked_without_switch chart battle = false ->
  NoDup legal_actions -> NoDup (dict_keys damage_map) ->
  let result := filter_suboptimal_moves chart self battle legal_actions damage_map in
  (is_opponent_asleep battle = true -> In id sleep_moves -> ~ In id result)
  /\ (forall s, Pokemon.status (Battle.opponent_active_pokemon battle) = Some s ->
        In id status_moves -> ~ In id result).
Proof.
  intros Hlock Hnd Hndk result. subst result.
  unfold filter_suboptimal_moves, later_rules, rules_1_to_9.
  split.
  - intros Hc Hid. destruct (sleep_names id Hid) as [Hns Hnst].
    route ltac:(unfold rule_8; rewrite Hc; kill_when).
  - intros s Hc Hid. destruct (status_names id Hid) as [Hns Hnst].
    route ltac:(unfold rule_13; rewrite Hc; kill_when).
Qed.

(** ** A named candidate is played *)

Lemma replace_without_occurrence old new s :
  Str.contains old s = false -> Str.replace_from old new s 0 = s.
Proof.
  induction s as [|c s IH]; [reflexivity|].
  cbn [Str.contains Str.replace_from]. intros H.
  apply orb_false_iff in H. destruct H as [Hp Hc].
  rewrite Hp, (IH Hc). reflexivity.
Qed.

Lemma switch_name_round_trip pokemon :
  Str.contains "switch-" (species_key pokemon) = false ->
  Str.replace "switch-" "" (switch_name pokemon) = species_key pokemon.
Proof.
  intros H. unfold Str.replace, switch_name.
  assert (Hp : String.prefix "switch-" ("switch-" ++ species_key pokemon) = true)
    by (simpl; destruct (species_key pokemon); reflexivity).
  change ("switch-" ++ species_key pokemon)
    with (String "s" ("witch-" ++ species_key pokemon)) in *.
  cbn [Str.replace_from]. rewrite Hp.
  cbn. apply replace_without_occurrence, H.
Qed.

(** X23: a response that names a candidate of the turn is played at once.
    With no move id starting with [switch-] and no species key containing
    it, a non-empty response whose sanitised form is a candidate commits
    the available move of that id, or a switch to an available Pokemon of
    that switch name; no attempt is spent on it. *)
Theorem named_candidate_is_played chart self0 self battle text :
  text <> "" ->
  (forall move, In move (Battle.available_moves battle) ->
     Str.startswith "switch-" (Move.id move) = false) ->
  (forall pokemon, In pokemon (Battle.available_switches battle) ->
     Str.contains "switch-" (species_key pokemon) = false) ->
  In (sanitize_model_response text) (turn_candidates chart self0 battle) ->
  exists order self',
    try_response self battle (turn_candidates chart self0 battle) (Some text)
    = Some (order, self')
    /\ ((exists move, In move (Battle.available_moves battle)
                      /\ Move.id move = sanitize_model_response text
                      /\ order = MoveOrder move)
        \/ (exists pokemon, In pokemon (Battle.available_switches battle)
                            /\ switch_name pokemon = sanitize_model_response text
                            /\ order = SwitchOrder pokemon)).
Proof.
  intros Ht Hmoves Hkeys Hin.
  assert (Hlegal : In (sanitize_model_response text) (legal_moves battle)
                   \/ In (sanitize_model_response text) (legal_switches battle)).
  { destruct (turn_candidates_cases chart self0 battle _ Hin) as [Hm|[_ Hs]].
    - apply (filtered_moves_legal chart self0 battle _ Hm).
    - right. eapply filter_suboptimal_switches_incl, Hs. }
  unfold try_response.
  destruct text as [|c text]; [contradiction|]. cbn [truthy].
  set (a := sanitize_model_response (String c text)) in *.
  apply mem_In in Hin. rewrite Hin.
  destruct Hlegal as [Hm|Hs].
  - destruct (find_move_some battle a Hm) as [m [Hf [Hmin Hid]]].
    pose proof (Hmoves m Hmin) as Hpre. rewrite Hid in Hpre.
    rewrite Hpre, Hf. eexists. eexists. split; [reflexivity|].
    left. exists m. auto.
  - pose proof (switch_name_prefix battle a Hs) as Hpre. rewrite Hpre.
    unfold legal_switches, all_possible_switches in Hs.
    apply in_map_iff in Hs. destruct Hs as [p [Hname Hp]].
    rewrite <- Hname, (switch_name_round_trip p (Hkeys p Hp)).
    destruct (find_switch_some battle (species_key p)) as [q [Hf Hq]].
    { apply in_map, Hp. }
    rewrite Hf. eexists. eexists. split; [reflexivity|].
    right. exists q. split; [exact Hq|]. split; [|reflexivity].
    apply find_switch_in in Hf. destruct Hf as [_ Hk].
    unfold switch_name. rewrite Hk. reflexivity.
Qed.


(** X25: an accepted answer to a forced switch is honoured: when the
    sanitised response is one of the viable names, [handle_switch] commits
    the switch to the first available Pokemon of that species key, forgets
    the last move and flags the player as having just switched; the chat
    history is the fresh system prompt followed by the switch prompt. *)
Theorem handle_switch_honours_choice chart rm self battle text draw :
  text <> "" ->
  In (sanitize_model_response text)
     (filter_suboptimal_switches chart battle
        (map species_key (Battle.available_switches battle))) ->
  exists pokemon self',
    handle_switch chart rm self battle (Some text) draw
    = Some (SwitchOrder pokemon, self')
    /\ find_switch battle (sanitize_model_response text) = Some pokemon
    /\ species_key pokemon = sanitize_model_response text
    /\ last_move self' = None /\ just_switched self' = true
    /\ exists names, message_history self' = [SystemPrompt; TurnPrompt names []].
Proof.
  intros Ht Hin. unfold handle_switch.
  set (names := filter_suboptimal_switches chart battle
                  (map species_key (Battle.available_switches battle))) in *.
  destruct names as [|n ns] eqn:En; [destruct Hin|]. rewrite <- En in *.
  destruct text as [|c text]; [contradiction|]. cbn [truthy].
  pose proof Hin as Hmem. apply mem_In in Hmem. rewrite Hmem.
  subst names. apply filter_suboptimal_switches_incl in Hin.
  destruct (find_switch_some battle _ Hin) as [p [Hf Hp]].
  rewrite Hf. exists p. eexists. split; [reflexivity|].
  split; [reflexivity|].
  apply find_switch_in in Hf. destruct Hf as [_ Hk].
  split; [exact Hk|]. split; [reflexivity|]. split; [reflexivity|].
  eexists. reflexivity.
Qed.

(** ** Bounds of the ability modifier *)

(** X26: the modifier of one ability lies between 0 and 2, and exceeds 1
    only for a Fire move into Dry Skin (1.25) or into Fluffy (2, or 1 when
    the move also makes contact). *)
Theorem get_defensive_modifier_bounds move move_type effectiveness opponent ability :
  let modifier :=
    get_defensive_modifier move move_type effectiveness opponent ability in
  0 <= modifier /\ modifier <= 2
  /\ (1 < modifier ->
      move_type = FIRE /\ (ability = "dryskin" \/ ability = "fluffy")).
Proof.
  cbv zeta.
  destruct (String.eqb_spec ability "dryskin") as [->|Hd].
  { unfold get_defensive_modifier. cbn.
    destruct move_type; cbn; repeat split; try (intros H; vm_compute in H);
      try discriminate; auto; try (vm_compute; discriminate). }
  destruct (String.eqb_spec ability "fluffy") as [->|Hf].
  { unfold get_defensive_modifier. cbn.
    destruct (Str.mem "contact" (Move.flags move));
      destruct move_type; cbn; repeat split; try (intros H; vm_compute in H);
      try discriminate; auto; try (vm_compute; discriminate). }
  assert (Hle : 0 <= get_defensive_modifier move move_type effectiveness opponent ability
               /\ get_defensive_modifier move move_type effectiveness opponent ability <= 1).
  { unfold get_defensive_modifier.
    apply String.eqb_neq in Hd, Hf. rewrite Hd, Hf. cbn [andb].
    repeat match goal with
           | |- context [if ?c then _ else _] =>
               destruct c; [split; vm_compute; discriminate|]
           end.
    cbv zeta. unfold scale.
    repeat match goal with
           | |- context [if ?c then _ else _] => destruct c
           end; split; vm_compute; discriminate. }
  destruct Hle as [H0 H1]. split; [exact H0|]. split; [lra|].
  intros H. lra.
Qed.

(** ** Closed instances of the further properties *)

Ltac distinct := repeat constructor; simpl; intuition discriminate.

(** The theorem of X6 at Blastoise. *)
Lemma calculate_speed_nonneg_witness :
  0 <= calculate_speed Samples.surf_into_solidrock Samples.blastoise [].
Proof.
  apply (calculate_speed_nonneg Samples.surf_into_solidrock Samples.blastoise []).
  vm_compute. discriminate.
Defined.

(** The theorem of X8 at Starmie's Surf. *)
Lemma damage_map_lookup_witness :
  NoDup (legal_moves Samples.starmie_vs_snorlax)
  /\ dict_get String.eqb "surf"
       (calculate_move_damages Samples.chart Samples.fresh_player
          Samples.starmie_vs_snorlax)
     = Some (move_entry Samples.chart Samples.fresh_player
               Samples.starmie_vs_snorlax Samples.surf).
Proof.
  assert (Hnd : NoDup (legal_moves Samples.starmie_vs_snorlax)) by distinct.
  split; [exact Hnd|].
  apply (proj1 (damage_map_lookup Samples.chart Samples.fresh_player
                  Samples.starmie_vs_snorlax Hnd) Samples.surf).
  simpl. auto.
Defined.

(** The theorem of X9 at the entry of Protect. *)
Lemma damage_map_zero_entries_witness :
  let b := Samples.surf_into_solidrock in
  let info := mkInfo 0 false (1 # 2) 0 in
  In ("protect", info)
     (calculate_move_damages Samples.chart Samples.fresh_player b)
  /\ exists move,
       In move (Battle.available_moves b)
       /\ Move.id move = "protect"
       /\ priority info = Move.priority move
       /\ (Move.category move = STATUS -> expected_damage info = 0)
       /\ (forall a,
             grants_immunity a (snd (resolve_power_type b move)) = true ->
             (Pokemon.ability (Battle.opponent_active_pokemon b) = Some a
              /\ truthy (Some a) = true)
             \/ (truthy (Pokemon.ability (Battle.opponent_active_pokemon b)) = false
                 /\ In a (Pokemon.possible_abilities
                            (Battle.opponent_active_pokemon b))) ->
             expected_damage info = 0 /\ multiplier info == 0).
Proof.
  intros b info.
  assert (Hin : In ("protect", info)
                   (calculate_move_damages Samples.chart Samples.fresh_player b))
    by (right; left; reflexivity).
  split; [exact Hin|].
  exact (damage_map_zero_entries Samples.chart Samples.fresh_player b
           "protect" info Hin).
Defined.

(** The theorem of X12 with Venusaur and Arcanine in reserve. *)
Lemma choose_random_switch_commits_witness :
  exists pokemon,
    In pokemon (Battle.available_switches Samples.reserve_venusaur)
    /\ choose_random_switch Samples.chart (Samples.first_order PassOrder)
         Samples.fresh_player Samples.reserve_venusaur 5
       = Some (SwitchOrder pokemon, mkPlayer None false true [SystemPrompt]).
Proof.
  apply (choose_random_switch_commits Samples.chart (Samples.first_order PassOrder)
           Samples.fresh_player Samples.reserve_venusaur 5).
  discriminate.
Defined.

(** The theorem of X14 at Snorlax's Body Slam. *)
Lemma turn_candidates_legal_witness :
  In "bodyslam" (legal_moves Samples.reserve_venusaur)
  \/ In "bodyslam" (legal_switches Samples.reserve_venusaur).
Proof.
  apply (turn_candidates_legal Samples.chart Samples.fresh_player
           Samples.reserve_venusaur "bodyslam").
  left. reflexivity.
Defined.


(** The theorem of X17 at a healthy Starmie with Recover. *)
Lemma healing_never_offered_witness :
  let b := Samples.status_moves_only in
  ~ In "recover"
       (filter_suboptimal_moves Samples.chart Samples.fresh_player b
          (legal_moves b)
          (calculate_move_damages Samples.chart Samples.fresh_player b)).
Proof.
  intros b.
  apply (healing_never_offered_at_high_hp Samples.chart Samples.fresh_player b).
  - reflexivity.
  - distinct.
  - vm_compute. distinct.
  - simpl. tauto.
Defined.

(** The theorem of X18 at Snorlax's resisted Ice Punch. *)
Lemma weak_attack_never_offered_witness :
  let b := Scenes.resisted_attack in
  ~ In "icepunch"
       (filter_suboptimal_moves Samples.chart Samples.fresh_player b
          (legal_moves b)
          (calculate_move_damages Samples.chart Samples.fresh_player b)).
Proof.
  intros b.
  apply (weak_attack_never_offered Samples.chart Samples.fresh_player b
           (legal_moves b)
           (calculate_move_damages Samples.chart Samples.fresh_player b)
           "icepunch"
           (move_entry Samples.chart Samples.fresh_player b Scenes.icepunch)).
  - right. left. reflexivity.
  - reflexivity.
  - reflexivity.
  - reflexivity.
  - distinct.
  - vm_compute. distinct.
  - reflexivity.
  - discriminate.
Defined.

(** The theorem of X19 at Tauros's Hyper Beam. *)
Lemma recharge_never_offered_witness :
  let b := Samples.tauros_vs_machamp in
  ~ In "hyperbeam"
       (filter_suboptimal_moves Samples.chart Samples.fresh_player b
          (legal_moves b)
          (calculate_move_damages Samples.chart Samples.fresh_player b)).
Proof.
  intros b.
  apply (recharge_never_offered Samples.chart Samples.fresh_player b).
  - discriminate.
  - distinct.
  - vm_compute. distinct.
  - simpl. tauto.
Defined.

(** The theorem of X20 with Stealth Rock up. *)
Lemma saturated_field_witness :
  let b := Scenes.rocks_up in
  ~ In "stealthrock"
       (filter_suboptimal_moves Samples.chart Samples.fresh_player b
          (legal_moves b)
          (calculate_move_damages Samples.chart Samples.fresh_player b)).
Proof.
  intros b.
  assert (Hnd : NoDup (legal_moves b)) by distinct.
  assert (Hndk : NoDup (dict_keys (calculate_move_damages Samples.chart
                                     Samples.fresh_player b)))
    by (vm_compute; distinct).
  apply (proj1 (saturated_field_moves_never_offered Samples.chart
                  Samples.fresh_player b _ _ Hnd Hndk)).
  reflexivity.
Defined.

(** The theorem of X21 at a Blastoise that used Protect on the turn
    before. *)
Lemma repeated_moves_witness :
  let b := Scenes.protect_again in
  let self := Samples.player_after "protect" in
  ~ In "protect"
       (filter_suboptimal_moves Samples.chart self b (legal_moves b)
          (calculate_move_damages Samples.chart self b)).
Proof.
  intros b self.
  assert (Hsw : Battle.available_switches b <> []) by discriminate.
  assert (Hnd : NoDup (legal_moves b)) by distinct.
  assert (Hndk : NoDup (dict_keys (calculate_move_damages Samples.chart self b)))
    by (vm_compute; distinct).
  apply (proj1 (proj2 (repeated_moves_never_offered Samples.chart self b _ _
                         Hsw Hnd Hndk)) "protect").
  - reflexivity.
  - left. reflexivity.
Defined.

(** The theorem of X22 at Toxic into a paralysed Blastoise. *)
Lemma redundant_status_moves_witness :
  let b := Scenes.opponent_paralysed in
  ~ In "toxic"
       (filter_suboptimal_moves Samples.chart Samples.fresh_player b
          (legal_moves b)
          (calculate_move_damages Samples.chart Samples.fresh_player b)).
Proof.
  intros b.
  assert (Hlock : locked_without_switch Samples.chart b = false) by reflexivity.
  assert (Hnd : NoDup (legal_moves b)) by distinct.
  assert (Hndk : NoDup (dict_keys (calculate_move_damages Samples.chart
                                     Samples.fresh_player b)))
    by (vm_compute; distinct).
  apply (proj2 (redundant_status_moves_never_offered Samples.chart
                  Samples.fresh_player b _ _ "toxic" Hlock Hnd Hndk) PAR).
  - reflexivity.
  - simpl. tauto.
Defined.

(** The theorem of X23 at the answer Surf! of a Starmie with Porygon2 in
    reserve. *)
Lemma named_candidate_is_played_witness :
  let b := Samples.porygon2_in_reserve in
  exists order self',
    try_response Samples.fresh_player b
      (turn_candidates Samples.chart Samples.fresh_player b) (Some "Surf!")
    = Some (order, self')
    /\ ((exists move, In move (Battle.available_moves b)
                      /\ Move.id move = sanitize_model_response "Surf!"
                      /\ order = MoveOrder move)
        \/ (exists pokemon, In pokemon (Battle.available_switches b)
                            /\ switch_name pokemon = sanitize_model_response "Surf!"
                            /\ order = SwitchOrder pokemon)).
Proof.
  intros b.
  apply (named_candidate_is_played Samples.chart Samples.fresh_player
           Samples.fresh_player b "Surf!").
  - discriminate.
  - intros move [<-|[<-|[]]]; reflexivity.
  - intros pokemon [<-|[]]. reflexivity.
  - left. reflexivity.
Defined.


(** The theorem of X25 at the answer Venusaur to a forced switch. *)
Lemma handle_switch_honours_choice_witness :
  let b := Samples.reserve_venusaur in
  exists pokemon self',
    handle_switch Samples.chart (Samples.first_order PassOrder)
      Samples.fresh_player b (Some "Venusaur") 0
    = Some (SwitchOrder pokemon, self')
    /\ find_switch b (sanitize_model_response "Venusaur") = Some pokemon
    /\ species_key pokemon = sanitize_model_response "Venusaur"
    /\ last_move self' = None /\ just_switched self' = true
    /\ exists names, message_history self' = [SystemPrompt; TurnPrompt names []].
Proof.
  intros b.
  apply (handle_switch_honours_choice Samples.chart (Samples.first_order PassOrder)
           Samples.fresh_player b "Venusaur" 0).
  - discriminate.
  - left. reflexivity.
Defined.
